(** * Artsketch: the pencil-sketch rendering pipeline

    A shallow embedding of [_pencil_sketch] (src/sketch/views.py, lines
    18-100) and the properties its specification states about it,
    followed by the views around it: the dashboard list, the sections
    and the archive export of views.py, the upload paths of models.py
    and the choices of forms.py.

    The pipeline is Python glue around Pillow and NumPy.  What the
    repository itself decides (the order of the stages, the constants,
    the style and depth dispatch, the dictionaries, the arithmetic on
    [float32] arrays, the threading of the process-wide random generator)
    is modelled here line by line.  Library kernels whose pixel-level
    result is not written in the repository (Gaussian blur, unsharp mask,
    median filter, edge kernel, histogram stretch, resampling, the
    decoder, the sampler, the percentile) are fields of the interface
    [Imaging]; every theorem quantifies over all its instances. *)

From Stdlib Require Import ZArith QArith Qround Qabs List Ascii String Bool Lia.
From Stdlib Require Import Floats.SpecFloat.
From stdpp Require Import gmap strings sorting.

Local Open Scope Z_scope.

(** ** IEEE-754 numbers

    NumPy computes on [float32] arrays; Python scalars are [binary64].
    Both are [spec_float] values of the Standard Library, with the
    precision fixed per operation. *)

Module F.

Definition float := spec_float.

Definition of_Z32 (z : Z) : float := binary_normalize 24 128 z 0 false.
Definition of_Z64 (z : Z) : float := binary_normalize 53 1024 z 0 false.

(** A decimal literal [n/d] of the Python source, read as the nearest
    [binary64] number. *)
Definition lit (n d : Z) : float := SFdiv 53 1024 (of_Z64 n) (of_Z64 d).

(** [numpy.float32(x)] for a [binary64] scalar [x]: round to nearest even. *)
Definition to32 (x : float) : float :=
  match x with
  | S754_finite s m e => binary_normalize 24 128 (cond_Zopp s (Zpos m)) e s
  | _ => x
  end.

Definition add32 := SFadd 24 128.
Definition sub32 := SFsub 24 128.
Definition mul32 := SFmul 24 128.
Definition div32 := SFdiv 24 128.
Definition sub64 := SFsub 53 1024.
Definition mul64 := SFmul 53 1024.

Definition ltb (x y : float) : bool := SFltb x y.
Definition leb (x y : float) : bool := SFleb x y.

Definition is_finite (x : float) : bool :=
  match x with
  | S754_zero _ | S754_finite _ _ _ => true
  | _ => false
  end.

(** The integer part of a finite number, rounded toward zero. *)
Definition trunc (x : float) : Z :=
  match x with
  | S754_finite s m e =>
      cond_Zopp s (match e with
                   | Zneg p => Z.shiftr (Zpos m) (Zpos p)
                   | _ => Z.shiftl (Zpos m) e
                   end)
  | _ => 0
  end.

(** [x.astype(numpy.uint8)] on one element; the pipeline clips to
    [0, 255] before every such cast. *)
Definition to_uint8 (x : float) : Z := (trunc x) mod 256.

(** [numpy.clip(x, lo, hi)] on one element. *)
Definition clip (x lo hi : float) : float :=
  if ltb x lo then lo else if ltb hi x then hi else x.

End F.

(** ** Images, arrays and exceptions *)

(** An RGB pixel; an 8-bit sample is a [Z] in [0, 255]. *)
Definition rgb : Type := Z * Z * Z.

(** A Pillow image: [size] is (width, height), [data] the pixels in
    row-major order.  [Image Z] is mode L, [Image rgb] is mode RGB. *)
Record Image (P : Type) := mk_image { size : Z * Z; data : list P }.
Arguments mk_image {P} size data.
Arguments size {P} _.
Arguments data {P} _.

(** A two-dimensional NumPy array: [shape] is (rows, columns). *)
Record ndarray (T : Type) := Array { shape : Z * Z; elems : list T }.
Arguments Array {T} shape elems.
Arguments shape {T} _.
Arguments elems {T} _.

(** What escapes from [Image.open(f).convert("RGB")] on bytes Pillow
    cannot turn into an image: a file it does not identify, a damaged or
    truncated body, a broken chunk, a pixel count beyond its limit, a
    mode it cannot convert.  [ValueError] is also what NumPy raises when
    the operands of an element-wise operation cannot be broadcast
    together. *)
Inductive exn :=
| UnidentifiedImageError
| OSError
| DecompressionBombError
| SyntaxError
| ValueError.

(** The filters of [PIL.ImageFilter] the pipeline builds. *)
Inductive ImageFilter :=
| GaussianBlur (radius : Q)
| UnsharpMask (radius : Q) (percent threshold : Z)
| MedianFilter (size : Z)
| MaxFilter (size : Z)
| FIND_EDGES.

(** ** The library interface

    Pillow and NumPy operations whose result the repository does not
    spell out.  Filters and the histogram stretch act on the pixel data
    and never change the size of an image, which the wrappers below make
    structural.  [Image_open_RGB] is [Image.open(f).convert("RGB")], the
    one call that raises; [Image_open_empty] records that Pillow does not
    identify empty input.  [luma] is the conversion of one RGB pixel to
    mode L.  [thumbnail_tie] settles which of two candidate sizes
    [Image.thumbnail] keeps where only the rounding of its [binary64]
    quotients decides (see below); every theorem holds whichever way it
    goes. *)
Class Imaging := {
  rng_state : Type;
  Image_open_RGB : list Byte.byte -> exn + Image rgb;
  Image_open_empty : Image_open_RGB [] = inl UnidentifiedImageError;
  luma : rgb -> Z;
  resample : Z * Z -> Image rgb -> list rgb;
  thumbnail_tie : Z * Z -> Z * Z -> bool;
  convolve : ImageFilter -> Z * Z -> list Z -> list Z;
  stretch : Q -> list Z -> list Z;
  normal : F.float -> F.float -> Z * Z -> rng_state -> list F.float * rng_state;
  percentile : list F.float -> F.float -> F.float
}.

(** ** Pillow: [Image.thumbnail]

    The size computation of [Image.thumbnail] (Pillow 7.1 and later).
    Pillow computes the aspect ratio and the candidate quotients in
    [binary64]; they are exact rationals here.  The two agree on which
    candidate is nearer for every image Pillow accepts, except when the
    two candidates are equally near as rationals.  Then, if aspect ratio
    and quotients are [binary64] numbers with a short mantissa, the keys
    are computed without rounding and [min] keeps the first candidate;
    otherwise rounding decides, which [thumbnail_tie] stands for. *)

(** A dyadic rational whose numerator and denominator have at most 26
    bits: differences of two such numbers are exact in [binary64]. *)
Definition short_binary (q : Q) : bool :=
  let r := Qred q in
  (Z.abs (Qnum r) <? 2 ^ 26)
  && (Z.pos (Qden r) =? 2 ^ Z.log2 (Z.pos (Qden r)))
  && (Z.pos (Qden r) <=? 2 ^ 26).

(** [max(min(math.floor(number), math.ceil(number), key=key), 1)] *)
Definition round_aspect (number : Q) (key : Z -> Q) (exact : Z -> bool)
    (tie : bool) : Z :=
  let lo := Qfloor number in
  let hi := Qceiling number in
  Z.max (match (key lo ?= key hi)%Q with
         | Lt => lo
         | Gt => hi
         | Eq => if (exact lo && exact hi) || tie then lo else hi
         end) 1.

Definition preserve_aspect_ratio (tie : bool) (provided_size sz : Z * Z)
  : option (Z * Z) :=
  let '(x, y) := provided_size in
  let '(width, height) := sz in
  if (width <=? x) && (height <=? y) then None
  else
    let aspect := (inject_Z width / inject_Z height)%Q in
    if Qle_bool aspect (inject_Z x / inject_Z y) then
      Some (round_aspect (inject_Z y * aspect)
              (fun n => Qabs (aspect - inject_Z n / inject_Z y))%Q
              (fun n => short_binary aspect
                        && short_binary (inject_Z n / inject_Z y))
              tie,
            y)
    else
      Some (x,
            round_aspect (inject_Z x / aspect)
              (fun n => if n =? 0 then 0
                        else Qabs (aspect - inject_Z x / inject_Z n))%Q
              (fun n => (n =? 0)
                        || short_binary aspect
                           && short_binary (inject_Z x / inject_Z n))
              tie).

Definition thumbnail_size (tie : bool) (provided_size sz : Z * Z) : Z * Z :=
  match preserve_aspect_ratio tie provided_size sz with
  | None => sz
  | Some final_size => final_size
  end.

(** ** Pillow: rank filter

    [MaxFilter(size)] replicates the border by [size // 2] pixels and
    keeps the largest sample of each [size] x [size] window. *)

Definition getpixel (im : Image Z) (x y : Z) : Z :=
  let '(w, h) := size im in
  let cx := Z.max 0 (Z.min (w - 1) x) in
  let cy := Z.max 0 (Z.min (h - 1) y) in
  nth (Z.to_nat (cy * w + cx)) (data im) 0.

Definition window (k : Z) : list (Z * Z) :=
  dy ← seqZ (- k) (2 * k + 1);
  dx ← seqZ (- k) (2 * k + 1);
  [(dx, dy)].

Definition window_max (k : Z) (im : Image Z) (x y : Z) : Z :=
  fold_right Z.max 0
    (map (fun d : Z * Z => getpixel im (x + fst d) (y + snd d)) (window k)).

Definition rank_max (sz : Z) (im : Image Z) : Image Z :=
  let '(w, h) := size im in
  mk_image (w, h)
    (map (fun i => window_max (sz / 2) im (i mod w) (i / w)) (seqZ 0 (w * h))).

Section Pipeline.

Context `{Lib : Imaging}.

Local Open Scope string_scope.

(** *** Pillow wrappers *)

Definition thumbnail (im : Image rgb) (sz : Z * Z) : Image rgb :=
  match preserve_aspect_ratio (thumbnail_tie sz (size im)) sz (size im) with
  | None => im
  | Some final_size =>
      if decide (size im = final_size) then im
      else mk_image final_size (resample final_size im)
  end.

Definition Image_filter (im : Image Z) (flt : ImageFilter) : Image Z :=
  match flt with
  | MaxFilter sz => rank_max sz im
  | _ => mk_image (size im) (convolve flt (size im) (data im))
  end.

Definition convert_L (im : Image rgb) : Image Z :=
  mk_image (size im) (map luma (data im)).

Definition convert_RGB (im : Image Z) : Image rgb :=
  mk_image (size im) (map (fun v => (v, v, v)) (data im)).

Definition ImageOps_grayscale (im : Image rgb) : Image Z := convert_L im.

Definition ImageOps_autocontrast (im : Image Z) (cutoff : Q) : Image Z :=
  mk_image (size im) (stretch cutoff (data im)).

Definition ImageOps_invert (im : Image Z) : Image Z :=
  mk_image (size im) (map (fun v => 255 - v) (data im)).

(** *** NumPy wrappers *)

Definition asarray (im : Image Z) : ndarray F.float :=
  let '(w, h) := size im in Array (h, w) (map F.of_Z32 (data im)).

Definition fromarray (a : ndarray Z) : Image Z :=
  let '(rows, cols) := shape a in mk_image (cols, rows) (elems a).

Definition astype_uint8 (a : ndarray F.float) : ndarray Z :=
  Array (shape a) (map F.to_uint8 (elems a)).

Definition astype_float32 (a : ndarray F.float) : ndarray F.float :=
  Array (shape a) (map F.to32 (elems a)).

Definition arr_map (f : F.float -> F.float) (a : ndarray F.float) :=
  Array (shape a) (map f (elems a)).

(** Element-wise operation on two arrays of one shape. *)
Definition arr_map2 (f : F.float -> F.float -> F.float)
    (a b : ndarray F.float) : ndarray F.float :=
  Array (shape a) (zip_with f (elems a) (elems b)).

Definition np_clip (a : ndarray F.float) (lo hi : Z) : ndarray F.float :=
  arr_map (fun x => F.clip x (F.of_Z32 lo) (F.of_Z32 hi)) a.

Definition dict_get {V} (d : gmap string V) (k : string) (default : V) : V :=
  match d !! k with Some v => v | None => default end.

(** A Python scalar meeting a [float32] array is cast to [float32]. *)
Definition scalar (x : F.float) : F.float := F.to32 x.

(** *** The stages of [_pencil_sketch] *)

(** Lines 24-25: base grayscale with preserved midtones. *)
Definition tone_base (image : Image rgb) : Image Z :=
  let gray := ImageOps_grayscale image in
  let gray := ImageOps_autocontrast gray 1 in
  gray.

(** Line 32, one element:
    [np.clip(gray * 255.0 / (255.0 - blur + 1e-4), 0, 255)]. *)
Definition dodge_denominator (blur : F.float) : F.float :=
  F.add32 (F.sub32 (scalar (F.lit 255 1)) blur) (scalar (F.lit 1 10000)).

Definition dodge_px (gray blur : F.float) : F.float :=
  F.clip (F.div32 (F.mul32 gray (scalar (F.lit 255 1))) (dodge_denominator blur))
         (F.of_Z32 0) (F.of_Z32 255).

(** Lines 28-32: dodge blend. *)
Definition dodge_blend (gray : Image Z) : ndarray F.float :=
  let inverted := ImageOps_invert gray in
  let blurred := Image_filter inverted (GaussianBlur 22) in
  let gray_arr := asarray gray in
  let blur_arr := asarray blurred in
  let dodge := arr_map2 dodge_px gray_arr blur_arr in
  dodge.

(** Lines 35-36: gentle sharpening. *)
Definition sharpen (dodge : ndarray F.float) : Image Z :=
  let dodge_img := fromarray (astype_uint8 dodge) in
  let sharp := Image_filter dodge_img (UnsharpMask 2 180 2) in
  sharp.

(** Lines 39-42: the paper grain, drawn from the process-wide
    generator of [numpy.random]; the generator state is threaded. *)
Definition grain_texture (sz : Z * Z) (rng : rng_state) : Image Z * rng_state :=
  let '(w, h) := sz in
  let '(samples, rng) := normal (F.lit 128 1) (F.lit 18 1) (h, w) rng in
  let texture := astype_float32 (Array (h, w) samples) in
  let texture := fromarray (astype_uint8 (np_clip texture 0 255)) in
  let texture := Image_filter texture (GaussianBlur 1.4) in
  (texture, rng).

(** Lines 43-47: 85% sharpened image, 15% texture. *)
Definition blend_px (c1 c2 : F.float) (a b : F.float) : F.float :=
  F.add32 (F.mul32 (scalar c1) a) (F.mul32 (scalar c2) b).

Definition grain_blend (sharp texture : Image Z) : Image rgb :=
  let texture_arr := asarray texture in
  let sharp_arr := asarray sharp in
  let blended :=
    np_clip (arr_map2 (blend_px (F.lit 85 100) (F.lit 15 100)) sharp_arr texture_arr)
            0 255 in
  let base_sketch := convert_RGB (fromarray (astype_uint8 blended)) in
  base_sketch.

(** Lines 59-62: [mask = edges_arr >= threshold], then
    [lines = np.full_like(edges_arr, 255.0); lines[mask] = 60.0]. *)
Definition binarize (edges_arr : ndarray F.float) : ndarray F.float :=
  let threshold := percentile (elems edges_arr) (F.lit 92 1) in
  let mask := map (fun e => F.leb threshold e) (elems edges_arr) in
  let lines := arr_map (fun _ => scalar (F.lit 255 1)) edges_arr in
  Array (shape lines)
    (zip_with (fun (m : bool) l => if m then scalar (F.lit 60 1) else l)
       mask (elems lines)).

(** Lines 53-56: the edge map of the trace style. *)
Definition trace_edges (gray : Image Z) : ndarray F.float :=
  let base := Image_filter (Image_filter gray (MedianFilter 3)) (GaussianBlur 1.6) in
  let edges := Image_filter base FIND_EDGES in
  let edges := ImageOps_autocontrast edges 1 in
  let edges_arr := asarray edges in
  edges_arr.

(** Lines 64-65: the line image and the filter commented
    "thicken outlines slightly". *)
Definition trace_lines (edges_arr : ndarray F.float) : Image Z :=
  let lines := binarize edges_arr in
  let line_img := fromarray (astype_uint8 lines) in
  let line_img := Image_filter line_img (MaxFilter 3) in
  line_img.

(** Lines 51-67. *)
Definition style_trace (gray : Image Z) : Image rgb :=
  let sketch := convert_RGB (trace_lines (trace_edges gray)) in
  sketch.

(** Lines 68-76. *)
Definition style_artistic (gray luminance : Image Z) : Image rgb :=
  let strokes := Image_filter gray FIND_EDGES in
  let strokes := ImageOps_autocontrast strokes 2 in
  let strokes := Image_filter strokes (UnsharpMask 1.2 250 1) in
  let strokes_arr := asarray strokes in
  let lumi_arr := asarray luminance in
  let mixed :=
    np_clip (arr_map2 (blend_px (F.lit 65 100) (F.lit 35 100)) lumi_arr strokes_arr)
            0 255 in
  let sketch := fromarray (astype_uint8 mixed) in
  let sketch := convert_RGB (Image_filter sketch (UnsharpMask 1.5 160 2)) in
  sketch.

(** Lines 77-80. *)
Definition style_clean (luminance : Image Z) : Image rgb :=
  let clean := ImageOps_autocontrast luminance 0.5 in
  let clean := Image_filter clean (UnsharpMask 1.1 140 2) in
  let sketch := convert_RGB clean in
  sketch.

(** Line 83: the strength table and its lookup with a default. *)
Definition shade_table : gmap string F.float :=
  <["none" := F.lit 0 1]> (<["light" := F.lit 22 100]>
  (<["medium" := F.lit 38 100]> (<["deep" := F.lit 55 100]> ∅))).

Definition shade_strength_of (sketch_depth : string) : F.float :=
  dict_get shade_table sketch_depth (F.lit 38 100).

(** Line 89, one element:
    [np.clip((1 - 0.35 * s) * sketch + s * tone, 0, 255)]; the first
    coefficient is computed in [binary64] before it meets the array. *)
Definition shade_px (shade_strength : F.float) (sketch tone : F.float) : F.float :=
  F.clip
    (blend_px (F.sub64 (F.of_Z64 1) (F.mul64 (F.lit 35 100) shade_strength))
              shade_strength sketch tone)
    (F.of_Z32 0) (F.of_Z32 255).

(** Lines 85-92: the body of [if shade_strength > 0]. *)
Definition shade_with (shade_strength : F.float) (gray : Image Z)
    (sketch : Image rgb) : Image rgb :=
  let tone := Image_filter gray (GaussianBlur 3.2) in
  let tone := ImageOps_autocontrast tone 2 in
  let tone_arr := asarray tone in
  let sketch_arr := asarray (convert_L sketch) in
  let shaded := arr_map2 (shade_px shade_strength) sketch_arr tone_arr in
  let shaded_img := fromarray (astype_uint8 shaded) in
  let shaded_img := ImageOps_autocontrast shaded_img 1 in
  let sketch := convert_RGB shaded_img in
  sketch.

(** Lines 83-92: controlled sketch depth. *)
Definition depth_shade (gray : Image Z) (sketch : Image rgb)
    (sketch_depth : string) : Image rgb :=
  let shade_strength := shade_strength_of sketch_depth in
  if F.ltb (F.of_Z64 0) shade_strength
  then shade_with shade_strength gray sketch
  else sketch.

(** Lines 95-98: optional resizing. *)
Definition size_map : gmap string (option Z) :=
  <["orig" := None]> (<["lg" := Some 1600]> (<["md" := Some 1024]>
  (<["sm" := Some 720]> (<["xs" := Some 480]> ∅)))).

Definition truthy (target_max : option Z) : bool :=
  match target_max with
  | Some n => negb (n =? 0)%Z
  | None => false
  end.

Definition output_scale (sketch : Image rgb) (output_size : string) : Image rgb :=
  let target_max := dict_get size_map output_size None in
  match target_max with
  | Some n => if truthy target_max then thumbnail sketch (n, n) else sketch
  | None => sketch
  end.

(** Lines 51-80: the style branch; it yields the styled image and the
    value [sketch_depth] holds afterwards (line 67 overwrites it). *)
Definition style_dispatch (gray luminance : Image Z)
    (sketch_style sketch_depth : string) : Image rgb * string :=
  if String.eqb sketch_style "trace" then (style_trace gray, "none")
  else if String.eqb sketch_style "artistic"
       then (style_artistic gray luminance, sketch_depth)
       else (style_clean luminance, sketch_depth).

(** Lines 18-100.  The result is the returned image or the exception
    that escaped, with the state the generator is left in. *)
Definition _pencil_sketch (image_file : list Byte.byte)
    (sketch_style sketch_depth output_size : string) (rng : rng_state)
  : (exn + Image rgb) * rng_state :=
  match Image_open_RGB image_file with
  | inl e => (inl e, rng)
  | inr image =>
      let image := thumbnail image (1800, 1800) in
      let gray := tone_base image in
      let dodge := dodge_blend gray in
      let sharp := sharpen dodge in
      let '(texture, rng) := grain_texture (size sharp) rng in
      let base_sketch := grain_blend sharp texture in
      let luminance := convert_L base_sketch in
      let '(sketch, sketch_depth) :=
        style_dispatch gray luminance sketch_style sketch_depth in
      let sketch := depth_shade gray sketch sketch_depth in
      let sketch := output_scale sketch output_size in
      (inr sketch, rng)
  end.

End Pipeline.

(** ** Comparing two renders

    The mean absolute per-sample difference of two RGB images of one
    size. *)
Definition abs_diff (p q : rgb) : Z :=
  let '(r1, g1, b1) := p in
  let '(r2, g2, b2) := q in
  Z.abs (r1 - r2) + Z.abs (g1 - g2) + Z.abs (b1 - b2).

Definition mean_abs_diff (a b : Image rgb) : Q :=
  let total := fold_right Z.add 0 (zip_with abs_diff (data a) (data b)) in
  let count := 3 * Z.of_nat (length (data a)) in
  (inject_Z total / inject_Z count)%Q.

(** ** The specification's wording

    Sections 4.3 and 4.7 of the specification, stated on pixel lists,
    to be compared with the array code above. *)
Module Spec.

Inductive depth := none | light | medium | deep.

Definition depth_name (d : depth) : string :=
  match d with
  | none => "none" | light => "light" | medium => "medium" | deep => "deep"
  end.

(** [s ∈ {none:0.0, light:0.22, medium:0.38, deep:0.55}] *)
Definition strength (d : depth) : F.float :=
  match d with
  | none => F.lit 0 1
  | light => F.lit 22 100
  | medium => F.lit 38 100
  | deep => F.lit 55 100
  end.

(** none < light < medium < deep *)
Definition rank (d : depth) : Z :=
  match d with none => 0 | light => 1 | medium => 2 | deep => 3 end.

Definition epsilon : F.float := F.lit 1 10000.

Definition clamp (x : F.float) : F.float := F.clip x (F.of_Z32 0) (F.of_Z32 255).

Definition num (x : F.float) : F.float := F.to32 x.

(** [clamp(grayBase * 255 / (255 − blurred + ε), 0, 255)] *)
Definition dodge_formula (grayBase blurred : Z) : F.float :=
  clamp (F.div32 (F.mul32 (F.of_Z32 grayBase) (F.of_Z32 255))
                 (F.add32 (F.sub32 (F.of_Z32 255) (F.of_Z32 blurred)) (num epsilon))).

(** [clamp((1 − 0.35·s)·styled + s·tone, 0, 255)] *)
Definition shade_formula (s : F.float) (styled tone : Z) : F.float :=
  clamp (F.add32
           (F.mul32 (num (F.sub64 (F.of_Z64 1) (F.mul64 (F.lit 35 100) s)))
                    (F.of_Z32 styled))
           (F.mul32 (num s) (F.of_Z32 tone))).

Section Stages.

Context `{Lib : Imaging}.

(** Invert [grayBase], blur the inversion with radius 22, divide. *)
Definition dodge (grayBase : Image Z) : list F.float :=
  let inversion := map (fun v => 255 - v) (data grayBase) in
  let blurred := convolve (GaussianBlur 22) (size grayBase) inversion in
  zip_with dodge_formula (data grayBase) blurred.

(** No-op when [s == 0]; otherwise blur [grayBase] (radius 3.2),
    autocontrast it (2%), blend on the luminance of the styled image,
    autocontrast the result (1%), convert back to RGB. *)
Definition depth_shader (grayBase : Image Z) (styled : Image rgb) (d : depth)
  : Image rgb :=
  let s := strength d in
  if SFeqb s (F.of_Z64 0) then styled
  else
    let tone :=
      stretch 2 (convolve (GaussianBlur 3.2) (size grayBase) (data grayBase)) in
    let shaded := zip_with (shade_formula s) (map luma (data styled)) tone in
    mk_image (size styled)
      (map (fun v => (v, v, v)) (stretch 1 (map F.to_uint8 shaded))).

End Stages.

End Spec.

(** ** One-pixel images

    An instance of the interface for images of one pixel.  There every
    smoothing, sharpening, rank and edge filter of Pillow returns its
    input (the replicated border makes each window constant, and an
    image smaller than the 3x3 kernel is copied), a histogram with one
    entry is not stretched, the percentile of one sample is that sample,
    and no resampling takes place.  A file is the three samples of the
    pixel; the generator state is the list of samples it hands out
    next. *)
Module OnePixel.

Definition decode (f : list Byte.byte) : exn + Image rgb :=
  match f with
  | [r; g; b] =>
      inr (mk_image (1, 1)
             [(Z.of_N (Byte.to_N r), Z.of_N (Byte.to_N g), Z.of_N (Byte.to_N b))])
  | _ => inl UnidentifiedImageError
  end.

(** ITU-R 601-2 luma, as Pillow computes it on 8-bit samples. *)
Definition luma601 (p : rgb) : Z :=
  let '(r, g, b) := p in
  Z.shiftr (r * 19595 + g * 38470 + b * 7471 + 32768) 16.

Definition draw (n : Z) (rng : list F.float) : list F.float * list F.float :=
  (take (Z.to_nat n) rng, drop (Z.to_nat n) rng).

#[local] Instance lib : Imaging := {|
  rng_state := list F.float;
  Image_open_RGB := decode;
  Image_open_empty := eq_refl;
  luma := luma601;
  resample := fun _ im => data im;
  thumbnail_tie := fun _ _ => true;
  convolve := fun _ _ d => d;
  stretch := fun _ d => d;
  normal := fun _ _ sz rng => draw (fst sz * snd sz) rng;
  percentile := fun d _ => hd (S754_zero false) d
|}.

Definition white : list Byte.byte := [Byte.xff; Byte.xff; Byte.xff].
Definition black : list Byte.byte := [Byte.x00; Byte.x00; Byte.x00].

(** The generator is about to hand out 100, then 200. *)
Definition two_samples : list F.float := [F.of_Z64 100; F.of_Z64 200].

(** The generator is about to hand out 128. *)
Definition one_sample : list F.float := [F.of_Z64 128].

(** A one-pixel gray image of value [v], in mode L and in mode RGB. *)
Definition pxL (v : Z) : Image Z := mk_image (1, 1) [v].
Definition px (v : Z) : Image rgb := mk_image (1, 1) [(v, v, v)].

End OnePixel.

(** ** Names used in the statements about sizes *)

(** The exactness test of the landscape branch of [Image.thumbnail] at
    candidate height [n], for an image [w] x [h] and a box of side [N]. *)
Definition exactC (w h N n : Z) : bool :=
  (n =? 0) || short_binary (inject_Z w / inject_Z h)
              && short_binary (inject_Z N / inject_Z n).

(** The cap a size code asks for: the entry of [size_map], and the
    1800 of line 21 when the code maps to [None] or is not a key. *)
Definition size_cap (output_size : string) : Z :=
  match dict_get size_map output_size None with
  | Some n => n
  | None => 1800
  end.

(** ** Checks over all 8-bit samples *)

Definition all_samples (p : Z -> bool) : bool := forallb p (seqZ 0 256).

Definition denominator_ok (b : Z) : bool :=
  let d := dodge_denominator (F.of_Z32 b) in
  F.is_finite d && F.leb (F.to32 Spec.epsilon) d && F.ltb (F.of_Z32 0) d.

Definition numerator_ok (g : Z) : bool :=
  F.is_finite (F.mul32 (F.of_Z32 g) (scalar (F.lit 255 1))).

(** The sample the dodge stores where the blur of the inverted image is
    the inverted image itself (a flat area): 0 for black, else 254. *)
Definition flat_dodge (g : Z) : Z := if g =? 0 then 0 else 254.

Definition flat_ok (g : Z) : bool :=
  F.to_uint8 (dodge_px (F.of_Z32 g) (F.of_Z32 (255 - g))) =? flat_dodge g.

(** ** Text operations of the views

    The string operations views.py uses, on one-character separators:
    [s.split(sep)], [sep.join(parts)] and [s.rsplit(sep, 1)]. *)
Module Str.

(** [c in s] *)
Fixpoint contains (c : ascii) (s : string) : bool :=
  match s with
  | EmptyString => false
  | String a rest => Ascii.eqb a c || contains c rest
  end.

(** [s.split(sep)]: the pieces between the separators, at least one. *)
Fixpoint split (sep : ascii) (s : string) : list string :=
  match s with
  | EmptyString => [EmptyString]
  | String a rest =>
      if Ascii.eqb a sep then EmptyString :: split sep rest
      else match split sep rest with
           | part :: parts => String a part :: parts
           | [] => [String a EmptyString]
           end
  end.

(** [sep.join(parts)] *)
Fixpoint join (sep : ascii) (parts : list string) : string :=
  match parts with
  | [] => EmptyString
  | [part] => part
  | part :: rest => part ++ String sep (join sep rest)
  end.

(** [s.rsplit(sep, 1)]: one split at the last separator, if there is one. *)
Definition rsplit1 (sep : ascii) (s : string) : list string :=
  match split sep s with
  | [] | [_] => [s]
  | parts => [join sep (removelast parts); List.last parts EmptyString]
  end.

(** Truth value of a string in a condition. *)
Definition truthy (s : string) : bool := negb (String.eqb s "").

End Str.

(** ** models.py *)

(** A row of [SketchWork]; [created_at] is a point in time. *)
Record SketchWork := {
  user : Z;
  original_image : option string;
  sketch_image : string;
  created_at : Z
}.

(** Lines 16-17 and 20-21 of models.py; [user_id] and [timestamp] are
    the texts the f-string inserts for [instance.user_id] and
    [timezone.now().strftime('%Y%m%d%H%M%S')]. *)
Definition upload_path (user_id timestamp filename : string) : string :=
  ("user_uploads/" ++ user_id ++ "/" ++ timestamp ++ "_" ++ filename)%string.

Definition sketch_path (user_id timestamp filename : string) : string :=
  ("user_sketches/" ++ user_id ++ "/" ++ timestamp ++ "_" ++ filename)%string.

(** ** forms.py: the choices of [UploadForm] *)
Module Forms.

Definition sketch_style_choices : list (string * string) :=
  [("artistic", "Artistic pencil work"); ("clean", "Clean technical lines");
   ("trace", "Trace/outline")].

Definition sketch_depth_choices : list (string * string) :=
  [("none", "No depth"); ("light", "Light depth");
   ("medium", "Balanced depth"); ("deep", "Rich depth")].

Definition output_size_choices : list (string * string) :=
  [("orig", "Original dimensions"); ("lg", "Large (max 1600px)");
   ("md", "Medium (max 1024px)"); ("sm", "Small (max 720px)");
   ("xs", "Compact (max 480px)")].

(** [ChoiceField.valid_value]: the submitted text is the key of a choice. *)
Definition valid_value (choices : list (string * string)) (value : string) : bool :=
  existsb (fun choice => String.eqb value (fst choice)) choices.

End Forms.

(** ** What the views ask of Django and the standard library

    [strip] is [str.strip] (it leaves the empty text empty),
    [icontains] the lookup [sketch_image__icontains], [fromisoformat] is
    [datetime.fromisoformat] ([None] when it raises [ValueError]),
    [date] the calendar day [dt.date()] of what it parsed,
    [created_at__date] the day the lookup [created_at__date] compares,
    [order_by_created_at_desc] the row order the database returns for
    [order_by("-created_at")]: the same rows, newest first, rows of one
    instant in an order of its choosing.  [save_png] is
    [img.save(buffer, format="PNG", optimize=True)] followed by
    [buffer.getvalue()]. *)
Class Site := {
  strip : string -> string;
  strip_empty : strip "" = ""%string;
  icontains : string -> string -> bool;
  fromisoformat : string -> option Z;
  date : Z -> Z;
  created_at__date : Z -> Z;
  order_by_created_at_desc : list SketchWork -> list SketchWork;
  order_by_permutes :
    forall rows, Permutation (order_by_created_at_desc rows) rows;
  order_by_sorted :
    forall rows,
      StronglySorted (fun a b => created_at b <= created_at a)
        (order_by_created_at_desc rows);
  save_png : Image rgb -> list Byte.byte
}.

(** What escapes from [download_all]: a stored file that cannot be
    opened, or the decoder's exception. *)
Inductive failure := FileNotFoundError | ImageError (e : exn).

Section Views.

Context `{Lib : Imaging} `{Web : Site}.

Local Open Scope string_scope.

(** *** Querysets

    A queryset is a description: the conditions collected so far and
    whether an ordering was asked for.  Rows are fetched when the view
    iterates or slices it. *)
Record QuerySet := {
  conditions : list (SketchWork -> bool);
  ordered : bool
}.

Definition objects : QuerySet := {| conditions := []; ordered := false |}.

Definition qs_filter (condition : SketchWork -> bool) (qs : QuerySet) : QuerySet :=
  {| conditions := conditions qs ++ [condition]; ordered := ordered qs |}.

Definition qs_order_by (qs : QuerySet) : QuerySet :=
  {| conditions := conditions qs; ordered := true |}.

Definition fetch (table : list SketchWork) (qs : QuerySet) : list SketchWork :=
  let rows :=
    List.filter (fun work => forallb (fun c => c work) (conditions qs)) table in
  if ordered qs then order_by_created_at_desc rows else rows.

(** *** [dashboard], lines 157-177: the recent sketches *)
Definition dashboard_recent (table : list SketchWork) (request_user : Z)
    (GET : gmap string string) : list SketchWork :=
  let recent_qs :=
    qs_order_by (qs_filter (fun work => user work =? request_user)%Z objects) in
  let q := strip (dict_get GET "q" "") in
  let start_date := GET !! "start_date" in
  let end_date := GET !! "end_date" in
  let recent_qs :=
    if Str.truthy q
    then qs_filter (fun work => icontains (sketch_image work) q) recent_qs
    else recent_qs in
  let recent_qs :=
    match start_date with
    | Some text =>
        if Str.truthy text then
          match fromisoformat text with
          | Some dt =>
              qs_filter
                (fun work => date dt <=? created_at__date (created_at work))%Z
                recent_qs
          | None => recent_qs
          end
        else recent_qs
    | None => recent_qs
    end in
  let recent_qs :=
    match end_date with
    | Some text =>
        if Str.truthy text then
          match fromisoformat text with
          | Some dt =>
              qs_filter
                (fun work => created_at__date (created_at work) <=? date dt)%Z
                recent_qs
          | None => recent_qs
          end
        else recent_qs
    | None => recent_qs
    end in
  let recent := take 30 (fetch table recent_qs) in
  recent.

(** *** [download_all], lines 256-274: the rows to export *)
Definition download_rows (table : list SketchWork) (request_user : Z)
    (GET : gmap string string) : list SketchWork :=
  let recent_qs :=
    qs_order_by (qs_filter (fun work => user work =? request_user)%Z objects) in
  let q := strip (dict_get GET "q" "") in
  let start_date := GET !! "start_date" in
  let end_date := GET !! "end_date" in
  let recent_qs :=
    if Str.truthy q
    then qs_filter (fun work => icontains (sketch_image work) q) recent_qs
    else recent_qs in
  let recent_qs :=
    match start_date with
    | Some text =>
        if Str.truthy text then
          match fromisoformat text with
          | Some dt =>
              qs_filter
                (fun work => date dt <=? created_at__date (created_at work))%Z
                recent_qs
          | None => recent_qs
          end
        else recent_qs
    | None => recent_qs
    end in
  let recent_qs :=
    match end_date with
    | Some text =>
        if Str.truthy text then
          match fromisoformat text with
          | Some dt =>
              qs_filter
                (fun work => created_at__date (created_at work) <=? date dt)%Z
                recent_qs
          | None => recent_qs
          end
        else recent_qs
    | None => recent_qs
    end in
  fetch table recent_qs.

(** Lines 281-288: the size table of [download_all]. *)
Definition download_size_map : gmap string (option Z) :=
  <["orig" := None]> (<["lg" := Some 1600]> (<["md" := Some 1024]>
  (<["sm" := Some 720]> (<["xs" := Some 480]> ∅)))).

(** Lines 299-300: the name of a resized entry. *)
Definition sized_name (size_code filename : string) : string :=
  let name_parts := Str.rsplit1 "."%char filename in
  hd "" name_parts ++ "_" ++ size_code ++ ".png".

(** Lines 290-301; [size_code] and [target_max] are the variables of
    the enclosing function the closure reads. *)
Definition _resize_if_needed (size_code : string) (target_max : option Z)
    (image_file : list Byte.byte) (filename : string)
  : exn + string * list Byte.byte :=
  match target_max with
  | Some n =>
      if truthy target_max then
        match Image_open_RGB image_file with
        | inl e => inl e
        | inr img =>
            let img := thumbnail img (n, n) in
            inr (sized_name size_code filename, save_png img)
        end
      else inr (filename, image_file)
  | None => inr (filename, image_file)
  end.

(** Lines 303-308: the loop that fills the archive; an archive is the
    list of its entries in the order they were written, [files] the
    storage: the bytes kept under each stored name. *)
Fixpoint write_entries (files : gmap string (list Byte.byte))
    (size_code : string) (target_max : option Z) (rows : list SketchWork)
    (zf : list (string * list Byte.byte))
  : failure + list (string * list Byte.byte) :=
  match rows with
  | [] => inr zf
  | work :: rest =>
      let filename := List.last (Str.split "/"%char (sketch_image work)) "" in
      match files !! sketch_image work with
      | None => inl FileNotFoundError
      | Some fh =>
          match _resize_if_needed size_code target_max fh filename with
          | inl e => inl (ImageError e)
          | inr (out_name, out_bytes) =>
              write_entries files size_code target_max rest
                (zf ++ [(out_name, out_bytes)])
          end
      end
  end.

(** Lines 254-311: the entries of the archive [download_all] sends. *)
Definition download_all (table : list SketchWork)
    (files : gmap string (list Byte.byte)) (request_user : Z)
    (GET : gmap string string)
  : failure + list (string * list Byte.byte) :=
  let recent_qs := download_rows table request_user GET in
  let size_code := dict_get GET "size" "orig" in
  let target_max := dict_get download_size_map size_code None in
  write_entries files size_code target_max recent_qs [].

End Views.

(** *** [section], lines 192-250 *)
Record section_data := {
  title : string;
  lead : string;
  items : list string
}.

Definition sections : gmap string section_data :=
  <["create" :=
      {| title := "Create";
         lead := "Bring images in, jumpstart sketches, or explore ready-made templates.";
         items := ["Import Artwork / Capture Photo";
                   "Procedural Sketch Generator"; "Template Gallery"] |}]>
  (<["editor" :=
      {| title := "Editor";
         lead := "Full-featured canvas with layers, brushes, masks, and precise transforms.";
         items := ["Canvas Workspace"; "Layers"; "Brushes & Tools";
                   "Masks & Local Editing"; "Transform Tools"] |}]>
  (<["ai-enhancement" :=
      {| title := "AI Enhancement";
         lead := "Enhance, stylize, refine, and upscale your sketches with AI tooling.";
         items := ["Enhance Artwork (Image-to-Image)";
                   "Shading & Detail Refinement"; "AI Illusion Generation";
                   "Style Transfer"; "Super-Resolution Upscaling";
                   "Colorization"] |}]>
  (<["projects" :=
      {| title := "Projects";
         lead := "Stay organized with versions, autosaves, and shared collaborations.";
         items := ["My Projects"; "Version History"; "Autosaved Drafts";
                   "Shared Collaborations"] |}]>
  (<["community" :=
      {| title := "Gallery";
         lead := "Share illusions and AR-ready pieces—upload progress or finished work as photos or videos.";
         items := ["Progress work (photo or video uploads)";
                   "Finished work (photo or video uploads)";
                   "Illusion showcase";
                   "Augmented Reality (AR) experiences"] |}]>
  (<["account" :=
      {| title := "Account";
         lead := "Manage your profile, presets, preferences, billing, and sessions.";
         items := ["My Profile"; "Saved Styles / Presets"; "Settings";
                   "Billing / Credits"; "Sign Out"] |}]> ∅))))).

(** The section handed to the template: the entry of the slug (each of
    the six is a dict with keys, hence true in the condition of line
    248), or the fallback of lines 248-249 when [get] returns [None]. *)
Definition section (slug : string) : section_data :=
  let section_data := sections !! slug in
  match section_data with
  | Some found => found
  | None =>
      {| title := "Hybrid Artistic Engine";
         lead := "Discover what you can create.";
         items := [] |}
  end.

(** ** Names used in the statements about the views *)

(** The size codes for which [download_all] resizes. *)
Definition resizing_codes : list string := ["lg"; "md"; "sm"; "xs"]%string.

(** The slugs [section] knows. *)
Definition section_slugs : list string :=
  ["create"; "editor"; "ai-enhancement"; "projects"; "community"; "account"]%string.

(** A pixel with three equal channels. *)
Definition is_gray (p : rgb) : Prop := let '(r, g, b) := p in r = g /\ g = b.

(** ** A plain site

    An instance of [Site] for concrete runs: nothing is stripped, every
    name matches, a text of decimal digits is read as the day of that
    number and no other text is a date, the day of an instant is the
    instant, rows are merge-sorted, the PNG of an image is empty. *)
Module Plain.

Fixpoint decimal (s : string) (acc : Z) : option Z :=
  match s with
  | EmptyString => Some acc
  | String a rest =>
      let n := Z.of_nat (nat_of_ascii a) - 48 in
      if (0 <=? n) && (n <=? 9) then decimal rest (10 * acc + n) else None
  end.

Definition newest_first (a b : SketchWork) : Prop := created_at b <= created_at a.

#[local] Instance newest_first_dec a b : Decision (newest_first a b) :=
  Z_le_dec (created_at b) (created_at a).

#[local] Instance newest_first_trans : Transitive newest_first :=
  fun a b c Hab Hbc => Z.le_trans _ _ _ Hbc Hab.

#[local] Instance newest_first_total : Total newest_first :=
  fun a b => Z.le_ge_cases (created_at b) (created_at a).

#[local] Instance site : Site := {|
  strip := fun s => s;
  strip_empty := eq_refl;
  icontains := fun _ _ => true;
  fromisoformat := fun s => decimal s 0;
  date := fun t => t;
  created_at__date := fun t => t;
  order_by_created_at_desc := merge_sort newest_first;
  order_by_permutes := merge_sort_Permutation newest_first;
  order_by_sorted := StronglySorted_merge_sort newest_first;
  save_png := fun _ => []
|}.

Definition row (owner : Z) (name : string) (instant : Z) : SketchWork :=
  {| user := owner; original_image := None; sketch_image := name;
     created_at := instant |}.

(** Thirty-one sketches of user 1, made at instants 0 to 30, and one
    of user 2. *)
Definition table : list SketchWork :=
  map (fun i => row 1 "user_sketches/1/20240101120000_sketch_ab.png" i) (seqZ 0 31)
  ++ [row 2 "user_sketches/2/20240101120000_sketch_cd.png" 40].

(** A storage with the one-pixel file of each of the two names. *)
Definition storage : gmap string (list Byte.byte) :=
  <["user_sketches/1/20240101120000_sketch_ab.png"%string := OnePixel.white]>
  (<["user_sketches/2/20240101120000_sketch_cd.png"%string := OnePixel.white]> ∅).

End Plain.

(** ** The pipeline with NumPy's shape checks

    An element-wise operation on two arrays raises [ValueError] when
    their shapes cannot be broadcast to one shape.  [_pencil_sketch] has
    four such operations, on lines 32, 46, 74 and 89.  The stages above
    compute them on arrays of one shape; here each of them checks the
    two shapes first, as NumPy does, and what it raises travels to the
    result of the call.  Pillow's own operations are total on the modes
    the pipeline hands them. *)
Module Checked.

(** One dimension of two shapes: equal, or one of them is 1. *)
Definition broadcast_dim (a b : Z) : option Z :=
  if a =? b then Some a
  else if a =? 1 then Some b
  else if b =? 1 then Some a
  else None.

Definition broadcast_shapes (s1 s2 : Z * Z) : option (Z * Z) :=
  match broadcast_dim (fst s1) (fst s2), broadcast_dim (snd s1) (snd s2) with
  | Some rows, Some cols => Some (rows, cols)
  | _, _ => None
  end.

(** The element of [a] that position [(i, j)] of the broadcast result
    reads: a dimension of length 1 is repeated. *)
Definition item (a : ndarray F.float) (i j : Z) : F.float :=
  let '(rows, cols) := shape a in
  nth (Z.to_nat ((if rows =? 1 then 0 else i) * cols
                 + (if cols =? 1 then 0 else j)))
      (elems a) (S754_zero false).

(** An element-wise operation on two arrays. *)
Definition binary (f : F.float -> F.float -> F.float) (a b : ndarray F.float)
  : exn + ndarray F.float :=
  match broadcast_shapes (shape a) (shape b) with
  | None => inl ValueError
  | Some (rows, cols) =>
      if decide (shape a = shape b) then inr (arr_map2 f a b)
      else
        inr (Array (rows, cols)
               (map (fun k => f (item a (k / cols) (k mod cols))
                                (item b (k / cols) (k mod cols)))
                    (seqZ 0 (rows * cols))))
  end.

Section Raising.

Context `{Lib : Imaging}.

(** Lines 28-32. *)
Definition dodge_blend (gray : Image Z) : exn + ndarray F.float :=
  let inverted := ImageOps_invert gray in
  let blurred := Image_filter inverted (GaussianBlur 22) in
  let gray_arr := asarray gray in
  let blur_arr := asarray blurred in
  binary dodge_px gray_arr blur_arr.

(** Lines 43-47. *)
Definition grain_blend (sharp texture : Image Z) : exn + Image rgb :=
  let texture_arr := asarray texture in
  let sharp_arr := asarray sharp in
  match binary (blend_px (F.lit 85 100) (F.lit 15 100)) sharp_arr texture_arr with
  | inl e => inl e
  | inr sum =>
      let blended := np_clip sum 0 255 in
      inr (convert_RGB (fromarray (astype_uint8 blended)))
  end.

(** Lines 68-76. *)
Definition style_artistic (gray luminance : Image Z) : exn + Image rgb :=
  let strokes := Image_filter gray FIND_EDGES in
  let strokes := ImageOps_autocontrast strokes 2 in
  let strokes := Image_filter strokes (UnsharpMask 1.2 250 1) in
  let strokes_arr := asarray strokes in
  let lumi_arr := asarray luminance in
  match binary (blend_px (F.lit 65 100) (F.lit 35 100)) lumi_arr strokes_arr with
  | inl e => inl e
  | inr sum =>
      let mixed := np_clip sum 0 255 in
      let sketch := fromarray (astype_uint8 mixed) in
      inr (convert_RGB (Image_filter sketch (UnsharpMask 1.5 160 2)))
  end.

(** Lines 51-80. *)
Definition style_dispatch (gray luminance : Image Z)
    (sketch_style sketch_depth : string) : exn + Image rgb * string :=
  if String.eqb sketch_style "trace" then inr (style_trace gray, "none")
  else if String.eqb sketch_style "artistic"
       then match style_artistic gray luminance with
            | inl e => inl e
            | inr sketch => inr (sketch, sketch_depth)
            end
       else inr (style_clean luminance, sketch_depth).

(** Lines 85-92. *)
Definition shade_with (shade_strength : F.float) (gray : Image Z)
    (sketch : Image rgb) : exn + Image rgb :=
  let tone := Image_filter gray (GaussianBlur 3.2) in
  let tone := ImageOps_autocontrast tone 2 in
  let tone_arr := asarray tone in
  let sketch_arr := asarray (convert_L sketch) in
  match binary (shade_px shade_strength) sketch_arr tone_arr with
  | inl e => inl e
  | inr shaded =>
      let shaded_img := fromarray (astype_uint8 shaded) in
      let shaded_img := ImageOps_autocontrast shaded_img 1 in
      inr (convert_RGB shaded_img)
  end.

(** Lines 83-92. *)
Definition depth_shade (gray : Image Z) (sketch : Image rgb)
    (sketch_depth : string) : exn + Image rgb :=
  let shade_strength := shade_strength_of sketch_depth in
  if F.ltb (F.of_Z64 0) shade_strength
  then shade_with shade_strength gray sketch
  else inr sketch.

(** Lines 18-100. *)
Definition _pencil_sketch (image_file : list Byte.byte)
    (sketch_style sketch_depth output_size : string) (rng : rng_state)
  : (exn + Image rgb) * rng_state :=
  match Image_open_RGB image_file with
  | inl e => (inl e, rng)
  | inr image =>
      let image := thumbnail image (1800, 1800) in
      let gray := tone_base image in
      match dodge_blend gray with
      | inl e => (inl e, rng)
      | inr dodge =>
          let sharp := sharpen dodge in
          let '(texture, rng) := grain_texture (size sharp) rng in
          match grain_blend sharp texture with
          | inl e => (inl e, rng)
          | inr base_sketch =>
              let luminance := convert_L base_sketch in
              match style_dispatch gray luminance sketch_style sketch_depth with
              | inl e => (inl e, rng)
              | inr (sketch, sketch_depth) =>
                  match depth_shade gray sketch sketch_depth with
                  | inl e => (inl e, rng)
                  | inr sketch =>
                      let sketch := output_scale sketch output_size in
                      (inr sketch, rng)
                  end
              end
          end
      end
  end.

End Raising.

End Checked.

(** ** Flat images

    An instance of the interface for images of one colour and any size.
    A file is a header of four bytes (width and height, big-endian)
    followed by the three samples of the colour; [encode] writes such a
    file.  On a flat image the smoothing, sharpening and median filters
    of Pillow return their input, a histogram with one entry is not
    stretched, and resampling to a size gives the flat image of that
    size.  The generator hands out its next sample at every pixel of a
    draw, so that the grain is flat too.  The edge kernel is not
    modelled (its border copy makes a flat image non-flat); the runs on
    this instance use the style "clean", which does not call it. *)
Module Flat.

Definition flat (w h : Z) (p : rgb) : Image rgb :=
  mk_image (w, h) (repeat p (Z.to_nat (w * h))).

Definition sample (b : Byte.byte) : Z := Z.of_N (Byte.to_N b).

Definition octet (v : Z) : Byte.byte :=
  match Byte.of_N (Z.to_N (v mod 256)) with
  | Some b => b
  | None => Byte.x00
  end.

Definition decode (f : list Byte.byte) : exn + Image rgb :=
  match f with
  | [w1; w0; h1; h0; r; g; b] =>
      let w := 256 * sample w1 + sample w0 in
      let h := 256 * sample h1 + sample h0 in
      if (0 <? w) && (0 <? h)
      then inr (flat w h (sample r, sample g, sample b))
      else inl UnidentifiedImageError
  | _ => inl UnidentifiedImageError
  end.

Definition encode (im : Image rgb) : list Byte.byte :=
  let '(w, h) := size im in
  let '(r, g, b) := hd (0, 0, 0) (data im) in
  [octet (w / 256); octet w; octet (h / 256); octet h; octet r; octet g; octet b].

#[local] Instance lib : Imaging := {|
  rng_state := list F.float;
  Image_open_RGB := decode;
  Image_open_empty := eq_refl;
  luma := OnePixel.luma601;
  resample := fun sz im =>
    repeat (hd (0, 0, 0) (data im)) (Z.to_nat (fst sz * snd sz));
  thumbnail_tie := fun _ _ => true;
  convolve := fun _ _ d => d;
  stretch := fun _ d => d;
  normal := fun _ _ sz rng =>
    (repeat (hd (F.of_Z64 128) rng) (Z.to_nat (fst sz * snd sz)), tl rng);
  percentile := fun d _ => hd (S754_zero false) d
|}.

(** The plain site, saving an image as the file [encode] writes. *)
#[local] Instance site : Site := {|
  strip := @strip Plain.site;
  strip_empty := @strip_empty Plain.site;
  icontains := @icontains Plain.site;
  fromisoformat := @fromisoformat Plain.site;
  date := @date Plain.site;
  created_at__date := @created_at__date Plain.site;
  order_by_created_at_desc := @order_by_created_at_desc Plain.site;
  order_by_permutes := @order_by_permutes Plain.site;
  order_by_sorted := @order_by_sorted Plain.site;
  save_png := encode
|}.

Definition white : rgb := (255, 255, 255).

(** A white image of 2000 x 1000 pixels. *)
Definition wide : list Byte.byte :=
  [Byte.x07; Byte.xd0; Byte.x03; Byte.xe8; Byte.xff; Byte.xff; Byte.xff].

(** A white image of 800 x 2 pixels. *)
Definition ribbon : list Byte.byte :=
  [Byte.x03; Byte.x20; Byte.x00; Byte.x02; Byte.xff; Byte.xff; Byte.xff].

(** The file of the flat image of 480 x 1 pixels of gray level 235. *)
Definition stored_ribbon : list Byte.byte :=
  [Byte.x01; Byte.xe0; Byte.x00; Byte.x01; Byte.xeb; Byte.xeb; Byte.xeb].

End Flat.

(** ** The depth stage on 8-bit samples *)

(** Line 89 computes, for each pixel, [(1 − 0.35·s)·p + s·t] in float32
    arithmetic from the styled sample [p] and the tone sample [t], clips
    it and stores its integer part (line 90).  The definitions below
    name the pieces of that computation for one pair of 8-bit samples,
    so that the renders of one image at two depths can be compared. *)

(** A positive float with exponent at least −32, as an integer number
    of units 2^-32. *)
Definition scaled (x : F.float) : Z :=
  match x with
  | S754_finite false m e => Z.pos m * 2 ^ (e + 32)
  | _ => 0
  end.

(** A positive float32 with a full 24-bit mantissa and a value in
    [2^-9, 2^8). *)
Definition canonical32 (x : F.float) : bool :=
  match x with
  | S754_finite false m e =>
      (2 ^ 23 <=? Z.pos m) && (Z.pos m <? 2 ^ 24) && (-32 <=? e) && (e <=? -16)
  | _ => false
  end.

(** The two products of line 89, as [shade_px] computes them. *)
Definition styled_term (d : Spec.depth) (p : Z) : F.float :=
  F.mul32
    (scalar (F.sub64 (F.of_Z64 1) (F.mul64 (F.lit 35 100) (Spec.strength d))))
    (F.of_Z32 p).

Definition tone_term (d : Spec.depth) (t : Z) : F.float :=
  F.mul32 (scalar (Spec.strength d)) (F.of_Z32 t).

(** The sample the depth stage leaves for the styled sample [p] and the
    tone sample [t], before the final autocontrast of line 91: at depth
    "none" the branch of line 84 is skipped and the sample stays. *)
Definition stored (d : Spec.depth) (p t : Z) : Z :=
  match d with
  | Spec.none => p
  | _ => F.to_uint8 (shade_px (Spec.strength d) (F.of_Z32 p) (F.of_Z32 t))
  end.

Definition styled_part (d : Spec.depth) (p : Z) : Z :=
  match d with
  | Spec.none => p * 2 ^ 32
  | _ => scaled (styled_term d p)
  end.

Definition tone_part (d : Spec.depth) (t : Z) : Z :=
  match d with
  | Spec.none => 0
  | _ => scaled (tone_term d t)
  end.

Definition is_zero (x : F.float) : bool :=
  match x with S754_zero false => true | _ => false end.

(** Both products are +0 at sample 0 and canonical at every other
    sample. *)
Definition terms_ok (d : Spec.depth) (k : Z) : bool :=
  if k =? 0 then is_zero (styled_term d 0) && is_zero (tone_term d 0)
  else canonical32 (styled_term d k) && canonical32 (tone_term d k).

(** A function of an 8-bit sample, tabulated. *)
Definition sample_table (f : Z -> Z) : list Z := map f (seqZ 0 256).

Definition look (tab : list Z) (k : Z) : Z := nth (Z.to_nat k) tab 0.

(** From one depth to a deeper one the tone term gains and the styled
    term loses. *)
Definition tone_gain (d1 d2 : Spec.depth) (t : Z) : Z :=
  tone_part d2 t - tone_part d1 t.

Definition styled_loss (d1 d2 : Spec.depth) (p : Z) : Z :=
  styled_part d1 p - styled_part d2 p.

(** The tone samples next to the line [20·t = 7·p], where gain and loss
    balance in exact arithmetic, and those at least 126/20 away from
    it. *)
Definition least_up (p : Z) : Z := 7 * p / 20 + 1.
Definition most_down (p : Z) : Z := (7 * p - 1) / 20.
Definition least_far_up (p : Z) : Z := (7 * p + 145) / 20.
Definition most_far_down (p : Z) : Z := (7 * p - 126) / 20.

Definition rise_ok (gain : list Z) (k : Z) : bool :=
  (255 <=? k) || (look gain k <=? look gain (k + 1)).

Definition up_ok (margin : Z) (gain loss : list Z) (least : Z -> Z) (p : Z) : bool :=
  (255 <? least p) || (margin <=? look gain (least p) - look loss p).

Definition down_ok (margin : Z) (gain loss : list Z) (most : Z -> Z) (p : Z) : bool :=
  (most p <? 0) || (margin <=? look loss p - look gain (most p)).

(** The gain rises with the tone sample, and at the four tone samples
    above it beats, or is beaten by, the loss of every styled sample by
    more than the rounding of the float32 sum. *)
Definition pair_ok (d1 d2 : Spec.depth) : bool :=
  let gain := sample_table (tone_gain d1 d2) in
  let loss := sample_table (styled_loss d1 d2) in
  all_samples (fun k =>
    rise_ok gain k
    && up_ok (2 ^ 18) gain loss least_up k
    && down_ok (2 ^ 18) gain loss most_down k
    && up_ok (2 ^ 32 + 2 ^ 18) gain loss least_far_up k
    && down_ok (2 ^ 32 + 2 ^ 18) gain loss most_far_down k).

(** The depth that follows in none < light < medium < deep. *)
Definition deeper (d : Spec.depth) : Spec.depth :=
  match d with
  | Spec.none => Spec.light
  | Spec.light => Spec.medium
  | _ => Spec.deep
  end.

(** A gray 8-bit pixel of the styled image and an 8-bit tone sample off
    the line [20·t = 7·p]. *)
Definition shadeable (px : rgb) (t : Z) : Prop :=
  let '(r, g, b) := px in
  r = g /\ g = b /\ 0 <= r <= 255 /\ 0 <= t <= 255 /\ 20 * t <> 7 * r.

(** A pixel whose tone is far enough from that line for one more depth
    to change the stored integer, and which depth [d] has not yet pushed
    to 255. *)
Definition moved (d : Spec.depth) (px : rgb) (t : Z) : Prop :=
  let '(r, _, _) := px in
  126 <= Z.abs (20 * t - 7 * r) /\ stored d r t < 255.

(** The samples the depth stage stores for the luminance samples [lum]
    and the tone samples [tone]. *)
Definition shaded (d : Spec.depth) (lum tone : list Z) : list Z :=
  zip_with (stored d) lum tone.

Definition gray_px (v : Z) : rgb := (v, v, v).

(** The numerator of [mean_abs_diff]. *)
Definition total_diff (a b : list rgb) : Z :=
  fold_right Z.add 0 (zip_with abs_diff a b).

(** ** Checks on concrete inputs *)

Example thumbnail_2000x1000_to_720 :
  thumbnail_size true (720, 720) (thumbnail_size true (1800, 1800) (2000, 1000))
  = (720, 360).
Proof. reflexivity. Qed.

Example thumbnail_exact_tie_keeps_first :
  thumbnail_size false (1600, 1600) (1800, 5) = (1600, 4).
Proof. reflexivity. Qed.

Example thumbnail_rounding_tie :
  thumbnail_size true (480, 480) (492, 21) = (480, 20)
  /\ thumbnail_size false (480, 480) (492, 21) = (480, 21).
Proof. split; reflexivity. Qed.

Example thumbnail_thin_image :
  thumbnail_size true (1800, 1800) (100000, 1) = (1800, 1).
Proof. reflexivity. Qed.

Example thumbnail_small_unchanged :
  thumbnail_size true (1800, 1800) (640, 480) = (640, 480).
Proof. reflexivity. Qed.

Example blend_white_with_mid_grain :
  F.to_uint8 (blend_px (F.lit 85 100) (F.lit 15 100) (F.of_Z32 254) (F.of_Z32 128)) = 235.
Proof. vm_compute. reflexivity. Qed.

(** ** Dictionaries *)

Local Open Scope string_scope.
Local Open Scope Z_scope.

Lemma shade_strength_named (d : Spec.depth) :
  shade_strength_of (Spec.depth_name d) = Spec.strength d.
Proof. destruct d; reflexivity. Qed.

Lemma shade_strength_default (sketch_depth : string) :
  sketch_depth <> "none" -> sketch_depth <> "light" ->
  sketch_depth <> "medium" -> sketch_depth <> "deep" ->
  shade_strength_of sketch_depth = F.lit 38 100.
Proof.
  intros Hn Hl Hm Hd. unfold shade_strength_of, dict_get, shade_table.
  rewrite !lookup_insert_ne by congruence.
  now rewrite lookup_empty.
Qed.

Lemma eqb_trace_false (s : string) : s <> "trace" -> String.eqb s "trace" = false.
Proof. intros Hs. now apply String.eqb_neq. Qed.

Lemma eqb_artistic_false (s : string) :
  s <> "artistic" -> String.eqb s "artistic" = false.
Proof. intros Hs. now apply String.eqb_neq. Qed.

Section Dispatch.

Context `{Lib : Imaging}.

Lemma depth_shade_none (gray : Image Z) (sketch : Image rgb) :
  depth_shade gray sketch "none" = sketch.
Proof. reflexivity. Qed.

Lemma depth_shade_default (gray : Image Z) (sketch : Image rgb) (d : string) :
  d <> "none" -> d <> "light" -> d <> "medium" -> d <> "deep" ->
  depth_shade gray sketch d = depth_shade gray sketch "medium".
Proof.
  intros Hn Hl Hm Hd. unfold depth_shade.
  rewrite (shade_strength_default d Hn Hl Hm Hd).
  reflexivity.
Qed.

Lemma trace_sketch (image_file : list Byte.byte)
    (sketch_depth output_size : string) (rng : rng_state) :
  fst (_pencil_sketch image_file "trace" sketch_depth output_size rng)
  = match Image_open_RGB image_file with
    | inl e => inl e
    | inr image =>
        inr (output_scale
               (style_trace (tone_base (thumbnail image (1800, 1800))))
               output_size)
    end.
Proof.
  unfold _pencil_sketch.
  destruct (Image_open_RGB image_file) as [e | image]; [reflexivity |].
  destruct (grain_texture _ rng) as [texture rng'].
  unfold style_dispatch. cbn [String.eqb Ascii.eqb Bool.eqb fst].
  now rewrite depth_shade_none.
Qed.

(** C3: with style "trace" the requested depth is overwritten by
    "none" before the strength lookup, so the strength is 0.0, the depth
    stage returns its input, and the rendered image is the same for any
    two requested depths (whatever the generator states of the two
    calls: the grain does not reach the trace output). *)
Theorem trace_ignores_depth (image_file : list Byte.byte)
    (depth1 depth2 output_size : string) (rng1 rng2 : rng_state) :
  fst (_pencil_sketch image_file "trace" depth1 output_size rng1)
  = fst (_pencil_sketch image_file "trace" depth2 output_size rng2)
  /\ _pencil_sketch image_file "trace" depth1 output_size rng1
     = _pencil_sketch image_file "trace" depth2 output_size rng1
  /\ (forall gray luminance,
        snd (style_dispatch gray luminance "trace" depth1) = "none")
  /\ shade_strength_of "none" = F.of_Z64 0
  /\ (forall gray sketch, depth_shade gray sketch "none" = sketch).
Proof.
  split; [now rewrite !trace_sketch |].
  repeat split; reflexivity.
Qed.

(** C10: the style dispatch has two tests and an [else]; every style
    other than "trace" and "artistic" takes the branch that "clean"
    takes and yields the same result. *)
Theorem unknown_style_renders_clean (image_file : list Byte.byte)
    (sketch_style sketch_depth output_size : string) (rng : rng_state) :
  sketch_style <> "trace" -> sketch_style <> "artistic" ->
  _pencil_sketch image_file sketch_style sketch_depth output_size rng
  = _pencil_sketch image_file "clean" sketch_depth output_size rng.
Proof.
  intros Ht Ha. unfold _pencil_sketch, style_dispatch.
  rewrite (eqb_trace_false _ Ht), (eqb_artistic_false _ Ha).
  reflexivity.
Qed.

End Dispatch.

(** ** Sizes through the stages *)

Section Sizes.

Context `{Lib : Imaging}.

Lemma size_Image_filter (im : Image Z) (flt : ImageFilter) :
  size (Image_filter im flt) = size im.
Proof.
  destruct flt; try reflexivity.
  cbn [Image_filter]. unfold rank_max. destruct (size im) as [w h]. reflexivity.
Qed.

Lemma size_sharpen_dodge (gray : Image Z) :
  size (sharpen (dodge_blend gray)) = size gray.
Proof.
  unfold sharpen, dodge_blend. rewrite size_Image_filter.
  unfold fromarray, astype_uint8, arr_map2, asarray. cbn [shape].
  destruct (size gray) as [w h]. reflexivity.
Qed.

End Sizes.

(** ** The depth shader *)

Section Depth.

Context `{Lib : Imaging}.

Lemma shade_with_spec (s : F.float) (gray : Image Z) (sketch : Image rgb) :
  shade_with s gray sketch
  = mk_image (size sketch)
      (map (fun v => (v, v, v))
         (stretch 1
            (map F.to_uint8
               (zip_with (Spec.shade_formula s) (map luma (data sketch))
                  (stretch 2
                     (convolve (GaussianBlur 3.2) (size gray) (data gray))))))).
Proof.
  destruct sketch as [[w h] d]. destruct gray as [[gw gh] gd].
  unfold shade_with, convert_RGB, ImageOps_autocontrast, fromarray,
    astype_uint8, arr_map2, asarray, convert_L, Image_filter.
  cbn [size data shape elems].
  rewrite zip_with_fmap_l, zip_with_fmap_r.
  reflexivity.
Qed.

(** C6: on each of the four selectors the strength is the one of the
    table; with strength 0 the styled image is returned as it is;
    otherwise every luminance sample of the styled image becomes
    [clamp((1 − 0.35·s)·styled + s·tone, 0, 255)] (stored as 8 bits), with
    [tone] the radius-3.2 blur of the base grayscale stretched at 2%,
    and the blend is stretched at 1% and replicated to RGB. *)
Theorem depth_shade_refines_spec (gray : Image Z) (sketch : Image rgb)
    (d : Spec.depth) :
  shade_strength_of (Spec.depth_name d) = Spec.strength d
  /\ depth_shade gray sketch (Spec.depth_name d) = Spec.depth_shader gray sketch d
  /\ depth_shade gray sketch "none" = sketch.
Proof.
  split; [apply shade_strength_named | split; [| reflexivity]].
  unfold depth_shade. rewrite shade_strength_named.
  destruct d; [reflexivity | | |]; rewrite shade_with_spec; reflexivity.
Qed.

End Depth.

(** ** IEEE-754 facts used by the dodge stage *)

Lemma shr_1_nonneg mrs : 0 <= shr_m mrs -> 0 <= shr_m (shr_1 mrs).
Proof.
  destruct mrs as [m r s]. cbn [shr_m].
  destruct m as [| p | p]; [| destruct p | lia]; cbn; lia.
Qed.

Lemma iter_shr_1_nonneg p : forall mrs,
  0 <= shr_m mrs -> 0 <= shr_m (SpecFloat.iter_pos shr_1 p mrs).
Proof.
  induction p as [p IH | p IH |]; intros mrs Hm; cbn [SpecFloat.iter_pos].
  - apply IH, IH, shr_1_nonneg, Hm.
  - apply IH, IH, Hm.
  - apply shr_1_nonneg, Hm.
Qed.

Lemma shr_fexp_nonneg prec emax m e l :
  0 <= m -> 0 <= shr_m (fst (shr_fexp prec emax m e l)).
Proof.
  intros Hm. unfold shr_fexp, shr.
  assert (H0 : 0 <= shr_m (shr_record_of_loc m l)).
  { destruct l as [| []]; exact Hm. }
  destruct (fexp prec emax (Zdigits2 m + e) - e); cbn [fst];
    [exact H0 | now apply iter_shr_1_nonneg | exact H0].
Qed.

Lemma round_nearest_even_nonneg m l : 0 <= m -> 0 <= round_nearest_even m l.
Proof.
  intros Hm. destruct l as [| []]; cbn [round_nearest_even]; try lia.
  destruct (Z.even m); lia.
Qed.

(** Rounding a non-negative mantissa never produces a NaN. *)
Lemma binary_round_aux_not_nan prec emax sx mx ex lx :
  0 <= mx -> binary_round_aux prec emax sx mx ex lx <> S754_nan.
Proof.
  intros Hm. unfold binary_round_aux.
  pose proof (shr_fexp_nonneg prec emax mx ex lx Hm) as H1.
  destruct (shr_fexp prec emax mx ex lx) as [mrs' e']. cbn [fst] in H1.
  pose proof (shr_fexp_nonneg prec emax _ e' loc_Exact
                (round_nearest_even_nonneg _ (loc_of_shr_record mrs') H1)) as H2.
  destruct (shr_fexp prec emax _ e' loc_Exact) as [mrs'' e'']. cbn [fst] in H2.
  destruct (shr_m mrs'') as [| p | p]; [discriminate | | lia].
  destruct (e'' <=? emax - prec); discriminate.
Qed.

(** A finite number divided by a finite non-zero number is a number. *)
Lemma div_not_nan prec emax x sy my ey :
  F.is_finite x = true -> SFdiv prec emax x (S754_finite sy my ey) <> S754_nan.
Proof.
  destruct x as [s | s | | s m e]; try discriminate; intros _.
  cbn [SFdiv].
  destruct (SFdiv_core_binary prec emax (Z.pos m) e (Z.pos my) ey)
    as [[mz ez] lz] eqn:Hcore.
  apply binary_round_aux_not_nan.
  unfold SFdiv_core_binary in Hcore.
  set (m' := match _ with Z.pos _ => _ | _ => _ end) in Hcore.
  assert (Hm' : 0 <= m').
  { subst m'. destruct (_ - _ - _); [lia | | lia].
    apply Z.shiftl_nonneg. lia. }
  pose proof (Z_div_mod m' (Z.pos my) ltac:(lia)) as Hdm.
  destruct (Z.div_eucl m' (Z.pos my)) as [q r].
  injection Hcore as <- _ _. nia.
Qed.

Lemma positive_is_finite_nonzero (d : F.float) :
  F.is_finite d = true -> F.ltb (S754_zero false) d = true ->
  exists m e, d = S754_finite false m e.
Proof.
  destruct d as [s | s | | [] m e]; try discriminate; intros _ Hlt; eauto.
Qed.

(** Clipping a number between zero and a finite positive bound yields a
    finite number within the bounds. *)
Lemma clip_between (lo x : F.float) (M : positive) (E : Z) :
  x <> S754_nan -> lo = S754_zero false ->
  let hi := S754_finite false M E in
  let v := F.clip x lo hi in
  F.is_finite v = true /\ F.leb lo v = true /\ F.leb v hi = true.
Proof.
  intros Hx ->. unfold F.clip, F.ltb, F.leb, SFltb, SFleb.
  destruct x as [s | s | | s m e]; [| | congruence |].
  - cbn. auto.
  - destruct s; cbn; rewrite ?Z.compare_refl, ?Pos.compare_cont_refl; auto.
  - destruct s; [cbn; auto |].
    cbn [SFcompare].
    pose proof (Pos.compare_cont_antisym m M Eq) as Ha.
    cbn [CompOpp] in Ha. rewrite <- Ha. clear Ha.
    rewrite (Z.compare_antisym e E).
    destruct (e ?= E) eqn:He; cbn [CompOpp]; cbn; rewrite ?He; auto.
    destruct (Pos.compare_cont Eq m M) eqn:Hc; cbn; rewrite ?He, ?Hc; auto.
    all: rewrite ?Z.compare_refl, ?Pos.compare_cont_refl; auto.
Qed.

Lemma clip_0_255 (x : F.float) :
  x <> S754_nan ->
  let v := F.clip x (F.of_Z32 0) (F.of_Z32 255) in
  F.is_finite v = true /\ F.leb (F.of_Z32 0) v = true
  /\ F.leb v (F.of_Z32 255) = true.
Proof.
  intros Hx. exact (clip_between (F.of_Z32 0) x 16711680 (-16) Hx eq_refl).
Qed.

Lemma all_samples_spec (p : Z -> bool) (x : Z) :
  all_samples p = true -> 0 <= x <= 255 -> p x = true.
Proof.
  unfold all_samples. rewrite forallb_forall. intros Hall Hx.
  apply Hall, list_elem_of_In, elem_of_seqZ. lia.
Qed.

Lemma denominators_checked : all_samples denominator_ok = true.
Proof. vm_compute. reflexivity. Qed.

Lemma numerators_checked : all_samples numerator_ok = true.
Proof. vm_compute. reflexivity. Qed.

(** ** The dodge stage *)

Section Dodge.

Context `{Lib : Imaging}.

Lemma dodge_blend_spec (gray : Image Z) :
  elems (dodge_blend gray) = Spec.dodge gray.
Proof.
  destruct gray as [[w h] d].
  unfold dodge_blend, Spec.dodge, arr_map2, asarray, Image_filter,
    ImageOps_invert.
  cbn [size data shape elems].
  rewrite zip_with_fmap_l, zip_with_fmap_r.
  reflexivity.
Qed.

(** C5: the dodge array is, element by element,
    [clamp(grayBase * 255 / (255 − blurred + ε), 0, 255)] with
    [ε = 1e-4], [grayBase] the stretched grayscale and [blurred] the
    radius-22 blur of its inversion.  On 8-bit samples the denominator is
    a finite [float32] number, at least [ε] and above zero, so the
    quotient is a number (not a NaN), the clamped value is finite and
    lies in [0, 255], and an 8-bit sample is stored from it. *)
Theorem dodge_blend_total (gray : Image Z) (g b : Z) :
  0 <= g <= 255 -> 0 <= b <= 255 ->
  elems (dodge_blend gray) = Spec.dodge gray
  /\ dodge_px (F.of_Z32 g) (F.of_Z32 b) = Spec.dodge_formula g b
  /\ F.is_finite (dodge_denominator (F.of_Z32 b)) = true
  /\ F.leb (F.to32 Spec.epsilon) (dodge_denominator (F.of_Z32 b)) = true
  /\ F.ltb (F.of_Z32 0) (dodge_denominator (F.of_Z32 b)) = true
  /\ F.is_finite (Spec.dodge_formula g b) = true
  /\ F.leb (F.of_Z32 0) (Spec.dodge_formula g b) = true
  /\ F.leb (Spec.dodge_formula g b) (F.of_Z32 255) = true
  /\ 0 <= F.to_uint8 (Spec.dodge_formula g b) <= 255.
Proof.
  intros Hg Hb.
  pose proof (all_samples_spec _ b denominators_checked Hb) as Hd.
  pose proof (all_samples_spec _ g numerators_checked Hg) as Hn.
  unfold denominator_ok in Hd. unfold numerator_ok in Hn.
  apply andb_prop in Hd. destruct Hd as [Hd Hpos].
  apply andb_prop in Hd. destruct Hd as [Hfin Heps].
  split; [apply dodge_blend_spec |].
  split; [reflexivity |].
  do 3 (split; [assumption |]).
  destruct (positive_is_finite_nonzero _ Hfin Hpos) as (m & e & Hde).
  assert (Hq : F.div32 (F.mul32 (F.of_Z32 g) (scalar (F.lit 255 1)))
                 (dodge_denominator (F.of_Z32 b)) <> S754_nan).
  { rewrite Hde. now apply div_not_nan. }
  destruct (clip_0_255 _ Hq) as (Hv1 & Hv2 & Hv3).
  split; [exact Hv1 | split; [exact Hv2 | split; [exact Hv3 |]]].
  unfold F.to_uint8.
  pose proof (Z.mod_pos_bound (F.trunc (Spec.dodge_formula g b)) 256). lia.
Qed.

End Dodge.

(** ** Unrecognised depth values *)

Section UnknownDepth.

Context `{Lib : Imaging}.

Lemma style_dispatch_depth (gray luminance : Image Z)
    (sketch_style sketch_depth : string) :
  sketch_style <> "trace" ->
  snd (style_dispatch gray luminance sketch_style sketch_depth) = sketch_depth.
Proof.
  intros Ht. unfold style_dispatch. rewrite (eqb_trace_false _ Ht).
  now destruct (String.eqb sketch_style "artistic").
Qed.

Lemma style_dispatch_image (gray luminance : Image Z)
    (sketch_style depth1 depth2 : string) :
  fst (style_dispatch gray luminance sketch_style depth1)
  = fst (style_dispatch gray luminance sketch_style depth2).
Proof.
  unfold style_dispatch.
  now destruct (String.eqb sketch_style "trace"),
               (String.eqb sketch_style "artistic").
Qed.

(** C9, as amended: a depth value outside the four selectors is looked
    up as strength 0.38, which passes the test [shade_strength > 0], so
    the depth stage blends exactly as for "medium"; the value reaches
    the depth stage whenever the style is not "trace"; and for every
    style the call returns what it returns for "medium". *)
Theorem unknown_depth_is_medium (image_file : list Byte.byte)
    (sketch_style sketch_depth output_size : string) (rng : rng_state) :
  sketch_depth <> "none" -> sketch_depth <> "light" ->
  sketch_depth <> "medium" -> sketch_depth <> "deep" ->
  shade_strength_of sketch_depth = F.lit 38 100
  /\ shade_strength_of "medium" = F.lit 38 100
  /\ F.ltb (F.of_Z64 0) (shade_strength_of sketch_depth) = true
  /\ (forall gray sketch,
        depth_shade gray sketch sketch_depth
        = shade_with (F.lit 38 100) gray sketch)
  /\ (sketch_style <> "trace" ->
      forall gray luminance,
        snd (style_dispatch gray luminance sketch_style sketch_depth)
        = sketch_depth)
  /\ _pencil_sketch image_file sketch_style sketch_depth output_size rng
     = _pencil_sketch image_file sketch_style "medium" output_size rng.
Proof.
  intros Hn Hl Hm Hd.
  pose proof (shade_strength_default _ Hn Hl Hm Hd) as Hs.
  split; [exact Hs | split; [reflexivity |]].
  split; [now rewrite Hs |].
  split; [intros gray sketch; unfold depth_shade; now rewrite Hs |].
  split; [intros Ht gray luminance; now apply style_dispatch_depth |].
  unfold _pencil_sketch.
  destruct (Image_open_RGB image_file) as [e | image]; [reflexivity |].
  destruct (grain_texture _ rng) as [texture rng'].
  set (gray := tone_base _). set (luminance := convert_L _).
  pose proof (style_dispatch_image gray luminance sketch_style
                sketch_depth "medium") as Himg.
  destruct (String.eqb_spec sketch_style "trace") as [-> | Ht].
  - reflexivity.
  - pose proof (style_dispatch_depth gray luminance sketch_style
                  sketch_depth Ht) as H1.
    pose proof (style_dispatch_depth gray luminance sketch_style
                  "medium" Ht) as H2.
    destruct (style_dispatch gray luminance sketch_style sketch_depth)
      as [sk1 d1].
    destruct (style_dispatch gray luminance sketch_style "medium")
      as [sk2 d2].
    cbn [fst snd] in *. subst.
    now rewrite (depth_shade_default gray sk2 sketch_depth Hn Hl Hm Hd).
Qed.

End UnknownDepth.

(** ** The generator of the grain *)

Section Grain.

Context `{Lib : Imaging}.

(** C1, as amended: [_pencil_sketch] has no seed among its parameters;
    the grain comes from the state of the process-wide generator.  Two
    calls on the same bytes and parameters return the same image
    whenever the generator hands both calls the same samples (in
    particular when it is in the same state), and with style "trace"
    they return the same image whatever the generator states. *)
Theorem same_noise_same_sketch (image_file : list Byte.byte)
    (sketch_style sketch_depth output_size : string) (rng1 rng2 : rng_state) :
  match Image_open_RGB image_file with
  | inl _ => True
  | inr image =>
      let '(w, h) := size (thumbnail image (1800, 1800)) in
      fst (normal (F.lit 128 1) (F.lit 18 1) (h, w) rng1)
      = fst (normal (F.lit 128 1) (F.lit 18 1) (h, w) rng2)
  end ->
  fst (_pencil_sketch image_file sketch_style sketch_depth output_size rng1)
  = fst (_pencil_sketch image_file sketch_style sketch_depth output_size rng2)
  /\ fst (_pencil_sketch image_file "trace" sketch_depth output_size rng1)
     = fst (_pencil_sketch image_file "trace" sketch_depth output_size
              (snd (_pencil_sketch image_file "trace" sketch_depth
                      output_size rng1))).
Proof.
  intros Hnoise. split; [| now rewrite !trace_sketch].
  unfold _pencil_sketch.
  destruct (Image_open_RGB image_file) as [e | image]; [reflexivity |].
  set (gray := tone_base _).
  assert (Htex : fst (grain_texture (size (sharpen (dodge_blend gray))) rng1)
                 = fst (grain_texture (size (sharpen (dodge_blend gray))) rng2)).
  { rewrite size_sharpen_dodge. unfold gray, tone_base, ImageOps_autocontrast,
      ImageOps_grayscale, convert_L. cbn [size].
    destruct (size (thumbnail image (1800, 1800))) as [w h].
    unfold grain_texture.
    destruct (normal _ _ (h, w) rng1) as [s1 r1].
    destruct (normal _ _ (h, w) rng2) as [s2 r2].
    cbn [fst] in *. now subst. }
  destruct (grain_texture _ rng1) as [t1 r1].
  destruct (grain_texture _ rng2) as [t2 r2].
  cbn [fst] in Htex. subst t2.
  now destruct (style_dispatch _ _ sketch_style sketch_depth).
Qed.

End Grain.

(** ** The size computed by [Image.thumbnail] *)

(** Rationals with positive integer denominators. *)
Lemma Qdiv_pos_frac (a b : Z) : 0 < b -> (inject_Z a / inject_Z b == a # Z.to_pos b)%Q.
Proof.
  intros Hb. destruct b as [| pb | pb]; try lia.
  unfold Qeq, Qdiv, Qmult, Qinv, inject_Z. cbn. lia.
Qed.

Lemma Qfloor_frac (a : Z) (d : positive) : Qfloor (a # d) = a / Z.pos d.
Proof. reflexivity. Qed.

Lemma Qceiling_frac (a : Z) (d : positive) : Qceiling (a # d) = - ((- a) / Z.pos d).
Proof. reflexivity. Qed.

Lemma Qabs_frac (a : Z) (d : positive) : Qabs (a # d) = (Z.abs a # d).
Proof. reflexivity. Qed.

(* floor/ceil bounds *)
Lemma floor_bounds (a b : Z) : 0 < b -> (a / b) * b <= a < (a / b + 1) * b.
Proof. intros Hb. pose proof (Z.div_mod a b). pose proof (Z.mod_pos_bound a b Hb). nia. Qed.

Lemma ceil_bounds (a b : Z) : 0 < b -> (- ((- a) / b) - 1) * b < a <= (- ((- a) / b)) * b.
Proof. intros Hb. pose proof (floor_bounds (- a) b Hb). nia. Qed.

Lemma ceil_floor (a b : Z) : 0 < b ->
  (- ((- a) / b) = a / b /\ a = (a / b) * b) \/ (- ((- a) / b) = a / b + 1 /\ (a / b) * b < a).
Proof.
  intros Hb. pose proof (floor_bounds a b Hb). pose proof (ceil_bounds a b Hb).
  destruct (Z.eq_dec a (a / b * b)) as [He | Hne].
  - left. split; [| exact He]. nia.
  - right. split; [| lia]. nia.
Qed.

Lemma round_aspect_spec (number : Q) (key : Z -> Q) (exact : Z -> bool) (tie : bool) :
  exists c,
    round_aspect number key exact tie = Z.max c 1
    /\ (c = Qfloor number \/ c = Qceiling number)
    /\ (key c <= key (Qfloor number))%Q
    /\ (key c <= key (Qceiling number))%Q
    /\ (c = Qceiling number -> (key (Qfloor number) == key (Qceiling number))%Q ->
        Qfloor number = Qceiling number
        \/ exact (Qfloor number) && exact (Qceiling number) = false).
Proof.
  unfold round_aspect.
  destruct (Qcompare_spec (key (Qfloor number)) (key (Qceiling number)))
    as [Heq | Hlt | Hgt].
  - destruct (exact (Qfloor number) && exact (Qceiling number) || tie) eqn:Hex.
    + exists (Qfloor number).
      split; [reflexivity |]. split; [now left |].
      split; [apply Qle_refl |]. split; [rewrite Heq; apply Qle_refl |].
      intros Hc _. now left.
    + exists (Qceiling number).
      split; [reflexivity |]. split; [now right |].
      split; [rewrite Heq; apply Qle_refl |]. split; [apply Qle_refl |].
      intros _ _. right. now apply orb_false_elim in Hex.
  - exists (Qfloor number).
    split; [reflexivity |]. split; [now left |].
    split; [apply Qle_refl |]. split; [now apply Qlt_le_weak |].
    intros Hc _. now left.
  - exists (Qceiling number).
    split; [reflexivity |]. split; [now right |].
    split; [now apply Qlt_le_weak |]. split; [apply Qle_refl |].
    intros _ Hk. rewrite Hk in Hgt. exfalso. revert Hgt. apply Qlt_irrefl.
Qed.

Lemma keyB_frac (w h N n : Z) : 0 < h -> 0 < N ->
  (Qabs (inject_Z w / inject_Z h - inject_Z n / inject_Z N)
   == Z.abs (w * N - n * h) # Z.to_pos (h * N))%Q.
Proof.
  intros Hh HN. rewrite !Qdiv_pos_frac by lia.
  destruct h as [| ph | ph]; try lia. destruct N as [| pn | pn]; try lia.
  change (Z.abs (w * Z.pos pn - n * Z.pos ph) # Z.to_pos (Z.pos ph * Z.pos pn))
    with (Qabs ((w * Z.pos pn - n * Z.pos ph) # (ph * pn))).
  apply Qabs_wd. unfold Qeq, Qminus, Qplus, Qopp. cbn. ring.
Qed.

Lemma keyC_frac (w h N n : Z) : 0 < h -> 0 < n ->
  (Qabs (inject_Z w / inject_Z h - inject_Z N / inject_Z n)
   == Z.abs (w * n - N * h) # Z.to_pos (h * n))%Q.
Proof. intros Hh Hn. apply keyB_frac; lia. Qed.

Lemma numberB_frac (w h N : Z) : 0 < h ->
  (inject_Z N * (inject_Z w / inject_Z h) == (N * w) # Z.to_pos h)%Q.
Proof.
  intros Hh. rewrite Qdiv_pos_frac by lia.
  unfold Qeq, Qmult, inject_Z. cbn. lia.
Qed.

Lemma numberC_frac (w h N : Z) : 0 < h -> 0 < w ->
  (inject_Z N / (inject_Z w / inject_Z h) == (N * h) # Z.to_pos w)%Q.
Proof.
  intros Hh Hw.
  destruct h as [| ph | ph]; try lia. destruct w as [| pw | pw]; try lia.
  rewrite (Qdiv_pos_frac (Z.pos pw) (Z.pos ph)) by lia.
  unfold Qdiv.
  change (/ (Z.pos pw # Z.to_pos (Z.pos ph)))%Q with (Z.pos ph # pw).
  unfold Qeq, Qmult, inject_Z. cbn. rewrite ?Pos2Z.inj_mul. ring.
Qed.

Lemma Qle_frac (a b : Z) (d : positive) : (a # d <= b # d)%Q -> a <= b.
Proof. unfold Qle. cbn. nia. Qed.

Lemma preserve_B (tie : bool) (N w h : Z) :
  0 < N -> 0 < w -> w <= h -> N < h ->
  exists x',
    preserve_aspect_ratio tie (N, N) (w, h) = Some (x', N)
    /\ 1 <= x' /\ x' <= N /\ x' <= w
    /\ (2 * Z.abs (x' * h - N * w) <= h \/ (x' = 1 /\ 2 * N * w <= h)).
Proof.
  intros HN Hw Hwh HNh. unfold preserve_aspect_ratio.
  replace ((w <=? N) && (h <=? N)) with false
    by (symmetry; apply andb_false_intro2, Z.leb_gt; lia).
  assert (Hle : Qle_bool (inject_Z w / inject_Z h) (inject_Z N / inject_Z N) = true).
  { apply Qle_bool_iff. rewrite !Qdiv_pos_frac by lia.
    unfold Qle. cbn. rewrite !Z2Pos.id by lia. nia. }
  rewrite Hle.
  destruct (round_aspect_spec (inject_Z N * (inject_Z w / inject_Z h))
              (fun n => Qabs (inject_Z w / inject_Z h - inject_Z n / inject_Z N))
              (fun n => short_binary (inject_Z w / inject_Z h)
                        && short_binary (inject_Z n / inject_Z N)) tie)
    as (c & Hr & Hc & Hk1 & Hk2 & _).
  rewrite Hr. clear Hr.
  rewrite (Qfloor_comp _ _ (numberB_frac w h N ltac:(lia))) in Hc, Hk1.
  rewrite (Qceiling_comp _ _ (numberB_frac w h N ltac:(lia))) in Hc, Hk2.
  rewrite Qfloor_frac in Hc, Hk1. rewrite Qceiling_frac in Hc, Hk2.
  rewrite Z2Pos.id in Hc, Hk1, Hk2 by lia.
  cbv beta in Hk1, Hk2.
  rewrite !keyB_frac in Hk1, Hk2 by lia.
  apply Qle_frac in Hk1. apply Qle_frac in Hk2.
  pose proof (floor_bounds (N * w) h ltac:(lia)) as Hf.
  destruct (ceil_floor (N * w) h ltac:(lia)) as [[Hce Hex] | [Hce Hlt]];
    rewrite Hce in *; clear Hce.
  - assert (c = N * w / h) by tauto. subst c.
    set (lo := N * w / h) in *.
    exists (Z.max lo 1). split; [reflexivity |].
    assert (0 <= lo) by nia. assert (lo <= N) by nia. assert (lo <= w) by nia.
    split; [lia |]. split; [lia |]. split; [lia |].
    destruct (Z.eq_dec lo 0) as [Hz | Hz].
    + right. split; [lia |]. nia.
    + left. replace (Z.max lo 1) with lo by lia. nia.
  - set (lo := N * w / h) in *.
    assert (0 <= lo) by nia. assert (lo + 1 <= N) by nia. assert (lo + 1 <= w) by nia.
    exists (Z.max c 1). split; [reflexivity |].
    split; [lia |]. split; [lia |]. split; [lia |].
    destruct Hc as [-> | ->].
    + destruct (Z.eq_dec lo 0) as [Hz | Hz].
      * right. split; [lia |]. nia.
      * left. replace (Z.max lo 1) with lo by lia. nia.
    + left. replace (Z.max (lo + 1) 1) with (lo + 1) by lia. nia.
Qed.

Lemma Qle_frac2 (a b : Z) (d e : Z) : 0 < d -> 0 < e ->
  (a # Z.to_pos d <= b # Z.to_pos e)%Q -> a * e <= b * d.
Proof. intros Hd He. unfold Qle. cbn. now rewrite !Z2Pos.id by lia. Qed.

Lemma Qeq_frac2 (a b : Z) (d e : Z) : 0 < d -> 0 < e ->
  a * e = b * d -> (a # Z.to_pos d == b # Z.to_pos e)%Q.
Proof. intros Hd He. unfold Qeq. cbn. now rewrite !Z2Pos.id by lia. Qed.

Lemma Qfrac_le_0 (a : Z) (d : positive) : (a # d <= 0)%Q -> a <= 0.
Proof. unfold Qle. cbn. lia. Qed.

Lemma preserve_C (tie : bool) (N w h : Z) :
  0 < N -> 0 < h -> h < w -> N < w ->
  exists y',
    preserve_aspect_ratio tie (N, N) (w, h) = Some (N, y')
    /\ 1 <= y' /\ y' <= N /\ y' <= h
    /\ 2 * y' * (y' - 1) * w <= (2 * y' - 1) * N * h
    /\ (2 * y' + 1) * N * h <= 2 * y' * (y' + 1) * w
    /\ (2 <= y' -> 2 * y' * (y' - 1) * w = (2 * y' - 1) * N * h ->
        exactC w h N (y' - 1) && exactC w h N y' = false).
Proof.
  intros HN Hh Hhw HNw. unfold preserve_aspect_ratio.
  replace ((w <=? N) && (h <=? N)) with false
    by (symmetry; apply andb_false_intro1, Z.leb_gt; lia).
  assert (Hle : Qle_bool (inject_Z w / inject_Z h) (inject_Z N / inject_Z N) = false).
  { destruct (Qle_bool _ _) eqn:Hb; [| reflexivity].
    apply Qle_bool_iff in Hb. rewrite !Qdiv_pos_frac in Hb by lia.
    apply Qle_frac2 in Hb; lia || nia. }
  rewrite Hle.
  destruct (round_aspect_spec (inject_Z N / (inject_Z w / inject_Z h))
              (fun n => if n =? 0 then 0%Q
                        else Qabs (inject_Z w / inject_Z h - inject_Z N / inject_Z n))
              (fun n => (n =? 0)
                        || short_binary (inject_Z w / inject_Z h)
                           && short_binary (inject_Z N / inject_Z n)) tie)
    as (c & Hr & Hc & Hk1 & Hk2 & Htie).
  rewrite Hr. clear Hr.
  rewrite (Qfloor_comp _ _ (numberC_frac w h N ltac:(lia) ltac:(lia))) in Hc, Hk1, Htie.
  rewrite (Qceiling_comp _ _ (numberC_frac w h N ltac:(lia) ltac:(lia))) in Hc, Hk2, Htie.
  rewrite Qfloor_frac in Hc, Hk1, Htie. rewrite Qceiling_frac in Hc, Hk2, Htie.
  rewrite Z2Pos.id in Hc, Hk1, Hk2, Htie by lia.
  cbv beta in Hk1, Hk2, Htie.
  pose proof (floor_bounds (N * h) w ltac:(lia)) as Hf.
  set (lo := N * h / w) in *.
  assert (Hlo0 : 0 <= lo) by nia.
  assert (HloN : lo < N) by nia.
  assert (Hloh : lo < h) by nia.
  exists (Z.max c 1). split; [reflexivity |].
  destruct (ceil_floor (N * h) w ltac:(lia)) as [[Hce Hex] | [Hce Hlt]];
    fold lo in Hce, Hex || fold lo in Hce, Hlt; rewrite Hce in *; clear Hce.
  - (* the quotient is an integer *)
    assert (c = lo) by tauto. subst c.
    assert (1 <= lo) by nia.
    replace (Z.max lo 1) with lo by lia.
    split; [lia |]. split; [lia |]. split; [lia |].
    split; [nia |]. split; [nia |].
    intros H2 Heq. exfalso. nia.
  - destruct (Z.eq_dec lo 0) as [Hz | Hz].
    + (* the quotient is below one *)
      assert (c = 0).
      { destruct Hc as [-> | ->]; [lia |]. exfalso.
        replace (lo =? 0) with true in Hk1 by (symmetry; apply Z.eqb_eq; lia).
        replace (lo + 1 =? 0) with false in Hk1 by (symmetry; apply Z.eqb_neq; lia).
        rewrite keyC_frac in Hk1 by lia.
        apply Qfrac_le_0 in Hk1. nia. }
      subst c. change (Z.max 0 1) with 1.
      split; [lia |]. split; [lia |]. split; [lia |].
      split; [nia |]. split; [nia |]. intros; lia.
    + assert (Hlo1 : 1 <= lo) by lia.
      assert (Hklo : (lo =? 0) = false) by (apply Z.eqb_neq; lia).
      assert (Hkhi : (lo + 1 =? 0) = false) by (apply Z.eqb_neq; lia).
      set (a := N * h - lo * w) in *.
      assert (Ha : 0 < a < w) by (unfold a; nia).
      destruct Hc as [-> | ->].
      * (* rounded down *)
        rewrite Hklo, Hkhi in Hk2. rewrite !keyC_frac in Hk2 by lia.
        apply Qle_frac2 in Hk2; [| nia | nia].
        replace (Z.abs (w * lo - N * h)) with a in Hk2 by (unfold a; lia).
        replace (Z.abs (w * (lo + 1) - N * h)) with (w - a) in Hk2 by (unfold a; lia).
        assert (Hkey : a * (lo + 1) <= (w - a) * lo) by nia.
        replace (Z.max lo 1) with lo by lia.
        split; [lia |]. split; [lia |]. split; [lia |].
        split; [unfold a in *; nia |]. split; [unfold a in *; nia |].
        intros H2 Heq. exfalso. unfold a in *. nia.
      * (* rounded up *)
        rewrite Hklo, Hkhi in Hk1. rewrite !keyC_frac in Hk1 by lia.
        apply Qle_frac2 in Hk1; [| nia | nia].
        replace (Z.abs (w * lo - N * h)) with a in Hk1 by (unfold a; lia).
        replace (Z.abs (w * (lo + 1) - N * h)) with (w - a) in Hk1 by (unfold a; lia).
        assert (Hkey : (w - a) * lo <= a * (lo + 1)) by nia.
        replace (Z.max (lo + 1) 1) with (lo + 1) by lia.
        split; [lia |]. split; [lia |]. split; [nia |].
        split; [unfold a in *; nia |]. split; [unfold a in *; nia |].
        intros H2 Heq.
        assert (Hk : (w - a) * lo = a * (lo + 1)) by (unfold a in *; nia).
        replace (lo + 1 - 1) with lo by lia.
        destruct (Htie eq_refl) as [Hbad | Hexact]; [| lia | exact Hexact].
        rewrite Hklo, Hkhi. rewrite !keyC_frac by lia.
        apply Qeq_frac2; [nia | nia |].
        replace (Z.abs (w * lo - N * h)) with a by (unfold a; lia).
        replace (Z.abs (w * (lo + 1) - N * h)) with (w - a) by (unfold a; lia).
        nia.
Qed.

(** Arithmetic of two successive reductions. *)

Lemma single_B (N w h x' : Z) :
  0 < N -> 0 < w -> w <= h ->
  1 <= x' ->
  (2 * Z.abs (x' * h - N * w) <= h \/ (x' = 1 /\ 2 * N * w <= h)) ->
  Z.abs (x' * h - N * w) <= h.
Proof. intros HN Hw Hwh Hx [Hn | [-> Hc]]; nia. Qed.

Lemma single_C (N w h y' : Z) :
  0 < N -> 0 < h -> h < w -> 1 <= y' ->
  2 * y' * (y' - 1) * w <= (2 * y' - 1) * N * h ->
  (2 * y' + 1) * N * h <= 2 * y' * (y' + 1) * w ->
  Z.abs (N * h - y' * w) <= w.
Proof.
  intros HN Hh Hhw Hy HL HU.
  assert (G1 : N * h <= (y' + 1) * w).
  { apply (Z.mul_le_mono_pos_l _ _ (2 * y' + 1)); [lia |]. nia. }
  assert (G2 : (y' - 1) * w <= N * h).
  { destruct (Z.eq_dec y' 1) as [-> | Hne]; [nia |].
    apply (Z.mul_le_mono_pos_l _ _ (2 * y')); [lia |]. nia. }
  lia.
Qed.

Lemma compose_BB (A N w h x1 x2 : Z) :
  0 < N -> N <= A -> 0 < w -> w <= h -> A < h ->
  1 <= x1 ->
  (2 * Z.abs (x1 * h - A * w) <= h \/ (x1 = 1 /\ 2 * A * w <= h)) ->
  1 <= x2 ->
  (2 * Z.abs (x2 * A - N * x1) <= A \/ (x2 = 1 /\ 2 * N * x1 <= A)) ->
  Z.abs (x2 * h - N * w) <= h.
Proof.
  intros HN HNA Hw Hwh HAh Hx1 H1 Hx2 H2.
  assert (HA : 0 < A) by lia.
  destruct H1 as [H1 | [-> H1]].
  - destruct H2 as [H2 | [-> H2]].
    + remember (x1 * h - A * w) as d1 eqn:Ed1.
      remember (x2 * A - N * x1) as d2 eqn:Ed2.
      assert (Hid : 2 * A * (x2 * h - N * w) = h * (2 * d2) + N * (2 * d1))
        by (subst d1 d2; ring).
      assert (B1 : - h <= 2 * d1 <= h) by lia.
      assert (B2 : - A <= 2 * d2 <= A) by lia.
      pose proof (Z.mul_nonneg_nonneg h (A - 2 * d2) ltac:(lia) ltac:(lia)).
      pose proof (Z.mul_nonneg_nonneg h (A + 2 * d2) ltac:(lia) ltac:(lia)).
      pose proof (Z.mul_nonneg_nonneg N (h - 2 * d1) ltac:(lia) ltac:(lia)).
      pose proof (Z.mul_nonneg_nonneg N (h + 2 * d1) ltac:(lia) ltac:(lia)).
      pose proof (Z.mul_nonneg_nonneg (A - N) h ltac:(lia) ltac:(lia)).
      assert (- (2 * A * h) <= 2 * A * (x2 * h - N * w) <= 2 * A * h) by nia.
      nia.
    + (* the second reduction is clamped to one pixel *)
      assert (N * (2 * x1 * h) <= N * (2 * A * w + h)) by (apply Z.mul_le_mono_nonneg_l; lia).
      assert (A * (N * w) <= A * h) by nia.
      assert (N * w <= h) by nia.
      lia.
  - (* the first reduction is clamped to one pixel *)
    assert (x2 = 1) by (destruct H2 as [H2 | [-> H2]]; [nia | reflexivity]).
    subst x2. nia.
Qed.

Lemma exact_1600_5 : exactC 1800 5 1600 4 && exactC 1800 5 1600 5 = true.
Proof. vm_compute. reflexivity. Qed.

Lemma compose_CC_upper (A N w h y1 y2 : Z) :
  0 < N -> 0 < A -> 0 < h -> 0 < w ->
  1 <= y2 -> y2 <= y1 ->
  (2 * y1 + 1) * A * h <= 2 * y1 * (y1 + 1) * w ->
  (2 * y2 + 1) * N * y1 <= 2 * y2 * (y2 + 1) * A ->
  N * h <= (y2 + 1) * w.
Proof.
  intros HN HA Hh Hw Hy2 Hy HU1 HU2.
  apply (Z.mul_le_mono_pos_l _ _ ((2 * y1 + 1) * (2 * y2 + 1) * A));
    [repeat apply Z.mul_pos_pos; lia |].
  pose proof (Z.mul_le_mono_nonneg_l _ _ (N * (2 * y2 + 1)) ltac:(nia) HU1) as S1.
  pose proof (Z.mul_le_mono_nonneg_l _ _ (2 * (y1 + 1) * w) ltac:(nia) HU2) as S2.
  assert (S3 : 4 * y2 * (y1 + 1) <= (2 * y2 + 1) * (2 * y1 + 1)) by nia.
  pose proof (Z.mul_le_mono_nonneg_l _ _ ((y2 + 1) * A * w) ltac:(nia) S3) as S4.
  lia.
Qed.

Lemma compose_CC_lower (A N w h y1 y2 : Z) :
  0 < N -> 0 < A -> 0 < h -> 0 < w ->
  1 <= y2 -> y2 < y1 ->
  2 * y1 * (y1 - 1) * w <= (2 * y1 - 1) * A * h ->
  2 * y2 * (y2 - 1) * A <= (2 * y2 - 1) * N * y1 ->
  (y2 - 1) * w <= N * h.
Proof.
  intros HN HA Hh Hw Hy2 Hy HL1 HL2.
  apply (Z.mul_le_mono_pos_l _ _ ((2 * y1 - 1) * (2 * y2 - 1) * A));
    [repeat apply Z.mul_pos_pos; lia |].
  pose proof (Z.mul_le_mono_nonneg_l _ _ (N * (2 * y2 - 1)) ltac:(nia) HL1) as S1.
  pose proof (Z.mul_le_mono_nonneg_l _ _ (2 * (y1 - 1) * w) ltac:(nia) HL2) as S2.
  assert (S3 : (2 * y1 - 1) * (2 * y2 - 1) <= 4 * y2 * (y1 - 1)) by nia.
  pose proof (Z.mul_le_mono_nonneg_l _ _ ((y2 - 1) * A * w) ltac:(nia) S3) as S4.
  lia.
Qed.

Lemma compose_CC (N w h y1 y2 : Z) :
  N = 1600 \/ N = 1024 \/ N = 720 \/ N = 480 ->
  0 < h -> h < w -> 1800 < w ->
  1 <= y1 -> y1 < 1800 ->
  2 * y1 * (y1 - 1) * w <= (2 * y1 - 1) * 1800 * h ->
  (2 * y1 + 1) * 1800 * h <= 2 * y1 * (y1 + 1) * w ->
  1 <= y2 -> y2 <= y1 ->
  2 * y2 * (y2 - 1) * 1800 <= (2 * y2 - 1) * N * y1 ->
  (2 * y2 + 1) * N * y1 <= 2 * y2 * (y2 + 1) * 1800 ->
  (2 <= y2 -> 2 * y2 * (y2 - 1) * 1800 = (2 * y2 - 1) * N * y1 ->
   exactC 1800 y1 N (y2 - 1) && exactC 1800 y1 N y2 = false) ->
  Z.abs (N * h - y2 * w) <= w.
Proof.
  intros HN Hh Hhw Hw Hy1 Hy1A HL1 HU1 Hy2 Hy21 HL2 HU2 Htie.
  assert (HN0 : 0 < N) by lia.
  assert (G1 : N * h <= (y2 + 1) * w).
  { apply (compose_CC_upper 1800 N w h y1 y2); lia. }
  assert (G2 : (y2 - 1) * w <= N * h).
  { destruct (Z.eq_dec y2 1) as [-> | Hne]; [nia |].
    destruct (Z_lt_le_dec y2 y1) as [Hlt | Hge].
    - apply (compose_CC_lower 1800 N w h y1 y2); lia.
    - assert (y2 = y1) by lia. subst y2.
      assert (HL2' : 2 * (y1 - 1) * 1800 <= (2 * y1 - 1) * N) by nia.
      destruct HN as [-> | [-> | [-> | ->]]]; try lia.
      assert (Hc : y1 = 2 \/ y1 = 3 \/ y1 = 4 \/ y1 = 5) by lia.
      destruct Hc as [-> | [-> | [-> | ->]]]; try lia.
      specialize (Htie ltac:(lia) eq_refl).
      change (5 - 1) with 4 in Htie. rewrite exact_1600_5 in Htie. discriminate. }
  lia.
Qed.

Lemma compose_CB (N w h x2 : Z) :
  0 < N -> N < 1800 -> 0 < h -> h < w ->
  2 * 1800 * (1800 - 1) * w <= (2 * 1800 - 1) * 1800 * h ->
  2 * Z.abs (x2 * 1800 - N * 1800) <= 1800 \/ (x2 = 1 /\ 2 * N * 1800 <= 1800) ->
  x2 = N /\ Z.abs (N * h - N * w) <= w.
Proof.
  intros HN HNA Hh Hhw HL1 H2.
  assert (x2 = N) by lia. split; [assumption |]. nia.
Qed.

Lemma thumbnail_size_cases (tie : bool) (N w h : Z) :
  0 < N -> 0 < w -> 0 < h ->
  (w <= N /\ h <= N /\ thumbnail_size tie (N, N) (w, h) = (w, h))
  \/ (N < h /\ w <= h /\ exists x',
        thumbnail_size tie (N, N) (w, h) = (x', N)
        /\ 1 <= x' /\ x' <= N /\ x' <= w
        /\ (2 * Z.abs (x' * h - N * w) <= h \/ (x' = 1 /\ 2 * N * w <= h)))
  \/ (N < w /\ h < w /\ exists y',
        thumbnail_size tie (N, N) (w, h) = (N, y')
        /\ 1 <= y' /\ y' <= N /\ y' <= h
        /\ 2 * y' * (y' - 1) * w <= (2 * y' - 1) * N * h
        /\ (2 * y' + 1) * N * h <= 2 * y' * (y' + 1) * w
        /\ (2 <= y' -> 2 * y' * (y' - 1) * w = (2 * y' - 1) * N * h ->
            exactC w h N (y' - 1) && exactC w h N y' = false)).
Proof.
  intros HN Hw Hh. unfold thumbnail_size.
  destruct (Z_le_gt_dec w N) as [HwN | HwN], (Z_le_gt_dec h N) as [HhN | HhN].
  - left. split; [lia | split; [lia |]].
    unfold preserve_aspect_ratio.
    replace ((w <=? N) && (h <=? N)) with true; [reflexivity |].
    symmetry. apply andb_true_intro. split; apply Z.leb_le; lia.
  - right. left. split; [lia | split; [lia |]].
    destruct (preserve_B tie N w h) as (x' & -> & Hx); try lia. eauto.
  - right. right. split; [lia | split; [lia |]].
    destruct (preserve_C tie N w h) as (y' & -> & Hy); try lia. eauto.
  - destruct (Z_le_gt_dec w h) as [Hwh | Hwh].
    + right. left. split; [lia | split; [lia |]].
      destruct (preserve_B tie N w h) as (x' & -> & Hx); try lia. eauto.
    + right. right. split; [lia | split; [lia |]].
      destruct (preserve_C tie N w h) as (y' & -> & Hy); try lia. eauto.
Qed.

(** One reduction: fits the box, never grows, keeps the aspect ratio
    to the pixel. *)
Lemma thumbnail_size_once (tie : bool) (N w h : Z) :
  0 < N -> 0 < w -> 0 < h ->
  let '(w', h') := thumbnail_size tie (N, N) (w, h) in
  1 <= w' <= w /\ 1 <= h' <= h /\ Z.max w' h' <= N
  /\ (w <= N -> h <= N -> (w', h') = (w, h))
  /\ Z.abs (w' * h - h' * w) <= Z.max w h.
Proof.
  intros HN Hw Hh.
  destruct (thumbnail_size_cases tie N w h HN Hw Hh)
    as [(H1 & H2 & ->) | [(H1 & H2 & x' & -> & Hx1 & Hx2 & Hx3 & Hx4)
                         | (H1 & H2 & y' & -> & Hy1 & Hy2 & Hy3 & HL & HU & _)]].
  - repeat split; try lia.
  - pose proof (single_B N w h x' HN Hw H2 Hx1 Hx4).
    repeat split; try lia.
  - pose proof (single_C N w h y' HN Hh H2 Hy1 HL HU).
    repeat split; try lia.
Qed.

(** Two reductions in a row: first to 1800, then to a requested size. *)
Lemma thumbnail_size_twice (tie1 tie2 : bool) (N w h : Z) :
  N = 1600 \/ N = 1024 \/ N = 720 \/ N = 480 ->
  0 < w -> 0 < h ->
  let '(w', h') := thumbnail_size tie2 (N, N)
                     (thumbnail_size tie1 (1800, 1800) (w, h)) in
  1 <= w' <= w /\ 1 <= h' <= h /\ Z.max w' h' <= N
  /\ (w <= N -> h <= N -> (w', h') = (w, h))
  /\ Z.abs (w' * h - h' * w) <= Z.max w h.
Proof.
  intros HN Hw Hh.
  assert (HN0 : 0 < N < 1800) by lia.
  destruct (thumbnail_size_cases tie1 1800 w h ltac:(lia) Hw Hh)
    as [(H1 & H2 & ->) | [(H1 & H2 & x1 & -> & Hx1 & Hx2 & Hx3 & Hx4)
                         | (H1 & H2 & y1 & -> & Hy1 & Hy2 & Hy3 & HL1 & HU1 & _)]].
  - pose proof (thumbnail_size_once tie2 N w h ltac:(lia) Hw Hh) as Ho.
    destruct (thumbnail_size tie2 (N, N) (w, h)) as [w' h'].
    repeat split; try lia. tauto.
  - destruct (thumbnail_size_cases tie2 N x1 1800 ltac:(lia) ltac:(lia) ltac:(lia))
      as [(? & ? & _) | [(_ & _ & x2 & -> & Hx21 & Hx22 & Hx23 & Hx24)
                        | (? & ? & _)]]; try lia.
    pose proof (compose_BB 1800 N w h x1 x2 ltac:(lia) ltac:(lia) Hw H2 H1 Hx1 Hx4 Hx21 Hx24).
    repeat split; try lia.
  - destruct (thumbnail_size_cases tie2 N 1800 y1 ltac:(lia) ltac:(lia) ltac:(lia))
      as [(? & ? & _) | [(_ & Hsq & x2 & -> & Hx21 & Hx22 & Hx23 & Hx24)
                        | (_ & Hlt & y2 & -> & Hy21 & Hy22 & Hy23 & HL2 & HU2 & Htie)]];
      try lia.
    + assert (y1 = 1800) by lia. subst y1.
      destruct (compose_CB N w h x2 ltac:(lia) ltac:(lia) Hh H2 HL1 Hx24) as [-> Hc].
      repeat split; try lia.
    + pose proof (compose_CC N w h y1 y2 HN Hh H2 H1 Hy1 Hlt HL1 HU1 Hy21 Hy23 HL2 HU2 Htie).
      repeat split; try lia.
Qed.

(** ** The trace lines and the rank filter *)

Lemma getpixel_rank_max (sz : Z) (im : Image Z) (x y : Z) :
  0 <= x < fst (size im) -> 0 <= y < snd (size im) ->
  getpixel (rank_max sz im) x y = window_max (sz / 2) im x y.
Proof.
  unfold rank_max, getpixel. destruct (size im) as [w h] eqn:Hsz.
  cbn [fst snd size data]. intros Hx Hy.
  replace (Z.max 0 (Z.min (w - 1) x)) with x by lia.
  replace (Z.max 0 (Z.min (h - 1) y)) with y by lia.
  rewrite nth_lookup, list_lookup_fmap.
  rewrite lookup_seqZ_lt by nia.
  rewrite Z2Nat.id by nia. rewrite Z.add_0_l.
  assert (Hm : (y * w + x) mod w = x).
  { rewrite Z.add_comm, Z.mod_add by lia. apply Z.mod_small. lia. }
  assert (Hd : (y * w + x) / w = y).
  { rewrite Z.add_comm, Z.div_add by lia. rewrite Z.div_small by lia. lia. }
  cbn. now rewrite Hm, Hd.
Qed.

Lemma fold_max_upper (l : list Z) (b : Z) :
  0 <= b -> Forall (fun v => v <= b) l -> fold_right Z.max 0 l <= b.
Proof. intros Hb. induction 1; cbn; lia. Qed.

Lemma fold_max_lower (l : list Z) (v : Z) :
  In v l -> v <= fold_right Z.max 0 l.
Proof. induction l as [| a l IH]; cbn; [tauto |]. intros [-> | Hin]; [lia |]. specialize (IH Hin). lia. Qed.

Lemma window_1_in (dx dy : Z) : -1 <= dx <= 1 -> -1 <= dy <= 1 -> In (dx, dy) (window 1).
Proof.
  intros Hx Hy.
  assert (Hdx : dx = -1 \/ dx = 0 \/ dx = 1) by lia.
  assert (Hdy : dy = -1 \/ dy = 0 \/ dy = 1) by lia.
  destruct Hdx as [-> | [-> | ->]], Hdy as [-> | [-> | ->]]; vm_compute; tauto.
Qed.

Lemma getpixel_upper (im : Image Z) (b x y : Z) :
  0 <= b -> Forall (fun v => v <= b) (data im) -> getpixel im x y <= b.
Proof.
  intros Hb Hall. unfold getpixel. destruct (size im) as [w h].
  rewrite nth_lookup. destruct (data im !! _) as [v |] eqn:Hl; cbn; [| lia].
  rewrite Forall_forall in Hall. apply Hall. eapply list_elem_of_lookup_2. apply Hl.
Qed.

Example isolated_line_pixel_vanishes :
  rank_max 3 (mk_image (3, 3) [255; 255; 255; 255; 60; 255; 255; 255; 255])
  = mk_image (3, 3) [255; 255; 255; 255; 255; 255; 255; 255; 255].
Proof. reflexivity. Qed.

Example two_pixel_line_vanishes :
  rank_max 3 (mk_image (2, 1) [255; 60]) = mk_image (2, 1) [255; 255].
Proof. reflexivity. Qed.

Section Trace.

Context `{Lib : Imaging}.

Lemma binarize_data (edges_arr : ndarray F.float) :
  data (fromarray (astype_uint8 (binarize edges_arr)))
  = map (fun e => if F.leb (percentile (elems edges_arr) (F.lit 92 1)) e
                  then 60 else 255) (elems edges_arr).
Proof.
  unfold fromarray, astype_uint8, binarize, arr_map. cbn [shape elems].
  destruct (shape edges_arr) as [rows cols]. cbn [data].
  rewrite zip_with_fmap_l, zip_with_fmap_r, zip_with_diag, <- list_fmap_compose.
  apply list_fmap_ext. intros i e _. cbn.
  now destruct (F.leb _ e).
Qed.

Lemma binarize_size (edges_arr : ndarray F.float) :
  size (fromarray (astype_uint8 (binarize edges_arr)))
  = (snd (shape edges_arr), fst (shape edges_arr)).
Proof.
  unfold fromarray, astype_uint8, binarize, arr_map. cbn [shape elems].
  now destruct (shape edges_arr) as [rows cols].
Qed.

(** C7: the threshold is the 92nd percentile of the edge buffer, a
    sample at or above it becomes 60 and any other 255, and one pass of
    the 3x3 maximum filter follows.  That pass makes a pixel 255 as soon
    as one pixel of its window (border replicated) is 255: the 255
    background spreads and the 60 lines shrink. *)
Theorem trace_lines_erode (edges_arr : ndarray F.float) (x y dx dy : Z) :
  0 <= x < snd (shape edges_arr) -> 0 <= y < fst (shape edges_arr) ->
  -1 <= dx <= 1 -> -1 <= dy <= 1 ->
  data (fromarray (astype_uint8 (binarize edges_arr)))
  = map (fun e => if F.leb (percentile (elems edges_arr) (F.lit 92 1)) e
                  then 60 else 255) (elems edges_arr)
  /\ trace_lines edges_arr
     = Image_filter (fromarray (astype_uint8 (binarize edges_arr))) (MaxFilter 3)
  /\ (getpixel (fromarray (astype_uint8 (binarize edges_arr))) (x + dx) (y + dy)
      = 255 ->
      getpixel (trace_lines edges_arr) x y = 255).
Proof.
  intros Hx Hy Hdx Hdy.
  split; [apply binarize_data | split; [reflexivity |]].
  intros Hbg. unfold trace_lines. cbn [Image_filter].
  set (line_img := fromarray (astype_uint8 (binarize edges_arr))) in *.
  rewrite getpixel_rank_max
    by (unfold line_img; rewrite binarize_size; cbn [fst snd]; lia).
  change (3 / 2) with 1.
  assert (Hall : Forall (fun v => v <= 255) (data line_img)).
  { unfold line_img. rewrite binarize_data. apply Forall_fmap, Forall_true.
    intros e. cbn. destruct (F.leb _ e); lia. }
  apply Z.le_antisymm.
  - apply fold_max_upper; [lia |]. apply Forall_fmap, Forall_true.
    intros d. cbn. now apply getpixel_upper.
  - rewrite <- Hbg. apply fold_max_lower.
    apply (in_map (fun d : Z * Z => getpixel line_img (x + fst d) (y + snd d))
             _ (dx, dy)).
    now apply window_1_in.
Qed.

End Trace.

(** ** The size of the sketch *)

Lemma size_map_values (output_size : string) (n : Z) :
  dict_get size_map output_size None = Some n ->
  n = 1600 \/ n = 1024 \/ n = 720 \/ n = 480.
Proof.
  unfold dict_get, size_map. rewrite !lookup_insert, lookup_empty.
  repeat case_decide; intros Hn; inversion Hn; auto.
Qed.

Section OutputSize.

Context `{Lib : Imaging}.

Lemma size_thumbnail (im : Image rgb) (box : Z * Z) :
  size (thumbnail im box)
  = thumbnail_size (thumbnail_tie box (size im)) box (size im).
Proof.
  unfold thumbnail, thumbnail_size.
  destruct (preserve_aspect_ratio _ box (size im)) as [final_size |]; [| reflexivity].
  now case_decide.
Qed.

Lemma size_tone_base (image : Image rgb) : size (tone_base image) = size image.
Proof. reflexivity. Qed.

Lemma size_grain_texture (sz : Z * Z) (rng : rng_state) :
  size (fst (grain_texture sz rng)) = sz.
Proof.
  unfold grain_texture. destruct sz as [w h].
  destruct (normal _ _ (h, w) rng) as [samples rng']. cbn [fst].
  now rewrite size_Image_filter.
Qed.

Lemma size_grain_blend (sharp texture : Image Z) :
  size (grain_blend sharp texture) = size sharp.
Proof.
  unfold grain_blend, convert_RGB, fromarray, astype_uint8, np_clip, arr_map,
    arr_map2, asarray. cbn [size shape].
  now destruct (size sharp) as [w h].
Qed.

Lemma shape_binarize (edges_arr : ndarray F.float) :
  shape (binarize edges_arr) = shape edges_arr.
Proof. reflexivity. Qed.

Lemma size_style_trace (gray : Image Z) : size (style_trace gray) = size gray.
Proof.
  unfold style_trace, convert_RGB, trace_lines. cbn [size].
  rewrite size_Image_filter.
  unfold fromarray, astype_uint8. cbn [shape]. rewrite shape_binarize.
  unfold trace_edges, asarray, ImageOps_autocontrast. cbn [size].
  rewrite !size_Image_filter. now destruct (size gray) as [w h].
Qed.

Lemma size_style_artistic (gray luminance : Image Z) :
  size (style_artistic gray luminance) = size luminance.
Proof.
  unfold style_artistic, convert_RGB. cbn [size]. rewrite size_Image_filter.
  unfold fromarray, astype_uint8, np_clip, arr_map, arr_map2, asarray.
  cbn [shape]. now destruct (size luminance) as [w h].
Qed.

Lemma size_style_clean (luminance : Image Z) :
  size (style_clean luminance) = size luminance.
Proof.
  unfold style_clean, convert_RGB. cbn [size]. now rewrite size_Image_filter.
Qed.

Lemma size_style_dispatch (gray luminance : Image Z) (sketch_style sketch_depth : string) :
  size luminance = size gray ->
  size (fst (style_dispatch gray luminance sketch_style sketch_depth)) = size gray.
Proof.
  intros Hs. unfold style_dispatch.
  destruct (String.eqb sketch_style "trace"); [apply size_style_trace |].
  destruct (String.eqb sketch_style "artistic"); cbn [fst].
  - now rewrite size_style_artistic.
  - now rewrite size_style_clean.
Qed.

Lemma size_depth_shade (gray : Image Z) (sketch : Image rgb) (sketch_depth : string) :
  size (depth_shade gray sketch sketch_depth) = size sketch.
Proof.
  unfold depth_shade. destruct (F.ltb _ _); [| reflexivity].
  now rewrite shade_with_spec.
Qed.

Lemma size_output_scale (sketch : Image rgb) (output_size : string) :
  size (output_scale sketch output_size)
  = match dict_get size_map output_size None with
    | Some n => thumbnail_size (thumbnail_tie (n, n) (size sketch)) (n, n) (size sketch)
    | None => size sketch
    end.
Proof.
  unfold output_scale.
  destruct (dict_get size_map output_size None) as [n |] eqn:Hn; [| reflexivity].
  destruct (size_map_values _ _ Hn) as [-> | [-> | [-> | ->]]];
    cbn [truthy Z.eqb negb]; apply size_thumbnail.
Qed.

Lemma sketch_size (image_file : list Byte.byte)
    (sketch_style sketch_depth output_size : string) (rng : rng_state)
    (image : Image rgb) :
  Image_open_RGB image_file = inr image ->
  exists sketch rng',
    _pencil_sketch image_file sketch_style sketch_depth output_size rng
    = (inr sketch, rng')
    /\ size sketch
       = let s1 := thumbnail_size (thumbnail_tie (1800, 1800) (size image))
                     (1800, 1800) (size image) in
         match dict_get size_map output_size None with
         | Some n => thumbnail_size (thumbnail_tie (n, n) s1) (n, n) s1
         | None => s1
         end.
Proof.
  intros Hopen. unfold _pencil_sketch. rewrite Hopen.
  set (gray := tone_base (thumbnail image (1800, 1800))).
  pose proof (size_grain_texture (size (sharpen (dodge_blend gray))) rng) as Htex.
  destruct (grain_texture _ rng) as [texture rng']. cbn [fst] in Htex.
  set (luminance := convert_L (grain_blend (sharpen (dodge_blend gray)) texture)).
  assert (Hlum : size luminance = size gray).
  { unfold luminance, convert_L. cbn [size].
    now rewrite size_grain_blend, size_sharpen_dodge. }
  pose proof (size_style_dispatch gray luminance sketch_style sketch_depth Hlum) as Hst.
  destruct (style_dispatch gray luminance sketch_style sketch_depth) as [sketch d].
  cbn [fst] in Hst.
  eexists _, _. split; [reflexivity |].
  rewrite size_output_scale, size_depth_shade, Hst.
  unfold gray. now rewrite size_tone_base, size_thumbnail.
Qed.

(** C2: when the bytes decode to an image with positive sides, a
    sketch is returned whose long edge is at most the requested cap
    (1800 for "orig"), whose sides are at least one pixel and never
    larger than those of the input (unchanged when the input already
    fits the cap), and whose short side is within one pixel of the exact
    scaled value: [|w'·h − h'·w| <= max(w, h)]. *)
Theorem sketch_size_bounded (image_file : list Byte.byte)
    (sketch_style sketch_depth output_size : string) (rng : rng_state)
    (image : Image rgb) :
  Image_open_RGB image_file = inr image ->
  0 < fst (size image) -> 0 < snd (size image) ->
  exists sketch rng',
    _pencil_sketch image_file sketch_style sketch_depth output_size rng
    = (inr sketch, rng')
    /\ let '(w, h) := size image in
       let '(w', h') := size sketch in
       Z.max w' h' <= size_cap output_size
       /\ 1 <= w' <= w /\ 1 <= h' <= h
       /\ (w <= size_cap output_size -> h <= size_cap output_size ->
           (w', h') = (w, h))
       /\ Z.abs (w' * h - h' * w) <= Z.max w h.
Proof.
  intros Hopen Hw Hh.
  destruct (sketch_size image_file sketch_style sketch_depth output_size rng
              image Hopen) as (sketch & rng' & Hrun & Hsize).
  exists sketch, rng'. split; [exact Hrun |].
  rewrite Hsize. clear Hrun Hsize. unfold size_cap.
  destruct (size image) as [w h]. cbn [fst snd] in Hw, Hh.
  destruct (dict_get size_map output_size None) as [n |] eqn:Hn.
  - pose proof (thumbnail_size_twice
                  (thumbnail_tie (1800, 1800) (w, h))
                  (thumbnail_tie (n, n)
                     (thumbnail_size (thumbnail_tie (1800, 1800) (w, h))
                        (1800, 1800) (w, h)))
                  n w h (size_map_values _ _ Hn) Hw Hh) as Hb.
    cbv zeta.
    destruct (thumbnail_size _ (n, n) _) as [w' h']. tauto.
  - pose proof (thumbnail_size_once (thumbnail_tie (1800, 1800) (w, h))
                  1800 w h ltac:(lia) Hw Hh) as Hb.
    cbv zeta.
    destruct (thumbnail_size _ (1800, 1800) _) as [w' h']. tauto.
Qed.

End OutputSize.

(** ** Failure *)

Example transposed_grain_raises :
  Checked.binary (blend_px (F.lit 85 100) (F.lit 15 100))
    (Array (2, 3) (repeat (F.of_Z32 0) 6)) (Array (3, 2) (repeat (F.of_Z32 0) 6))
  = inl ValueError.
Proof. reflexivity. Qed.

Example row_is_broadcast :
  Checked.binary F.add32
    (Array (2, 2) [F.of_Z32 1; F.of_Z32 2; F.of_Z32 3; F.of_Z32 4])
    (Array (1, 2) [F.of_Z32 10; F.of_Z32 20])
  = inr (Array (2, 2) [F.of_Z32 11; F.of_Z32 22; F.of_Z32 13; F.of_Z32 24]).
Proof. vm_compute. reflexivity. Qed.

Lemma broadcast_same (s : Z * Z) : Checked.broadcast_shapes s s = Some s.
Proof.
  destruct s as [rows cols]. unfold Checked.broadcast_shapes, Checked.broadcast_dim.
  cbn [fst snd]. now rewrite !Z.eqb_refl.
Qed.

Lemma binary_same_shape (f : F.float -> F.float -> F.float) (a b : ndarray F.float) :
  shape a = shape b -> Checked.binary f a b = inr (arr_map2 f a b).
Proof.
  intros Hs. unfold Checked.binary. rewrite <- Hs, broadcast_same.
  destruct (shape a) as [rows cols]. now rewrite decide_True by reflexivity.
Qed.

Section Failure.

Context `{Lib : Imaging}.

Lemma shape_asarray (im : Image Z) : shape (asarray im) = (snd (size im), fst (size im)).
Proof. unfold asarray. now destruct (size im) as [w h]. Qed.

Lemma same_size_same_shape (a b : Image Z) :
  size a = size b -> shape (asarray a) = shape (asarray b).
Proof. intros Hs. now rewrite !shape_asarray, Hs. Qed.

Lemma checked_dodge_blend (gray : Image Z) :
  Checked.dodge_blend gray = inr (dodge_blend gray).
Proof.
  unfold Checked.dodge_blend, dodge_blend. apply binary_same_shape.
  apply same_size_same_shape. now rewrite size_Image_filter.
Qed.

Lemma checked_grain_blend (sharp texture : Image Z) :
  size texture = size sharp ->
  Checked.grain_blend sharp texture = inr (grain_blend sharp texture).
Proof.
  intros Hs. unfold Checked.grain_blend, grain_blend.
  rewrite binary_same_shape; [reflexivity |].
  now apply same_size_same_shape.
Qed.

Lemma checked_style_artistic (gray luminance : Image Z) :
  size luminance = size gray ->
  Checked.style_artistic gray luminance = inr (style_artistic gray luminance).
Proof.
  intros Hs. unfold Checked.style_artistic, style_artistic.
  rewrite binary_same_shape; [reflexivity |].
  apply same_size_same_shape. unfold ImageOps_autocontrast. cbn [size].
  now rewrite !size_Image_filter.
Qed.

Lemma checked_style_dispatch (gray luminance : Image Z)
    (sketch_style sketch_depth : string) :
  size luminance = size gray ->
  Checked.style_dispatch gray luminance sketch_style sketch_depth
  = inr (style_dispatch gray luminance sketch_style sketch_depth).
Proof.
  intros Hs. unfold Checked.style_dispatch, style_dispatch.
  destruct (String.eqb sketch_style "trace"); [reflexivity |].
  destruct (String.eqb sketch_style "artistic"); [| reflexivity].
  now rewrite checked_style_artistic.
Qed.

Lemma checked_depth_shade (gray : Image Z) (sketch : Image rgb) (sketch_depth : string) :
  size sketch = size gray ->
  Checked.depth_shade gray sketch sketch_depth
  = inr (depth_shade gray sketch sketch_depth).
Proof.
  intros Hs. unfold Checked.depth_shade, depth_shade.
  destruct (F.ltb _ _); [| reflexivity].
  unfold Checked.shade_with, shade_with.
  rewrite binary_same_shape; [reflexivity |].
  apply same_size_same_shape. unfold convert_L, ImageOps_autocontrast. cbn [size].
  now rewrite size_Image_filter.
Qed.

Lemma checked_pencil_sketch (image_file : list Byte.byte)
    (sketch_style sketch_depth output_size : string) (rng : rng_state) :
  Checked._pencil_sketch image_file sketch_style sketch_depth output_size rng
  = _pencil_sketch image_file sketch_style sketch_depth output_size rng.
Proof.
  unfold Checked._pencil_sketch, _pencil_sketch.
  destruct (Image_open_RGB image_file) as [e | image]; [reflexivity |].
  set (gray := tone_base (thumbnail image (1800, 1800))).
  rewrite checked_dodge_blend.
  pose proof (size_grain_texture (size (sharpen (dodge_blend gray))) rng) as Htex.
  destruct (grain_texture _ rng) as [texture rng']. cbn [fst] in Htex.
  rewrite (checked_grain_blend _ _ Htex).
  set (luminance := convert_L (grain_blend (sharpen (dodge_blend gray)) texture)).
  assert (Hlum : size luminance = size gray).
  { unfold luminance, convert_L. cbn [size].
    now rewrite size_grain_blend, size_sharpen_dodge. }
  rewrite (checked_style_dispatch _ _ _ _ Hlum).
  pose proof (size_style_dispatch gray luminance sketch_style sketch_depth Hlum) as Hst.
  destruct (style_dispatch gray luminance sketch_style sketch_depth) as [sketch d].
  cbn [fst] in Hst.
  now rewrite (checked_depth_shade _ _ _ Hst).
Qed.


End Failure.

(** ** Text of names *)

Lemma append_nil (s : string) : ("" ++ s)%string = s.
Proof. reflexivity. Qed.

Lemma append_cons (a : ascii) (s t : string) :
  (String a s ++ t)%string = String a (s ++ t)%string.
Proof. reflexivity. Qed.

Lemma split_nonempty sep s : Str.split sep s <> [].
Proof.
  destruct s as [| a rest]; cbn; [discriminate |].
  destruct (Ascii.eqb a sep); [discriminate |].
  destruct (Str.split sep rest); discriminate.
Qed.

Lemma split_no_sep sep s : Str.contains sep s = false -> Str.split sep s = [s].
Proof.
  induction s as [| a rest IH]; cbn; [reflexivity |].
  intros H. apply orb_false_iff in H as [Ha Hr].
  rewrite Ha, (IH Hr). reflexivity.
Qed.

Lemma split_app sep (a b : string) :
  Str.split sep (a ++ String sep b) = (Str.split sep a ++ Str.split sep b)%list.
Proof.
  induction a as [| c a IH]; rewrite ?append_nil, ?append_cons; cbn.
  - now rewrite Ascii.eqb_refl.
  - destruct (Ascii.eqb c sep); [now rewrite IH |].
    rewrite IH. pose proof (split_nonempty sep a) as Hne.
    destruct (Str.split sep a) as [| part parts]; [congruence | reflexivity].
Qed.

Lemma join_split sep s : Str.join sep (Str.split sep s) = s.
Proof.
  induction s as [| a rest IH]; cbn; [reflexivity |].
  destruct (Ascii.eqb a sep) eqn:Ha.
  - apply Ascii.eqb_eq in Ha as ->.
    pose proof (split_nonempty sep rest) as Hne.
    destruct (Str.split sep rest) as [| part parts] eqn:Hs; [congruence |].
    cbn [Str.join] in *. cbn. now rewrite IH.
  - pose proof (split_nonempty sep rest) as Hne.
    destruct (Str.split sep rest) as [| part parts] eqn:Hs; [congruence |].
    destruct parts as [| part' parts]; cbn in *; now rewrite <- IH.
Qed.

Lemma contains_app c (a b : string) :
  Str.contains c (a ++ b) = Str.contains c a || Str.contains c b.
Proof.
  induction a as [| x a IH]; rewrite ?append_nil, ?append_cons; cbn;
    [reflexivity |].
  now rewrite IH, orb_assoc.
Qed.

Lemma split_parts_no_sep sep s :
  Forall (fun part => Str.contains sep part = false) (Str.split sep s).
Proof.
  induction s as [| a rest IH]; cbn.
  - now constructor.
  - destruct (Ascii.eqb a sep) eqn:Ha.
    + now constructor.
    + pose proof (split_nonempty sep rest) as Hne.
      destruct (Str.split sep rest) as [| part parts]; [congruence |].
      inversion IH; subst. constructor; [| assumption].
      cbn. now rewrite Ha.
Qed.

Lemma split_parts_keep c sep s :
  Str.contains c s = false ->
  Forall (fun part => Str.contains c part = false) (Str.split sep s).
Proof.
  induction s as [| a rest IH]; cbn.
  - now constructor.
  - intros H. apply orb_false_iff in H as [Ha Hr]. specialize (IH Hr).
    destruct (Ascii.eqb a sep).
    + now constructor.
    + pose proof (split_nonempty sep rest) as Hne.
      destruct (Str.split sep rest) as [| part parts]; [congruence |].
      inversion IH; subst. constructor; [| assumption].
      cbn. now rewrite Ha.
Qed.

Lemma last_Forall {A} (P : A -> Prop) (l : list A) (d : A) :
  l <> [] -> Forall P l -> P (List.last l d).
Proof.
  induction l as [| x l IH]; [congruence |]. intros _ H.
  inversion H; subst. destruct l as [| y l]; [assumption |].
  apply IH; [discriminate | assumption].
Qed.

Lemma basename_no_slash sep s :
  Str.contains sep (List.last (Str.split sep s) "") = false.
Proof.
  apply (last_Forall (fun part => Str.contains sep part = false)).
  - apply split_nonempty.
  - apply split_parts_no_sep.
Qed.

Lemma join_keep c sep parts :
  Ascii.eqb sep c = false ->
  Forall (fun part => Str.contains c part = false) parts ->
  Str.contains c (Str.join sep parts) = false.
Proof.
  intros Hsep. induction 1 as [| part parts Hp Hall IH]; [reflexivity |].
  destruct parts as [| part' parts]; [assumption |].
  change (Str.join sep (part :: part' :: parts))
    with (part ++ String sep (Str.join sep (part' :: parts)))%string.
  rewrite contains_app, Hp. cbn [Str.contains orb]. now rewrite Hsep, IH.
Qed.

Lemma append_assoc (a b c : string) : ((a ++ b) ++ c)%string = (a ++ (b ++ c))%string.
Proof.
  induction a as [| x a IH]; rewrite ?append_nil, ?append_cons; [reflexivity |].
  now rewrite IH.
Qed.

Lemma last_split_app sep (a b : string) :
  Str.contains sep b = false ->
  List.last (Str.split sep (a ++ String sep b)) ""%string = b.
Proof.
  intros Hb. rewrite split_app, (split_no_sep _ _ Hb). apply last_last.
Qed.

Lemma rsplit1_app sep (stem ext : string) :
  Str.contains sep ext = false ->
  Str.rsplit1 sep (stem ++ String sep ext) = [stem; ext].
Proof.
  intros Hext. unfold Str.rsplit1.
  rewrite split_app, (split_no_sep _ _ Hext).
  pose proof (split_nonempty sep stem) as Hne.
  pose proof (join_split sep stem) as Hj.
  destruct (Str.split sep stem) as [| part parts] eqn:Hs; [congruence |].
  change ((part :: parts) ++ [ext])%list with (part :: (parts ++ [ext]))%list.
  destruct (parts ++ [ext])%list as [| y l] eqn:Hl.
  { destruct parts; discriminate. }
  rewrite <- Hl.
  change (part :: (parts ++ [ext]))%list with ((part :: parts) ++ [ext])%list.
  now rewrite removelast_last, last_last, Hj.
Qed.

Lemma rsplit1_no_sep sep (s : string) :
  Str.contains sep s = false -> Str.rsplit1 sep s = [s].
Proof. intros H. unfold Str.rsplit1. now rewrite (split_no_sep _ _ H). Qed.

(** X1: the archive name of a stored sketch.  [download_all] names an
    entry by what follows the last "/" of the stored name; for a name
    built by [sketch_path] that is the time stamp, "_" and the file
    name given at upload, whatever the user id, as long as neither holds
    a "/". *)
Theorem archive_name_of_stored_sketch (user_id timestamp filename : string) :
  Str.contains "/" timestamp = false -> Str.contains "/" filename = false ->
  List.last (Str.split "/" (sketch_path user_id timestamp filename)) ""%string
  = (timestamp ++ "_" ++ filename)%string.
Proof.
  intros Ht Hf. unfold sketch_path.
  change ("/" ++ timestamp ++ "_" ++ filename)%string
    with (String "/" (timestamp ++ "_" ++ filename))%string.
  rewrite <- append_assoc. apply last_split_app.
  rewrite !contains_app, Ht, Hf. reflexivity.
Qed.

(** X2: the name of a resized entry.  Only the last extension is
    dropped and "_<size code>.png" is appended: "a.b.png" becomes
    "a.b_sm.png"; a name with no dot keeps all of its text. *)
Theorem sized_name_replaces_extension (size_code stem ext : string) :
  Str.contains "." ext = false ->
  sized_name size_code (stem ++ "." ++ ext) = (stem ++ "_" ++ size_code ++ ".png")%string
  /\ sized_name size_code ext = (ext ++ "_" ++ size_code ++ ".png")%string.
Proof.
  intros Hext. unfold sized_name. split.
  - change ("." ++ ext)%string with (String "." ext).
    now rewrite (rsplit1_app _ _ _ Hext).
  - now rewrite (rsplit1_no_sep _ _ Hext).
Qed.

(** ** The dashboard list and the export selection *)

Section Selection.

Context `{Lib : Imaging} `{Web : Site}.

Local Open Scope string_scope.
Local Open Scope Z_scope.

Lemma fetch_In (table : list SketchWork) (qs : QuerySet) (work : SketchWork) :
  In work (fetch table qs)
  <-> In work table /\ forallb (fun c => c work) (conditions qs) = true.
Proof.
  unfold fetch.
  rewrite <- (filter_In (fun work => forallb (fun c => c work) (conditions qs))).
  destruct (ordered qs); [| reflexivity].
  split; apply Permutation_in;
    [| apply Permutation_sym]; apply order_by_permutes.
Qed.

Lemma download_rows_shape (table : list SketchWork) (request_user : Z)
    (GET : gmap string string) :
  exists more,
    download_rows table request_user GET
    = fetch table {| conditions := (fun work => user work =? request_user) :: more;
                     ordered := true |}.
Proof.
  unfold download_rows, qs_order_by, qs_filter, objects. cbn [conditions ordered app].
  destruct (Str.truthy _);
    destruct (GET !! "start_date") as [s1 |]; try destruct (Str.truthy s1);
    try destruct (fromisoformat s1);
    destruct (GET !! "end_date") as [s2 |]; try destruct (Str.truthy s2);
    try destruct (fromisoformat s2);
    cbn [conditions ordered app]; eexists; reflexivity.
Qed.

Lemma recent_is_take (table : list SketchWork) (request_user : Z)
    (GET : gmap string string) :
  dashboard_recent table request_user GET
  = take 30 (download_rows table request_user GET).
Proof. reflexivity. Qed.

Lemma download_rows_own (table : list SketchWork) (request_user : Z)
    (GET : gmap string string) (work : SketchWork) :
  In work (download_rows table request_user GET) ->
  In work table /\ user work = request_user.
Proof.
  destruct (download_rows_shape table request_user GET) as [more ->].
  rewrite fetch_In. cbn [conditions forallb].
  intros [Hin Hc]. apply andb_true_iff in Hc as [Hu _].
  split; [assumption | lia].
Qed.

Lemma download_rows_sorted (table : list SketchWork) (request_user : Z)
    (GET : gmap string string) :
  StronglySorted (fun a b => created_at b <= created_at a)
    (download_rows table request_user GET).
Proof.
  destruct (download_rows_shape table request_user GET) as [more ->].
  unfold fetch. cbn [ordered]. apply order_by_sorted.
Qed.

Lemma In_take {A} (n : nat) (l : list A) (x : A) : In x (take n l) -> In x l.
Proof.
  rewrite <- !list_elem_of_In. intros H.
  rewrite <- (take_drop n l). apply elem_of_app. now left.
Qed.

(** X3: whatever the query parameters, the dashboard lists at most 30
    rows, and every row the dashboard lists or the export selects is a
    row of the table that belongs to the requesting user. *)
Theorem views_show_own_sketches_only (table : list SketchWork) (request_user : Z)
    (GET : gmap string string) :
  (length (dashboard_recent table request_user GET) <= 30)%nat
  /\ Forall (fun work => In work table /\ user work = request_user)
       (dashboard_recent table request_user GET)
  /\ Forall (fun work => In work table /\ user work = request_user)
       (download_rows table request_user GET).
Proof.
  rewrite recent_is_take. split; [| split].
  - rewrite length_take. lia.
  - apply List.Forall_forall. intros work Hin.
    eapply download_rows_own, In_take, Hin.
  - apply List.Forall_forall. intros work Hin.
    eapply download_rows_own, Hin.
Qed.

(** X4: the dashboard and the export build the same query, as the
    comment on line 255 promises: under the same parameters every sketch
    on the dashboard list is in the export, and when the export selects
    at most 30 sketches the dashboard lists all of them. *)
Theorem dashboard_is_part_of_export (table : list SketchWork) (request_user : Z)
    (GET : gmap string string) :
  (forall work, In work (dashboard_recent table request_user GET) ->
                In work (download_rows table request_user GET))
  /\ ((length (download_rows table request_user GET) <= 30)%nat ->
      Permutation (dashboard_recent table request_user GET)
        (download_rows table request_user GET)).
Proof.
  rewrite recent_is_take. split.
  - intros work. apply In_take.
  - intros Hlen. now rewrite take_ge by exact Hlen.
Qed.

(** X5: the dashboard shows the newest matches: a matching sketch
    that is left off the list is not newer than any sketch on it. *)
Theorem dashboard_shows_newest (table : list SketchWork) (request_user : Z)
    (GET : gmap string string) (shown hidden : SketchWork) :
  In shown (dashboard_recent table request_user GET) ->
  In hidden (download_rows table request_user GET) ->
  ~ In hidden (dashboard_recent table request_user GET) ->
  created_at hidden <= created_at shown.
Proof.
  rewrite recent_is_take. intros Hs Hh Hn.
  pose proof (download_rows_sorted table request_user GET) as Hsorted.
  rewrite <- (take_drop 30 (download_rows table request_user GET)) in Hsorted, Hh.
  apply in_app_or in Hh as [Hh | Hh]; [contradiction |].
  apply (StronglySorted_app_1_elem_of _ _ _ shown hidden Hsorted);
    now apply list_elem_of_In.
Qed.

(** X6: a start or end date that [datetime.fromisoformat] rejects is
    ignored (the [ValueError] is swallowed): both views select what they
    select when the parameter is absent. *)
Theorem invalid_date_is_ignored (table : list SketchWork) (request_user : Z)
    (GET : gmap string string) (text : string) :
  fromisoformat text = None ->
  dashboard_recent table request_user (<["start_date" := text]> GET)
  = dashboard_recent table request_user (delete "start_date" GET)
  /\ dashboard_recent table request_user (<["end_date" := text]> GET)
     = dashboard_recent table request_user (delete "end_date" GET)
  /\ download_rows table request_user (<["start_date" := text]> GET)
     = download_rows table request_user (delete "start_date" GET)
  /\ download_rows table request_user (<["end_date" := text]> GET)
     = download_rows table request_user (delete "end_date" GET).
Proof.
  intros Hbad. rewrite !recent_is_take.
  assert (H1 : download_rows table request_user (<["start_date" := text]> GET)
               = download_rows table request_user (delete "start_date" GET)).
  { unfold download_rows, dict_get.
    rewrite lookup_insert_eq, lookup_delete_eq.
    rewrite !lookup_insert_ne, !lookup_delete_ne by discriminate.
    rewrite Hbad. now destruct (Str.truthy text). }
  assert (H2 : download_rows table request_user (<["end_date" := text]> GET)
               = download_rows table request_user (delete "end_date" GET)).
  { unfold download_rows, dict_get.
    rewrite lookup_insert_eq, lookup_delete_eq.
    rewrite !lookup_insert_ne, !lookup_delete_ne by discriminate.
    rewrite Hbad. now destruct (Str.truthy text). }
  now rewrite H1, H2.
Qed.

(** X7: a search text that is blank after [strip] filters nothing:
    both views select what they select without the parameter. *)
Theorem blank_search_is_ignored (table : list SketchWork) (request_user : Z)
    (GET : gmap string string) (q : string) :
  strip q = "" ->
  dashboard_recent table request_user (<["q" := q]> GET)
  = dashboard_recent table request_user (delete "q" GET)
  /\ download_rows table request_user (<["q" := q]> GET)
     = download_rows table request_user (delete "q" GET).
Proof.
  intros Hblank. rewrite !recent_is_take.
  assert (H1 : download_rows table request_user (<["q" := q]> GET)
               = download_rows table request_user (delete "q" GET)).
  { unfold download_rows, dict_get.
    rewrite lookup_insert_eq, lookup_delete_eq.
    rewrite !lookup_insert_ne, !lookup_delete_ne by discriminate.
    now rewrite Hblank, strip_empty. }
  now rewrite H1.
Qed.

(** X8: when both dates are given and parse, every sketch exported
    or listed was created on a day from the start day to the end day,
    both included. *)
Theorem date_window_is_honoured (table : list SketchWork) (request_user : Z)
    (GET : gmap string string) (start_text end_text : string) (dt1 dt2 : Z) :
  GET !! "start_date" = Some start_text -> start_text <> "" ->
  fromisoformat start_text = Some dt1 ->
  GET !! "end_date" = Some end_text -> end_text <> "" ->
  fromisoformat end_text = Some dt2 ->
  Forall (fun work => date dt1 <= created_at__date (created_at work) <= date dt2)
    (download_rows table request_user GET)
  /\ Forall (fun work => date dt1 <= created_at__date (created_at work) <= date dt2)
       (dashboard_recent table request_user GET).
Proof.
  intros Hs Hs' Hd1 He He' Hd2.
  assert (Hrows : forall work, In work (download_rows table request_user GET) ->
                    date dt1 <= created_at__date (created_at work) <= date dt2).
  { intros work. unfold download_rows. rewrite Hs, He, Hd1, Hd2.
    assert (Ht : forall s, s <> "" -> Str.truthy s = true).
    { intros s Hne. unfold Str.truthy. destruct (String.eqb_spec s ""); cbn; congruence. }
    rewrite (Ht _ Hs'), (Ht _ He'). rewrite fetch_In.
    intros [_ Hc]. destruct (Str.truthy _);
      cbn [conditions qs_order_by qs_filter objects app forallb ordered] in Hc;
      rewrite !andb_true_iff in Hc; lia. }
  split; apply List.Forall_forall; intros work Hin; apply Hrows; [assumption |].
  rewrite recent_is_take in Hin. eapply In_take, Hin.
Qed.

(** X9: without search text and dates the export selects every sketch
    of the requesting user, each as often as the table holds it. *)
Theorem export_without_filters_is_complete (table : list SketchWork)
    (request_user : Z) (GET : gmap string string) :
  GET !! "q" = None -> GET !! "start_date" = None -> GET !! "end_date" = None ->
  Permutation (download_rows table request_user GET)
    (List.filter (fun work => user work =? request_user) table).
Proof.
  intros Hq Hs He. unfold download_rows, dict_get. rewrite Hq, Hs, He, strip_empty.
  cbn. unfold fetch. cbn [ordered conditions qs_order_by qs_filter objects app].
  etransitivity; [apply order_by_permutes |].
  erewrite filter_ext; [reflexivity |].
  intros work. cbn. now rewrite andb_true_r.
Qed.

End Selection.

(** ** The archive *)

Lemma download_size_map_same : download_size_map = size_map.
Proof. reflexivity. Qed.

Lemma resizing_code_cap (size_code : string) :
  In size_code resizing_codes
  <-> exists n, dict_get download_size_map size_code None = Some n.
Proof.
  unfold resizing_codes, dict_get, download_size_map.
  rewrite !lookup_insert, lookup_empty. cbn [In].
  repeat case_decide; subst; split;
    try (intros [n Hn]; discriminate Hn);
    try (intros _; eexists; reflexivity);
    try (intros; tauto);
    try (intros [? | [? | [? | [? | []]]]]; congruence).
Qed.

Lemma resizing_code_truthy (size_code : string) (n : Z) :
  dict_get download_size_map size_code None = Some n ->
  truthy (Some n) = true /\ 0 < n.
Proof.
  rewrite download_size_map_same. intros Hn.
  destruct (size_map_values _ _ Hn) as [-> | [-> | [-> | ->]]]; cbn; split; reflexivity || lia.
Qed.

Lemma not_resizing_code (size_code : string) :
  ~ In size_code resizing_codes ->
  dict_get download_size_map size_code None = None.
Proof.
  intros Hno. destruct (dict_get download_size_map size_code None) as [n |] eqn:Hn;
    [| reflexivity].
  exfalso. apply Hno, resizing_code_cap. now exists n.
Qed.

Lemma resizing_code_no_slash (size_code : string) :
  In size_code resizing_codes -> Str.contains "/" size_code = false.
Proof. intros [<- | [<- | [<- | [<- | []]]]]; reflexivity. Qed.

Lemma Forall_removelast {A} (P : A -> Prop) (l : list A) :
  Forall P l -> Forall P (removelast l).
Proof.
  induction 1 as [| x l Hx Hl IH]; [constructor |].
  destruct l as [| y l]; [constructor |].
  change (removelast (x :: y :: l)) with (x :: removelast (y :: l)).
  now constructor.
Qed.

Lemma stem_keeps (c sep : ascii) (s : string) :
  Ascii.eqb sep c = false -> Str.contains c s = false ->
  Str.contains c (hd ""%string (Str.rsplit1 sep s)) = false.
Proof.
  intros Hsep Hs. unfold Str.rsplit1.
  pose proof (split_parts_keep c sep s Hs) as Hall.
  destruct (Str.split sep s) as [| part [| part' parts]]; [assumption | assumption |].
  cbn [hd]. apply join_keep; [assumption |]. now apply Forall_removelast.
Qed.

Section Archive.

Context `{Lib : Imaging} `{Web : Site}.

Local Open Scope string_scope.
Local Open Scope Z_scope.

Lemma resize_not_needed (size_code : string) (image_file : list Byte.byte)
    (filename : string) :
  _resize_if_needed size_code None image_file filename = inr (filename, image_file).
Proof. reflexivity. Qed.

Lemma resize_needed (size_code : string) (n : Z) (image_file : list Byte.byte)
    (filename : string) :
  dict_get download_size_map size_code None = Some n ->
  _resize_if_needed size_code (Some n) image_file filename
  = match Image_open_RGB image_file with
    | inl e => inl e
    | inr img => inr (sized_name size_code filename, save_png (thumbnail img (n, n)))
    end.
Proof.
  intros Hn. destruct (resizing_code_truthy _ _ Hn) as [Ht _].
  unfold _resize_if_needed. now rewrite Ht.
Qed.

Lemma write_entries_originals (files : gmap string (list Byte.byte))
    (size_code : string) (rows : list SketchWork) :
  forall zf,
  write_entries files size_code None rows zf
  = if forallb (fun work => bool_decide (is_Some (files !! sketch_image work))) rows
    then inr (zf ++ map (fun work =>
                           (List.last (Str.split "/" (sketch_image work)) "",
                            default [] (files !! sketch_image work))) rows)%list
    else inl FileNotFoundError.
Proof.
  induction rows as [| work rest IH]; intros zf; cbn [write_entries forallb map].
  - now rewrite app_nil_r.
  - destruct (files !! sketch_image work) as [bytes |] eqn:Hf.
    + rewrite resize_not_needed, IH.
      rewrite bool_decide_eq_true_2 by (now exists bytes). cbn [andb default].
      now rewrite <- app_assoc.
    + rewrite bool_decide_eq_false_2; [reflexivity |]. now intros [? ?].
Qed.

(** X10: when the size parameter is absent, "orig" or not a size
    code, no file is decoded: the archive has one entry per selected
    row, in order, named by the last path component and holding the
    stored bytes unchanged; the export fails, with no archive, exactly
    when a selected row has no stored file. *)
Theorem export_of_originals (table : list SketchWork)
    (files : gmap string (list Byte.byte)) (request_user : Z)
    (GET : gmap string string) :
  ~ In (dict_get GET "size" "orig") resizing_codes ->
  download_all table files request_user GET
  = let rows := download_rows table request_user GET in
    if forallb (fun work => bool_decide (is_Some (files !! sketch_image work))) rows
    then inr (map (fun work =>
                     (List.last (Str.split "/" (sketch_image work)) "",
                      default [] (files !! sketch_image work))) rows)
    else inl FileNotFoundError.
Proof.
  intros Hno. unfold download_all.
  rewrite (not_resizing_code _ Hno). apply write_entries_originals.
Qed.

Lemma write_entries_resized (files : gmap string (list Byte.byte))
    (size_code : string) (n : Z) (rows : list SketchWork) :
  dict_get download_size_map size_code None = Some n ->
  forall zf entries,
  write_entries files size_code (Some n) rows zf = inr entries ->
  exists added,
    entries = (zf ++ added)%list
    /\ Forall2 (fun work entry =>
                  exists bytes img,
                    files !! sketch_image work = Some bytes
                    /\ Image_open_RGB bytes = inr img
                    /\ entry = (sized_name size_code
                                  (List.last (Str.split "/" (sketch_image work)) ""),
                                save_png (thumbnail img (n, n))))
         rows added.
Proof.
  intros Hn. induction rows as [| work rest IH]; intros zf entries;
    cbn [write_entries].
  - intros [= <-]. exists []. rewrite app_nil_r. split; [reflexivity | constructor].
  - destruct (files !! sketch_image work) as [bytes |] eqn:Hf; [| discriminate].
    rewrite (resize_needed _ _ _ _ Hn).
    destruct (Image_open_RGB bytes) as [e | img] eqn:Ho; [discriminate |].
    intros Hrun. destruct (IH _ _ Hrun) as (added & -> & Hall).
    eexists (_ :: added). split; [now rewrite <- app_assoc |].
    constructor; [| exact Hall]. now exists bytes, img.
Qed.


Lemma write_entries_succeeds (files : gmap string (list Byte.byte))
    (size_code : string) (target_max : option Z) (rows : list SketchWork) :
  target_max = dict_get download_size_map size_code None ->
  forall zf,
  (exists entries, write_entries files size_code target_max rows zf = inr entries)
  <-> Forall (fun work =>
                exists bytes,
                  files !! sketch_image work = Some bytes
                  /\ (In size_code resizing_codes ->
                      exists img, Image_open_RGB bytes = inr img)) rows.
Proof.
  intros Htm. induction rows as [| work rest IH]; intros zf; cbn [write_entries].
  - split; [constructor | now eexists].
  - destruct (files !! sketch_image work) as [bytes |] eqn:Hf.
    2:{ split; [intros [? [=]] |]. intros H. inversion H as [| ? ? Hx _].
        destruct Hx as [b [Hb _]]. congruence. }
    destruct target_max as [n |].
    + symmetry in Htm. rewrite (resize_needed _ _ _ _ Htm).
      assert (Hcode : In size_code resizing_codes).
      { apply resizing_code_cap. now exists n. }
      destruct (Image_open_RGB bytes) as [e | img] eqn:Ho.
      * split; [intros [? [=]] |]. intros H.
        inversion H as [| ? ? Hx _]. destruct Hx as [b [Hb Hd]].
        assert (b = bytes) as -> by congruence.
        destruct (Hd Hcode) as [img Hi]. congruence.
      * rewrite IH. split.
        -- intros Hall. constructor; [| exact Hall].
           exists bytes. split; [exact Hf |]. intros _. now exists img.
        -- intros H. now inversion H.
    + rewrite resize_not_needed, IH.
      assert (Hcode : ~ In size_code resizing_codes).
      { intros Hc. apply resizing_code_cap in Hc as [n Hn]. congruence. }
      split.
      * intros Hall. constructor; [| exact Hall].
        exists bytes. split; [exact Hf |]. intros Hc. contradiction.
      * intros H. now inversion H.
Qed.

(** X12: the export is all or nothing.  It returns an archive exactly
    when every selected row has a stored file and, if a resizing code
    was asked for, every one of these files decodes; one missing or
    damaged file makes the whole request fail. *)
Theorem export_succeeds_iff (table : list SketchWork)
    (files : gmap string (list Byte.byte)) (request_user : Z)
    (GET : gmap string string) :
  (exists entries, download_all table files request_user GET = inr entries)
  <-> Forall (fun work =>
                exists bytes,
                  files !! sketch_image work = Some bytes
                  /\ (In (dict_get GET "size" "orig") resizing_codes ->
                      exists img, Image_open_RGB bytes = inr img))
        (download_rows table request_user GET).
Proof. unfold download_all. now apply write_entries_succeeds. Qed.

Lemma write_entries_names (P : string -> Prop) (files : gmap string (list Byte.byte))
    (size_code : string) (target_max : option Z) (rows : list SketchWork) :
  (forall fh work out_name out_bytes,
     _resize_if_needed size_code target_max fh
       (List.last (Str.split "/" (sketch_image work)) "")
     = inr (out_name, out_bytes) -> P out_name) ->
  forall zf entries,
  Forall (fun entry => P (fst entry)) zf ->
  write_entries files size_code target_max rows zf = inr entries ->
  Forall (fun entry => P (fst entry)) entries.
Proof.
  intros Hname. induction rows as [| work rest IH]; intros zf entries Hzf;
    cbn [write_entries].
  - now intros [= <-].
  - destruct (files !! sketch_image work) as [bytes |]; [| discriminate].
    destruct (_resize_if_needed _ _ _ _) as [e | [out_name out_bytes]] eqn:Hr;
      [discriminate |].
    apply IH. apply Forall_app. split; [assumption |].
    constructor; [| constructor]. cbn. eapply Hname, Hr.
Qed.

(** X13: the archive is flat: no entry name holds a "/", whatever the
    stored names and the size parameter. *)
Theorem export_is_flat (table : list SketchWork)
    (files : gmap string (list Byte.byte)) (request_user : Z)
    (GET : gmap string string) (entries : list (string * list Byte.byte)) :
  download_all table files request_user GET = inr entries ->
  Forall (fun entry => Str.contains "/" (fst entry) = false) entries.
Proof.
  unfold download_all. intros Hrun.
  eapply (write_entries_names (fun name => Str.contains "/" name = false));
    [| | exact Hrun]; [| constructor].
  intros fh work out_name out_bytes.
  pose proof (basename_no_slash "/" (sketch_image work)) as Hbase.
  destruct (dict_get download_size_map _ None) as [n |] eqn:Hn.
  - rewrite (resize_needed _ _ _ _ Hn).
    destruct (Image_open_RGB fh) as [e | img]; [discriminate |].
    intros [= <- _]. unfold sized_name.
    rewrite !contains_app, stem_keeps by (reflexivity || assumption).
    rewrite (resizing_code_no_slash (dict_get GET "size" "orig"))
      by (apply resizing_code_cap; now exists n).
    reflexivity.
  - rewrite resize_not_needed. now intros [= <- _].
Qed.

(** X14: a resized entry fits its cap: the image saved has a long
    edge of at most [n], sides of at least one pixel that never exceed
    those of the stored image, a short side within one pixel of the
    exact scaled value, and is the stored image itself when that already
    fits. *)
Theorem resized_entry_fits (size_code : string) (n : Z)
    (image_file : list Byte.byte) (filename : string) (img : Image rgb) :
  dict_get download_size_map size_code None = Some n ->
  Image_open_RGB image_file = inr img ->
  0 < fst (size img) -> 0 < snd (size img) ->
  exists out,
    _resize_if_needed size_code (Some n) image_file filename
    = inr (sized_name size_code filename, save_png out)
    /\ let '(w, h) := size img in
       let '(w', h') := size out in
       Z.max w' h' <= n /\ 1 <= w' <= w /\ 1 <= h' <= h
       /\ Z.abs (w' * h - h' * w) <= Z.max w h
       /\ (w <= n -> h <= n -> out = img).
Proof.
  intros Hn Hopen Hw Hh. exists (thumbnail img (n, n)).
  rewrite (resize_needed _ _ _ _ Hn), Hopen. split; [reflexivity |].
  destruct (resizing_code_truthy _ _ Hn) as [_ Hpos].
  rewrite size_thumbnail.
  destruct (size img) as [w h] eqn:Hsz. cbn [fst snd] in Hw, Hh.
  pose proof (thumbnail_size_once (thumbnail_tie (n, n) (w, h)) n w h Hpos Hw Hh) as Hb.
  destruct (thumbnail_size _ (n, n) (w, h)) as [w' h'].
  destruct Hb as (Hw' & Hh' & Hmax & _ & Habs).
  repeat (split; [lia |]).
  intros Hwn Hhn. unfold thumbnail, preserve_aspect_ratio. rewrite Hsz.
  destruct (Z.leb_spec w n); [| lia]. destruct (Z.leb_spec h n); [| lia].
  reflexivity.
Qed.

(** X15: a sketch rendered with a size code that has a cap and later
    exported with a code whose cap is at least as large is not
    resampled: if the stored bytes decode to the sketch the pipeline
    returned, the entry holds the PNG of that very image.  (A sketch
    rendered with "orig" may be 1800 pixels long, more than any export
    cap, and is not covered.) *)
Theorem export_at_render_size_keeps_pixels (image_file : list Byte.byte)
    (sketch_style sketch_depth output_size : string) (rng rng' : rng_state)
    (image sketch : Image rgb) (n : Z)
    (size_code : string) (m : Z) (stored : list Byte.byte) (filename : string) :
  Image_open_RGB image_file = inr image ->
  0 < fst (size image) -> 0 < snd (size image) ->
  _pencil_sketch image_file sketch_style sketch_depth output_size rng
  = (inr sketch, rng') ->
  dict_get size_map output_size None = Some n ->
  n <= m ->
  dict_get download_size_map size_code None = Some m ->
  Image_open_RGB stored = inr sketch ->
  _resize_if_needed size_code (Some m) stored filename
  = inr (sized_name size_code filename, save_png sketch).
Proof.
  intros Hopen Hw Hh Hrun Hn Hcap Hm Hstored.
  rewrite (resize_needed _ _ _ _ Hm), Hstored.
  destruct (sketch_size image_file sketch_style sketch_depth output_size rng
              image Hopen) as (sketch0 & rng0 & Hrun0 & Hsize).
  rewrite Hrun in Hrun0. injection Hrun0 as <- <-.
  assert (Hfit : fst (size sketch) <= m /\ snd (size sketch) <= m).
  { rewrite Hsize, Hn. clear Hsize Hrun.
    destruct (size image) as [w h]. cbn [fst snd] in Hw, Hh.
    pose proof (thumbnail_size_twice
                  (thumbnail_tie (1800, 1800) (w, h))
                  (thumbnail_tie (n, n)
                     (thumbnail_size (thumbnail_tie (1800, 1800) (w, h))
                        (1800, 1800) (w, h)))
                  n w h (size_map_values _ _ Hn) Hw Hh) as Hb.
    cbv zeta. destruct (thumbnail_size _ (n, n) _) as [w' h']. cbn [fst snd]. lia. }
  unfold thumbnail, preserve_aspect_ratio.
  destruct (size sketch) as [w' h']. cbn [fst snd] in Hfit.
  destruct (Z.leb_spec w' m); [| lia]. destruct (Z.leb_spec h' m); [| lia].
  reflexivity.
Qed.
End Archive.

(** ** Sections and form choices *)

(** X16: [section] never fails: it hands the template the fallback
    "Hybrid Artistic Engine" with no items exactly for the slugs that
    are not one of its six keys. *)
Theorem section_fallback_iff (slug : string) :
  section slug
  = {| title := "Hybrid Artistic Engine"; lead := "Discover what you can create.";
       items := [] |}
  <-> ~ In slug section_slugs.
Proof.
  unfold section, sections, section_slugs.
  rewrite !lookup_insert, lookup_empty. cbn [In].
  repeat case_decide; subst; split; intros Hs;
    try discriminate Hs; try tauto; try reflexivity;
    try (intros [? | [? | [? | [? | [? | [? | []]]]]]]; congruence).
Qed.

(** X17: the form and the tables agree.  A depth that
    [UploadForm] accepts is a key of the strength table, a size it
    accepts is a key of both size tables, and conversely: after
    validation no lookup of the pipeline falls back to its default. *)
Theorem form_choices_match_tables (value : string) :
  (Forms.valid_value Forms.sketch_depth_choices value = true
   <-> is_Some (shade_table !! value))
  /\ (Forms.valid_value Forms.output_size_choices value = true
      <-> is_Some (size_map !! value))
  /\ (Forms.valid_value Forms.output_size_choices value = true
      <-> is_Some (download_size_map !! value)).
Proof.
  unfold Forms.valid_value, Forms.sketch_depth_choices, Forms.output_size_choices,
    shade_table, size_map, download_size_map.
  cbn [existsb fst]. rewrite !orb_false_r, !orb_true_iff, !String.eqb_eq.
  rewrite !lookup_insert, lookup_empty.
  repeat split; repeat case_decide; subst;
    try (intros _; eexists; reflexivity);
    try (intros [? Hx]; discriminate Hx);
    try (intros; tauto);
    try (intros [? | [? | [? | ?]]]; congruence);
    try (intros [? | [? | [? | [? | ?]]]]; congruence).
Qed.

Lemma fold_max_two_valued (l : list Z) :
  l <> [] -> Forall (fun v => v = 60 \/ v = 255) l ->
  (fold_right Z.max 0 l = 60 \/ fold_right Z.max 0 l = 255)
  /\ (fold_right Z.max 0 l = 60 <-> Forall (fun v => v = 60) l).
Proof.
  induction l as [| a l IH]; [congruence |]. intros _ Hall.
  inversion Hall as [| ? ? Ha Hl]; subst. cbn [fold_right].
  destruct l as [| b l].
  - cbn. split; [lia |]. split.
    + intros Hm. constructor; [lia | constructor].
    + intros H. inversion H; subst. lia.
  - destruct (IH ltac:(discriminate) Hl) as [Hv Hiff]. split; [lia |].
    split.
    + intros Hm. constructor; [lia |]. apply Hiff. lia.
    + intros H. inversion H as [| ? ? H1 H2]; subst.
      apply Hiff in H2. lia.
Qed.

Lemma getpixel_in_data (im : Image Z) (x y : Z) :
  0 < fst (size im) -> 0 < snd (size im) ->
  length (data im) = Z.to_nat (fst (size im) * snd (size im)) ->
  In (getpixel im x y) (data im).
Proof.
  unfold getpixel. destruct (size im) as [w h]. cbn [fst snd].
  intros Hw Hh Hlen. apply nth_In. rewrite Hlen. apply Z2Nat.inj_lt; nia.
Qed.

Lemma window_1_bounds (d : Z * Z) :
  In d (window 1) -> -1 <= fst d <= 1 /\ -1 <= snd d <= 1.
Proof.
  intros H.
  change (window 1)
    with [(-1, -1); (0, -1); (1, -1); (-1, 0); (0, 0); (1, 0);
          (-1, 1); (0, 1); (1, 1)] in H.
  cbn [In] in H.
  repeat (destruct H as [<- | H]; [cbn; lia |]). destruct H.
Qed.

(** ** More on the pipeline *)

Section Render.

Context `{Lib : Imaging}.

(** X18: the trace line image has two values.  On an edge array with
    as many samples as its shape says, every pixel of [trace_lines] is
    60 or 255, and it is 60 exactly when all nine pixels of its 3x3
    neighbourhood (border replicated) were 60 before the maximum
    filter. *)
Theorem trace_lines_two_valued (edges_arr : ndarray F.float) (x y : Z) :
  length (elems edges_arr)
  = Z.to_nat (fst (shape edges_arr) * snd (shape edges_arr)) ->
  0 <= x < snd (shape edges_arr) -> 0 <= y < fst (shape edges_arr) ->
  (getpixel (trace_lines edges_arr) x y = 60
   \/ getpixel (trace_lines edges_arr) x y = 255)
  /\ (getpixel (trace_lines edges_arr) x y = 60
      <-> forall dx dy, -1 <= dx <= 1 -> -1 <= dy <= 1 ->
            getpixel (fromarray (astype_uint8 (binarize edges_arr)))
              (x + dx) (y + dy) = 60).
Proof.
  intros Hlen Hx Hy. unfold trace_lines. cbn [Image_filter].
  set (line_img := fromarray (astype_uint8 (binarize edges_arr))) in *.
  assert (Hsize : size line_img = (snd (shape edges_arr), fst (shape edges_arr)))
    by apply binarize_size.
  rewrite getpixel_rank_max by (rewrite Hsize; cbn [fst snd]; lia).
  change (3 / 2) with 1.
  assert (Hpx : forall x' y', getpixel line_img x' y' = 60
                              \/ getpixel line_img x' y' = 255).
  { intros x' y'.
    assert (Hin : In (getpixel line_img x' y') (data line_img)).
    { apply getpixel_in_data; rewrite Hsize; cbn [fst snd]; try lia.
      unfold line_img. rewrite binarize_data, length_map, Hlen. f_equal. lia. }
    unfold line_img in Hin at 2. rewrite binarize_data in Hin.
    apply in_map_iff in Hin as (e & <- & _). destruct (F.leb _ e); auto. }
  unfold window_max.
  set (vals := map (fun d : Z * Z => getpixel line_img (x + fst d) (y + snd d))
                 (window 1)).
  assert (Hne : vals <> []) by (unfold vals; vm_compute; discriminate).
  assert (Hall : Forall (fun v => v = 60 \/ v = 255) vals).
  { unfold vals. apply List.Forall_forall. intros v Hv.
    apply in_map_iff in Hv as (d & <- & _). apply Hpx. }
  destruct (fold_max_two_valued vals Hne Hall) as [Htwo Hiff].
  split; [exact Htwo |]. rewrite Hiff. unfold vals. rewrite List.Forall_forall.
  split.
  - intros H dx dy Hdx Hdy.
    apply (H (getpixel line_img (x + dx) (y + dy))).
    apply (in_map (fun d : Z * Z => getpixel line_img (x + fst d) (y + snd d))
             _ (dx, dy)).
    now apply window_1_in.
  - intros H v Hv. apply in_map_iff in Hv as (d & <- & Hd).
    apply window_1_bounds in Hd as [Hdx Hdy]. now apply H.
Qed.

Lemma convert_RGB_gray (im : Image Z) : Forall is_gray (data (convert_RGB im)).
Proof.
  unfold convert_RGB. cbn [data]. apply List.Forall_forall. intros p Hp.
  apply in_map_iff in Hp as (v & <- & _). now split.
Qed.

Lemma output_scale_orig (sketch : Image rgb) (output_size : string) :
  ~ In output_size resizing_codes -> output_scale sketch output_size = sketch.
Proof.
  intros Hno. unfold output_scale. rewrite <- download_size_map_same.
  now rewrite (not_resizing_code _ Hno).
Qed.

(** X19: the sketch is gray.  When no final resize takes place,
    every pixel of the image [_pencil_sketch] returns has three equal
    channels, for every style and depth. *)
Theorem sketch_is_gray (image_file : list Byte.byte)
    (sketch_style sketch_depth output_size : string) (rng rng' : rng_state)
    (sketch : Image rgb) :
  ~ In output_size resizing_codes ->
  _pencil_sketch image_file sketch_style sketch_depth output_size rng
  = (inr sketch, rng') ->
  Forall is_gray (data sketch).
Proof.
  intros Hno. unfold _pencil_sketch.
  destruct (Image_open_RGB image_file) as [e | image]; [discriminate |].
  destruct (grain_texture _ rng) as [texture rng0].
  destruct (style_dispatch _ _ sketch_style sketch_depth) as [styled depth] eqn:Hst.
  rewrite (output_scale_orig _ _ Hno). intros [= <- _].
  unfold depth_shade. destruct (F.ltb _ _).
  - unfold shade_with. apply convert_RGB_gray.
  - unfold style_dispatch in Hst.
    destruct (String.eqb sketch_style "trace");
      [| destruct (String.eqb sketch_style "artistic")];
      injection Hst as <- _; apply convert_RGB_gray.
Qed.

(** X20: every render draws the grain once.  Whatever the style
    (also "trace", whose output does not use the grain), depth and size,
    a call that decodes its input leaves the generator as one draw of
    [h] x [w] normal samples leaves it, [w] x [h] being the size after
    the first thumbnail. *)
Theorem one_draw_per_render (image_file : list Byte.byte)
    (sketch_style sketch_depth output_size : string) (rng : rng_state)
    (image : Image rgb) :
  Image_open_RGB image_file = inr image ->
  snd (_pencil_sketch image_file sketch_style sketch_depth output_size rng)
  = let '(w, h) := thumbnail_size (thumbnail_tie (1800, 1800) (size image))
                     (1800, 1800) (size image) in
    snd (normal (F.lit 128 1) (F.lit 18 1) (h, w) rng).
Proof.
  intros Hopen. unfold _pencil_sketch. rewrite Hopen.
  rewrite size_sharpen_dodge, size_tone_base, size_thumbnail.
  destruct (thumbnail_size _ _ _) as [w h]. unfold grain_texture.
  destruct (normal _ _ (h, w) rng) as [samples rng0].
  now destruct (style_dispatch _ _ sketch_style sketch_depth).
Qed.

End Render.

Lemma flat_areas_checked : all_samples flat_ok = true.
Proof. vm_compute. reflexivity. Qed.

Section DodgeFlat.

Context `{Lib : Imaging}.

(** X21: the dodge whitens flat areas.  Where the radius-22 blur of
    the inverted image equals the inverted image (a flat image), the
    8-bit image stored on line 35 is 254 at every sample that is not
    black and 0 at black ones, whatever the gray level. *)
Theorem dodge_whitens_flat_image (gray : Image Z) :
  Forall (fun g => 0 <= g <= 255) (data gray) ->
  convolve (GaussianBlur 22) (size gray) (map (fun v => 255 - v) (data gray))
  = map (fun v => 255 - v) (data gray) ->
  data (fromarray (astype_uint8 (dodge_blend gray))) = map flat_dodge (data gray).
Proof.
  intros Hrange Hblur.
  unfold dodge_blend, fromarray, astype_uint8, arr_map2, asarray, Image_filter,
    ImageOps_invert. cbn [size data shape elems].
  rewrite Hblur. destruct (size gray) as [w h]. cbn [shape elems data].
  rewrite zip_with_fmap_l, !zip_with_fmap_r, zip_with_diag, <- list_fmap_compose.
  apply list_eq_Forall2, Forall2_fmap, Forall_Forall2_diag.
  eapply Forall_impl; [exact Hrange |]. intros g Hg. cbn.
  apply Z.eqb_eq. apply (all_samples_spec flat_ok g flat_areas_checked Hg).
Qed.
End DodgeFlat.

(** ** Depth and the distance from the unshaded sketch *)

(** *** Rounding to float32 *)

(** The number of binary digits of a mantissa. *)
Lemma digits2_pos_bounds (m : positive) :
  2 ^ (Z.pos (digits2_pos m) - 1) <= Z.pos m < 2 ^ Z.pos (digits2_pos m).
Proof.
  induction m as [m IH | m IH |]; cbn [digits2_pos].
  - rewrite Pos2Z.inj_succ, Z.pow_succ_r by lia.
    replace (Z.succ (Z.pos (digits2_pos m)) - 1) with (Z.succ (Z.pos (digits2_pos m) - 1)) by lia.
    rewrite Z.pow_succ_r by lia. lia.
  - rewrite Pos2Z.inj_succ, Z.pow_succ_r by lia.
    replace (Z.succ (Z.pos (digits2_pos m)) - 1) with (Z.succ (Z.pos (digits2_pos m) - 1)) by lia.
    rewrite Z.pow_succ_r by lia. lia.
  - cbn. lia.
Qed.

Lemma digits2_pos_unique (m : positive) (d : Z) :
  2 ^ (d - 1) <= Z.pos m < 2 ^ d -> Z.pos (digits2_pos m) = d.
Proof.
  intros [Hlo Hhi]. pose proof (digits2_pos_bounds m) as [Hlo' Hhi'].
  assert (0 < d).
  { destruct (Z.ltb_spec 0 d); [assumption |].
    assert (2 ^ d <= 2 ^ 0) by (destruct (Z.eq_dec d 0) as [-> | ?];
      [lia | rewrite Z.pow_neg_r by lia; cbn; lia]).
    cbn in *. lia. }
  assert (d - 1 < Z.pos (digits2_pos m)).
  { apply (Z.pow_lt_mono_r_iff 2); lia. }
  assert (Z.pos (digits2_pos m) - 1 < d).
  { apply (Z.pow_lt_mono_r_iff 2); lia. }
  lia.
Qed.

(** Shifting a mantissa right halves it. *)
Lemma shr_1_div mrs : 0 <= shr_m mrs -> shr_m (shr_1 mrs) = shr_m mrs / 2.
Proof.
  destruct mrs as [m r s]. cbn [shr_m].
  destruct m as [| p | p]; [reflexivity | | lia]. intros _.
  destruct p as [p | p |]; cbn [shr_1 shr_m].
  - rewrite Pos2Z.inj_xI. apply Z.div_unique with 1; lia.
  - rewrite Pos2Z.inj_xO. apply Z.div_unique with 0; lia.
  - reflexivity.
Qed.

Lemma iter_shr_1_div p : forall mrs,
  0 <= shr_m mrs ->
  shr_m (SpecFloat.iter_pos shr_1 p mrs) = shr_m mrs / 2 ^ Z.pos p.
Proof.
  induction p as [p IH | p IH |]; intros mrs Hm; cbn [SpecFloat.iter_pos].
  - rewrite IH, IH, shr_1_div by
      (try apply iter_shr_1_nonneg; try apply shr_1_nonneg; exact Hm).
    rewrite !Z.div_div by (try apply Z.pow_pos_nonneg; lia).
    f_equal. rewrite <- Z.pow_add_r, <- Z.pow_succ_r by lia. f_equal. lia.
  - rewrite IH, IH by (try apply iter_shr_1_nonneg; exact Hm).
    rewrite !Z.div_div by (try apply Z.pow_pos_nonneg; lia).
    f_equal. rewrite <- Z.pow_add_r by lia. f_equal. lia.
  - rewrite shr_1_div by exact Hm. reflexivity.
Qed.

(** Rounding to nearest, ties to even, moves the mantissa by 0 or 1. *)
Lemma round_nearest_even_cases m l :
  round_nearest_even m l = m \/ round_nearest_even m l = m + 1.
Proof.
  destruct l as [| []]; cbn [round_nearest_even]; auto.
  destruct (Z.even m); auto.
Qed.

Lemma fexp32 (x : Z) : fexp 24 128 x = Z.max (x - 24) (-149).
Proof. reflexivity. Qed.

(** Rounding a positive integer mantissa of at least 24 digits to
    float32 gives a normal number within half a unit in its last place. *)
Lemma binary_round32 (M : positive) (ez : Z) :
  let d := Z.pos (digits2_pos M) in
  24 <= d -> -149 <= ez -> d + ez <= 100 ->
  exists m' e',
    binary_round 24 128 false M ez = S754_finite false m' e'
    /\ 2 ^ 23 <= Z.pos m' < 2 ^ 24
    /\ ez <= e' <= ez + (d - 24) + 1
    /\ Z.abs (Z.pos m' * 2 ^ (e' - ez) - Z.pos M) <= 2 ^ (d - 24).
Proof.
  intros d Hd Hez Hov. pose proof (digits2_pos_bounds M) as HM. fold d in HM.
  unfold binary_round. rewrite fexp32. fold d.
  rewrite Z.max_l by lia.
  unfold shl_align.
  assert (Hsh : d + ez - 24 - ez = d - 24) by lia. rewrite Hsh.
  destruct (d - 24) as [| n | n] eqn:Hn; [| | lia].
  - (* exactly 24 digits *)
    assert (d = 24) by lia.
    unfold binary_round_aux, shr_fexp. cbn [Zdigits2]. fold d.
    rewrite fexp32, Z.max_l by lia.
    replace (d + ez - 24 - ez) with 0 by lia.
    cbn [shr shr_record_of_loc shr_m loc_of_shr_record round_nearest_even Zdigits2].
    fold d. rewrite fexp32, Z.max_l by lia.
    replace (d + ez - 24 - ez) with 0 by lia.
    cbn [shr shr_record_of_loc shr_m].
    destruct (Z.leb_spec ez (128 - 24)); [| lia].
    exists M, ez. split; [reflexivity |].
    replace (ez - ez) with 0 by lia. rewrite Z.pow_0_r, Z.mul_1_r, Z.sub_diag.
    replace (d - 1) with 23 in HM by lia. replace d with 24 in HM by lia.
    cbn [Z.abs]. repeat split; try lia.
  - (* more than 24 digits: shift right by n *)
    unfold binary_round_aux, shr_fexp. cbn [Zdigits2]. fold d.
    rewrite fexp32, Z.max_l by lia. rewrite Hsh.
    cbn [shr shr_record_of_loc].
    set (mrs := SpecFloat.iter_pos shr_1 n _).
    assert (Hq : shr_m mrs = Z.pos M / 2 ^ Z.pos n).
    { unfold mrs. rewrite iter_shr_1_div by (cbn; lia). reflexivity. }
    set (q := shr_m mrs) in *.
    assert (Hpow : 0 < 2 ^ Z.pos n) by (apply Z.pow_pos_nonneg; lia).
    assert (Hd' : d = Z.pos n + 24) by lia.
    assert (Hsplit : 2 ^ d = 2 ^ 24 * 2 ^ Z.pos n).
    { rewrite Hd', Z.pow_add_r by lia. lia. }
    assert (Hsplit' : 2 ^ (d - 1) = 2 ^ 23 * 2 ^ Z.pos n).
    { replace (d - 1) with (23 + Z.pos n) by lia. rewrite Z.pow_add_r by lia. lia. }
    pose proof (Z.div_mod (Z.pos M) (2 ^ Z.pos n) ltac:(lia)) as Hdm.
    pose proof (Z.mod_pos_bound (Z.pos M) (2 ^ Z.pos n) Hpow) as Hmb.
    rewrite <- Hq in Hdm.
    assert (Hqr : 2 ^ 23 <= q < 2 ^ 24) by nia.
    set (m1 := round_nearest_even q (loc_of_shr_record mrs)).
    assert (Hm1 : m1 = q \/ m1 = q + 1) by apply round_nearest_even_cases.
    destruct (Z.eq_dec m1 (2 ^ 24)) as [Hcarry | Hnc].
    + (* the mantissa carried to 2^24 *)
      rewrite Hcarry.
      change (2 ^ 24) with 16777216.
      change (Zdigits2 16777216) with 25. rewrite fexp32.
      rewrite Z.max_l by lia.
      replace (25 + (ez + Z.pos n) - 24 - (ez + Z.pos n)) with 1 by lia.
      cbn [shr SpecFloat.iter_pos shr_1 shr_record_of_loc shr_m].
      destruct (Z.leb_spec (ez + Z.pos n + 1) (128 - 24)); [| lia].
      exists 8388608%positive, (ez + Z.pos n + 1). split; [reflexivity |].
      split; [cbn; lia |]. split; [lia |].
      replace (ez + Z.pos n + 1 - ez) with (1 + Z.pos n) by lia.
      rewrite Z.pow_add_r by lia.
      change (2 ^ 24) with 16777216 in *. change (2 ^ 1) with 2.
      assert (q + 1 = 16777216) by lia.
      apply Z.abs_le. nia.
    + assert (Hm1r : 2 ^ 23 <= m1 < 2 ^ 24) by lia.
      destruct m1 as [| m1p | m1p] eqn:Em1; [cbn in Hm1r; lia | | lia].
      assert (Hdig : Z.pos (digits2_pos m1p) = 24).
      { apply digits2_pos_unique. exact Hm1r. }
      cbn [Zdigits2]. rewrite Hdig, fexp32, Z.max_l by lia.
      replace (24 + (ez + Z.pos n) - 24 - (ez + Z.pos n)) with 0 by lia.
      cbn [shr shr_record_of_loc shr_m].
      destruct (Z.leb_spec (ez + Z.pos n) (128 - 24)); [| lia].
      exists m1p, (ez + Z.pos n). split; [reflexivity |].
      split; [exact Hm1r |]. split; [lia |].
      replace (ez + Z.pos n - ez) with (Z.pos n) by lia.
      apply Z.abs_le. nia.
Qed.

(** Aligning the mantissa of the larger exponent. *)
Lemma pos_iter_xO (d : positive) : forall m,
  Z.pos (Pos.iter xO m d) = Z.pos m * 2 ^ Z.pos d.
Proof.
  induction d as [| d IH] using Pos.peano_ind; intros m.
  - cbn. lia.
  - rewrite Pos.iter_succ, Pos2Z.inj_xO, IH, Pos2Z.inj_succ, Z.pow_succ_r by lia. lia.
Qed.

Lemma shl_align_fst (mx : positive) (ex ez : Z) :
  ez <= ex -> Z.pos (fst (shl_align mx ex ez)) = Z.pos mx * 2 ^ (ex - ez).
Proof.
  intros Hle. unfold shl_align.
  destruct (ez - ex) as [| d | d] eqn:Hd; [| lia |]; cbn [fst].
  - replace (ex - ez) with 0 by lia. lia.
  - rewrite pos_iter_xO. f_equal. f_equal. lia.
Qed.

Lemma pow_split (a b : Z) : 0 <= a -> 0 <= b -> 2 ^ (a + b) = 2 ^ a * 2 ^ b.
Proof. intros. now rewrite Z.pow_add_r. Qed.

(** The float32 sum of two canonical numbers is within 2^-15 of their
    exact sum. *)
Lemma add32_enclosure (ma mb : positive) (ea eb : Z) :
  2 ^ 23 <= Z.pos ma < 2 ^ 24 -> 2 ^ 23 <= Z.pos mb < 2 ^ 24 ->
  -32 <= ea <= -16 -> -32 <= eb <= -16 ->
  exists m e,
    F.add32 (S754_finite false ma ea) (S754_finite false mb eb)
    = S754_finite false m e
    /\ 2 ^ 23 <= Z.pos m < 2 ^ 24 /\ -32 <= e <= -14
    /\ Z.abs (Z.pos m * 2 ^ (e + 32)
              - (Z.pos ma * 2 ^ (ea + 32) + Z.pos mb * 2 ^ (eb + 32))) <= 2 ^ 17.
Proof.
  intros Hma Hmb Hea Heb. unfold F.add32, SFadd. cbn [cond_Zopp].
  set (ez := Z.min ea eb).
  assert (Hez : -32 <= ez <= -16) by (unfold ez; lia).
  assert (Hla : ez <= ea) by (unfold ez; lia).
  assert (Hlb : ez <= eb) by (unfold ez; lia).
  pose proof (shl_align_fst ma ea ez Hla) as Ha.
  pose proof (shl_align_fst mb eb ez Hlb) as Hb.
  set (xa := fst (shl_align ma ea ez)) in *.
  set (xb := fst (shl_align mb eb ez)) in *.
  change (Z.pos xa + Z.pos xb) with (Z.pos (xa + xb)).
  cbn [binary_normalize].
  set (M := (xa + xb)%positive).
  assert (HM : Z.pos M = Z.pos ma * 2 ^ (ea - ez) + Z.pos mb * 2 ^ (eb - ez)).
  { unfold M. rewrite Pos2Z.inj_add. lia. }
  assert (Hpa : 1 <= 2 ^ (ea - ez) <= 2 ^ (-16 - ez)).
  { split; [apply (Z.pow_le_mono_r 2 0); lia | apply Z.pow_le_mono_r; lia]. }
  assert (Hpb : 1 <= 2 ^ (eb - ez) <= 2 ^ (-16 - ez)).
  { split; [apply (Z.pow_le_mono_r 2 0); lia | apply Z.pow_le_mono_r; lia]. }
  assert (Hup : Z.pos M < 2 ^ (9 - ez)).
  { replace (9 - ez) with (25 + (-16 - ez)) by lia.
    rewrite pow_split by lia. change (2 ^ 25) with (2 * 2 ^ 24). nia. }
  assert (Hlow : 2 ^ 23 <= Z.pos M) by nia.
  pose proof (digits2_pos_bounds M) as HdM.
  set (d := Z.pos (digits2_pos M)) in *.
  assert (Hd24 : 24 <= d).
  { assert (23 < d); [| lia]. apply (Z.pow_lt_mono_r_iff 2); lia. }
  assert (Hd9 : d + ez <= 9).
  { assert (d - 1 < 9 - ez); [| lia]. apply (Z.pow_lt_mono_r_iff 2); lia. }
  destruct (binary_round32 M ez Hd24 ltac:(lia) ltac:(fold d; lia))
    as (m & e & Hr & Hm & He & Hab).
  fold d in He, Hab.
  exists m, e. split; [exact Hr |]. split; [exact Hm |]. split; [lia |].
  assert (Hs1 : Z.pos m * 2 ^ (e + 32) = Z.pos m * 2 ^ (e - ez) * 2 ^ (ez + 32)).
  { replace (e + 32) with ((e - ez) + (ez + 32)) by lia.
    rewrite pow_split by lia. apply Z.mul_assoc. }
  assert (Hs2 : Z.pos ma * 2 ^ (ea + 32) + Z.pos mb * 2 ^ (eb + 32)
                = Z.pos M * 2 ^ (ez + 32)).
  { rewrite HM.
    replace (ea + 32) with ((ea - ez) + (ez + 32)) by lia.
    replace (eb + 32) with ((eb - ez) + (ez + 32)) by lia.
    rewrite (pow_split (ea - ez) (ez + 32)), (pow_split (eb - ez) (ez + 32)) by lia.
    generalize (2 ^ (ea - ez)) (2 ^ (eb - ez)) (2 ^ (ez + 32)). intros; ring. }
  rewrite Hs1, Hs2, <- Z.mul_sub_distr_r, Z.abs_mul.
  assert (Hp0 : 0 < 2 ^ (ez + 32)) by (apply Z.pow_pos_nonneg; lia).
  rewrite (Z.abs_eq (2 ^ (ez + 32))) by lia.
  assert (Hbound : 2 ^ (d - 24) * 2 ^ (ez + 32) <= 2 ^ 17).
  { rewrite <- pow_split by lia. apply Z.pow_le_mono_r; lia. }
  nia.
Qed.

Lemma scaled_div (m : positive) (e : Z) :
  -32 <= e < 0 -> Z.pos m * 2 ^ (e + 32) / 2 ^ 32 = Z.pos m / 2 ^ (- e).
Proof.
  intros He.
  replace (2 ^ 32) with (2 ^ (- e) * 2 ^ (e + 32))
    by (rewrite <- pow_split by lia; f_equal; lia).
  apply Z.div_mul_cancel_r; apply Z.pow_nonzero; lia.
Qed.

(** Clipping to [0, 255] and storing as 8 bits keeps the integer part,
    capped at 255. *)
Lemma to_uint8_clip (m : positive) (e : Z) :
  2 ^ 23 <= Z.pos m < 2 ^ 24 -> -32 <= e <= -14 ->
  F.to_uint8 (F.clip (S754_finite false m e) (F.of_Z32 0) (F.of_Z32 255))
  = Z.min 255 (Z.pos m * 2 ^ (e + 32) / 2 ^ 32).
Proof.
  intros Hm He. rewrite scaled_div by lia.
  change (F.of_Z32 0) with (S754_zero false).
  change (F.of_Z32 255) with (S754_finite false 16711680 (-16)).
  generalize 16711680%positive (eq_refl : Z.pos 16711680 = 255 * 2 ^ 16).
  intros top Htop.
  unfold F.clip, F.ltb, SFltb. cbn [SFcompare].
  assert (Htrunc : F.trunc (S754_finite false m e) = Z.pos m / 2 ^ (- e)).
  { unfold F.trunc. cbn [cond_Zopp]. destruct e as [| pe | pe]; [lia | lia |].
    rewrite Z.shiftr_div_pow2 by lia. reflexivity. }
  assert (Hhi : F.to_uint8 (S754_finite false top (-16)) = 255).
  { unfold F.to_uint8, F.trunc. cbn [cond_Zopp].
    rewrite Z.shiftr_div_pow2 by lia. rewrite Htop.
    rewrite Z.div_mul by (apply Z.pow_nonzero; lia). reflexivity. }
  assert (Hpe : 0 < 2 ^ (- e)) by (apply Z.pow_pos_nonneg; lia).
  destruct (Z.compare_spec (-16) e) as [Heq | Hlt | Hgt].
  - subst e. change (- -16) with 16 in *.
    change (Pos.compare_cont Eq top m) with (Z.compare (Z.pos top) (Z.pos m)).
    destruct (Z.compare_spec (Z.pos top) (Z.pos m)) as [Hc | Hc | Hc].
    + unfold F.to_uint8. rewrite Htrunc, <- Hc, Htop.
      rewrite Z.div_mul by (apply Z.pow_nonzero; lia). reflexivity.
    + rewrite Hhi. rewrite Htop in Hc.
      assert (255 <= Z.pos m / 2 ^ 16); [| lia].
      apply Z.div_le_lower_bound; lia.
    + unfold F.to_uint8. rewrite Htrunc. rewrite Htop in Hc.
      assert (Z.pos m / 2 ^ 16 <= 255).
      { apply Z.div_le_upper_bound; [lia |]. change (2 ^ 16) with 65536 in *. lia. }
      assert (0 <= Z.pos m / 2 ^ 16) by (apply Z.div_pos; lia).
      rewrite Z.mod_small by lia. lia.
  - rewrite Hhi.
    assert (256 <= Z.pos m / 2 ^ (- e)); [| lia].
    apply Z.div_le_lower_bound; [lia |].
    assert (2 ^ (- e) <= 2 ^ 15) by (apply Z.pow_le_mono_r; lia).
    change (2 ^ 23) with (256 * 2 ^ 15) in Hm. nia.
  - unfold F.to_uint8. rewrite Htrunc.
    assert (Z.pos m / 2 ^ (- e) < 128).
    { apply Z.div_lt_upper_bound; [lia |].
      assert (2 ^ 17 <= 2 ^ (- e)) by (apply Z.pow_le_mono_r; lia).
      change (2 ^ 24) with (2 ^ 17 * 128) in Hm. nia. }
    assert (0 <= Z.pos m / 2 ^ (- e)) by (apply Z.div_pos; lia).
    rewrite Z.mod_small by lia. lia.
Qed.

(** *** The two products on every 8-bit sample *)

Lemma terms_checked (d : Spec.depth) :
  d <> Spec.none -> all_samples (terms_ok d) = true.
Proof. destruct d; [congruence | | |]; intros _; vm_compute; reflexivity. Qed.

Lemma pairs_checked (d : Spec.depth) :
  d <> Spec.deep -> pair_ok d (deeper d) = true.
Proof. destruct d; [| | | congruence]; intros _; vm_compute; reflexivity. Qed.

Lemma look_table (f : Z -> Z) (k : Z) : 0 <= k <= 255 -> look (sample_table f) k = f k.
Proof.
  intros Hk. unfold look, sample_table.
  rewrite nth_lookup, list_lookup_fmap, lookup_seqZ_lt by lia.
  cbn. f_equal. lia.
Qed.

Lemma canonical32_spec (x : F.float) :
  canonical32 x = true ->
  exists m e, x = S754_finite false m e
              /\ 2 ^ 23 <= Z.pos m < 2 ^ 24 /\ -32 <= e <= -16.
Proof.
  destruct x as [| | | [] m e]; try discriminate. unfold canonical32.
  rewrite !andb_true_iff. intros [[[H1 H2] H3] H4].
  exists m, e. split; [reflexivity |]. lia.
Qed.

Lemma is_zero_spec (x : F.float) : is_zero x = true -> x = S754_zero false.
Proof. destruct x as [[] | | |]; try discriminate. reflexivity. Qed.

(** The sum of line 89 on two 8-bit samples, not both 0. *)
Lemma blend_enclosure (d : Spec.depth) (p t : Z) :
  d <> Spec.none -> 0 <= p <= 255 -> 0 <= t <= 255 -> p <> 0 \/ t <> 0 ->
  exists m e,
    F.add32 (styled_term d p) (tone_term d t) = S754_finite false m e
    /\ 2 ^ 23 <= Z.pos m < 2 ^ 24 /\ -32 <= e <= -14
    /\ Z.abs (Z.pos m * 2 ^ (e + 32) - (styled_part d p + tone_part d t))
       <= 2 ^ 17.
Proof.
  intros Hd Hp Ht Hnz.
  pose proof (all_samples_spec _ p (terms_checked d Hd) Hp) as Hsp.
  pose proof (all_samples_spec _ t (terms_checked d Hd) Ht) as Hst.
  assert (Hparts : styled_part d p = scaled (styled_term d p)
                   /\ tone_part d t = scaled (tone_term d t)).
  { destruct d; [congruence | | |]; split; reflexivity. }
  destruct Hparts as [-> ->].
  unfold terms_ok in Hsp, Hst.
  destruct (Z.eqb_spec p 0) as [-> | Hp0]; destruct (Z.eqb_spec t 0) as [-> | Ht0].
  - lia.
  - apply andb_true_iff in Hsp as [Hz _]. apply andb_true_iff in Hst as [_ Hc].
    apply is_zero_spec in Hz. apply canonical32_spec in Hc as (m & e & Hx & Hm & He).
    rewrite Hz, Hx. exists m, e. split; [reflexivity |]. split; [exact Hm |].
    split; [lia |]. cbn [scaled]. rewrite Z.add_0_l, Z.sub_diag. cbn. lia.
  - apply andb_true_iff in Hst as [_ Hz]. apply andb_true_iff in Hsp as [Hc _].
    apply is_zero_spec in Hz. apply canonical32_spec in Hc as (m & e & Hx & Hm & He).
    rewrite Hz, Hx. exists m, e. split; [reflexivity |]. split; [exact Hm |].
    split; [lia |]. cbn [scaled]. rewrite Z.add_0_r, Z.sub_diag. cbn. lia.
  - apply andb_true_iff in Hsp as [Hca _]. apply andb_true_iff in Hst as [_ Hcb].
    apply canonical32_spec in Hca as (ma & ea & Hxa & Hma & Hea).
    apply canonical32_spec in Hcb as (mb & eb & Hxb & Hmb & Heb).
    rewrite Hxa, Hxb. cbn [scaled].
    apply add32_enclosure; assumption.
Qed.

(** What is stored is the integer part, capped at 255, of a number
    within 2^-15 of the exact sum of the two rounded terms. *)
Lemma stored_spec (d : Spec.depth) (p t : Z) :
  0 <= p <= 255 -> 0 <= t <= 255 -> p <> 0 \/ t <> 0 ->
  exists r,
    stored d p t = Z.min 255 (r / 2 ^ 32)
    /\ Z.abs (r - (styled_part d p + tone_part d t)) <= 2 ^ 17.
Proof.
  intros Hp Ht Hnz.
  assert (Hdec : d = Spec.none \/ d <> Spec.none)
    by (destruct d; [left; reflexivity | right | right | right]; discriminate).
  destruct Hdec as [-> | Hd].
  - exists (p * 2 ^ 32). cbn [stored styled_part tone_part].
    rewrite Z.div_mul by (apply Z.pow_nonzero; lia).
    split; [lia |]. rewrite Z.add_0_r, Z.sub_diag. cbn. lia.
  - destruct (blend_enclosure d p t Hd Hp Ht Hnz) as (m & e & Hadd & Hm & He & Hab).
    exists (Z.pos m * 2 ^ (e + 32)). split; [| exact Hab].
    assert (Hst : stored d p t
                  = F.to_uint8 (F.clip (F.add32 (styled_term d p) (tone_term d t))
                                  (F.of_Z32 0) (F.of_Z32 255))).
    { destruct d; [congruence | | |]; reflexivity. }
    rewrite Hst, Hadd. apply to_uint8_clip; assumption.
Qed.

(** Two depths whose exact sums are more than 2^-14 apart store
    samples in the same order; 1 + 2^-14 apart, different samples. *)
Lemma stored_le (d1 d2 : Spec.depth) (p t : Z) :
  0 <= p <= 255 -> 0 <= t <= 255 -> p <> 0 \/ t <> 0 ->
  styled_part d1 p + tone_part d1 t + 2 ^ 18
  <= styled_part d2 p + tone_part d2 t ->
  stored d1 p t <= stored d2 p t.
Proof.
  intros Hp Ht Hnz Hgap.
  destruct (stored_spec d1 p t Hp Ht Hnz) as (r1 & -> & H1).
  destruct (stored_spec d2 p t Hp Ht Hnz) as (r2 & -> & H2).
  change (2 ^ 18) with (2 * 2 ^ 17) in Hgap.
  assert (r1 <= r2) by lia.
  assert (r1 / 2 ^ 32 <= r2 / 2 ^ 32) by (apply Z.div_le_mono; lia).
  lia.
Qed.

Lemma stored_lt (d1 d2 : Spec.depth) (p t : Z) :
  0 <= p <= 255 -> 0 <= t <= 255 -> p <> 0 \/ t <> 0 ->
  styled_part d1 p + tone_part d1 t + (2 ^ 32 + 2 ^ 18)
  <= styled_part d2 p + tone_part d2 t ->
  stored d1 p t < 255 \/ styled_part d2 p + tone_part d2 t <= 255 * 2 ^ 32 ->
  stored d1 p t < stored d2 p t.
Proof.
  intros Hp Ht Hnz Hgap Hroom.
  destruct (stored_spec d1 p t Hp Ht Hnz) as (r1 & E1 & H1).
  destruct (stored_spec d2 p t Hp Ht Hnz) as (r2 & E2 & H2).
  rewrite E1, E2 in *.
  change (2 ^ 18) with (2 * 2 ^ 17) in Hgap.
  assert (Hr : r1 + 1 * 2 ^ 32 <= r2) by lia.
  assert (Hq : r1 / 2 ^ 32 + 1 <= r2 / 2 ^ 32).
  { rewrite <- Z.div_add by lia. apply Z.div_le_mono; lia. }
  destruct Hroom as [Hroom | Hroom]; [lia |].
  assert (r2 / 2 ^ 32 <= 255); [| lia].
  assert (r2 < 256 * 2 ^ 32)
    by (change (2 ^ 17) with 131072 in *; change (2 ^ 32) with 4294967296 in *; lia).
  assert (r2 / 2 ^ 32 < 256) by (apply Z.div_lt_upper_bound; lia).
  lia.
Qed.

(** A function that rises at each step rises between any two samples. *)
Lemma rises (f : Z -> Z) (a : Z) (n : nat) :
  (forall k, 0 <= k < 255 -> f k <= f (k + 1)) ->
  0 <= a -> a + Z.of_nat n <= 255 -> f a <= f (a + Z.of_nat n).
Proof.
  intros Hstep Ha. induction n as [| n IH]; intros Hb.
  - rewrite Z.add_0_r. lia.
  - rewrite Nat2Z.inj_succ in *.
    replace (a + Z.succ (Z.of_nat n)) with (a + Z.of_nat n + 1) by lia.
    specialize (IH ltac:(lia)). specialize (Hstep (a + Z.of_nat n) ltac:(lia)). lia.
Qed.

Lemma rises_between (f : Z -> Z) (a b : Z) :
  (forall k, 0 <= k < 255 -> f k <= f (k + 1)) ->
  0 <= a <= b -> b <= 255 -> f a <= f b.
Proof.
  intros Hstep Hab Hb.
  replace b with (a + Z.of_nat (Z.to_nat (b - a))) by lia.
  apply rises; [exact Hstep | lia | lia].
Qed.

(** What the check of a depth and the one that follows gives. *)
Lemma pair_facts (d : Spec.depth) :
  d <> Spec.deep ->
  let gain := tone_gain d (deeper d) in
  let loss := styled_loss d (deeper d) in
  (forall k, 0 <= k < 255 -> gain k <= gain (k + 1))
  /\ (forall p, 0 <= p <= 255 -> least_up p <= 255 ->
        2 ^ 18 <= gain (least_up p) - loss p)
  /\ (forall p, 0 <= p <= 255 -> 0 <= most_down p ->
        2 ^ 18 <= loss p - gain (most_down p))
  /\ (forall p, 0 <= p <= 255 -> least_far_up p <= 255 ->
        2 ^ 32 + 2 ^ 18 <= gain (least_far_up p) - loss p)
  /\ (forall p, 0 <= p <= 255 -> 0 <= most_far_down p ->
        2 ^ 32 + 2 ^ 18 <= loss p - gain (most_far_down p)).
Proof.
  intros Hd gain loss.
  pose proof (pairs_checked d Hd) as Hall. unfold pair_ok in Hall.
  fold gain loss in Hall. cbv zeta in Hall.
  assert (Hk : forall k, 0 <= k <= 255 ->
            rise_ok (sample_table gain) k = true
            /\ up_ok (2 ^ 18) (sample_table gain) (sample_table loss) least_up k = true
            /\ down_ok (2 ^ 18) (sample_table gain) (sample_table loss) most_down k = true
            /\ up_ok (2 ^ 32 + 2 ^ 18) (sample_table gain) (sample_table loss) least_far_up k = true
            /\ down_ok (2 ^ 32 + 2 ^ 18) (sample_table gain) (sample_table loss) most_far_down k = true).
  { intros k Hkr. pose proof (all_samples_spec _ k Hall Hkr) as H. cbv beta in H.
    rewrite !andb_true_iff in H. tauto. }
  assert (Hrange : forall p, 0 <= p <= 255 ->
            0 <= least_up p /\ most_down p <= 255
            /\ 0 <= least_far_up p /\ most_far_down p <= 255).
  { intros p Hp. unfold least_up, most_down, least_far_up, most_far_down.
    repeat split.
    - assert (0 <= 7 * p / 20) by (apply Z.div_pos; lia). lia.
    - assert ((7 * p - 1) / 20 < 256); [apply Z.div_lt_upper_bound; lia | lia].
    - apply Z.div_pos; lia.
    - assert ((7 * p - 126) / 20 < 256); [apply Z.div_lt_upper_bound; lia | lia]. }
  repeat split.
  - intros k Hkr. destruct (Hk k ltac:(lia)) as (H & _).
    unfold rise_ok in H. rewrite !look_table in H by lia.
    apply orb_true_iff in H as [H | H]; lia.
  - intros p Hp Hle. destruct (Hk p Hp) as (_ & H & _).
    destruct (Hrange p Hp) as (? & ? & ? & ?).
    unfold up_ok in H. rewrite !look_table in H by lia.
    apply orb_true_iff in H as [H | H]; lia.
  - intros p Hp Hle. destruct (Hk p Hp) as (_ & _ & H & _).
    destruct (Hrange p Hp) as (? & ? & ? & ?).
    unfold down_ok in H. rewrite !look_table in H by lia.
    apply orb_true_iff in H as [H | H]; lia.
  - intros p Hp Hle. destruct (Hk p Hp) as (_ & _ & _ & H & _).
    destruct (Hrange p Hp) as (? & ? & ? & ?).
    unfold up_ok in H. rewrite !look_table in H by lia.
    apply orb_true_iff in H as [H | H]; lia.
  - intros p Hp Hle. destruct (Hk p Hp) as (_ & _ & _ & _ & H).
    destruct (Hrange p Hp) as (? & ? & ? & ?).
    unfold down_ok in H. rewrite !look_table in H by lia.
    apply orb_true_iff in H as [H | H]; lia.
Qed.

Lemma sums_gap (d1 d2 : Spec.depth) (p t : Z) :
  styled_part d2 p + tone_part d2 t - (styled_part d1 p + tone_part d1 t)
  = tone_gain d1 d2 t - styled_loss d1 d2 p.
Proof. unfold tone_gain, styled_loss. lia. Qed.

(** *** One step deeper *)

(** The tone sample above 0.35 of the styled sample: the sum grows. *)
Lemma step_up (d : Spec.depth) (p t : Z) :
  d <> Spec.deep -> 0 <= p <= 255 -> 0 <= t <= 255 -> 7 * p < 20 * t ->
  styled_part d p + tone_part d t + 2 ^ 18
  <= styled_part (deeper d) p + tone_part (deeper d) t.
Proof.
  intros Hd Hp Ht Hup.
  destruct (pair_facts d Hd) as (Hrise & Hu & _).
  pose proof (sums_gap d (deeper d) p t) as Hg.
  assert (Hl : least_up p <= t).
  { unfold least_up. assert (7 * p / 20 < t); [| lia].
    apply Z.div_lt_upper_bound; lia. }
  assert (0 <= least_up p).
  { unfold least_up. assert (0 <= 7 * p / 20) by (apply Z.div_pos; lia). lia. }
  specialize (Hu p Hp ltac:(lia)).
  pose proof (rises_between _ (least_up p) t Hrise ltac:(lia) ltac:(lia)).
  lia.
Qed.

(** The tone sample below 0.35 of the styled sample: the sum shrinks. *)
Lemma step_down (d : Spec.depth) (p t : Z) :
  d <> Spec.deep -> 0 <= p <= 255 -> 0 <= t <= 255 -> 20 * t < 7 * p ->
  styled_part (deeper d) p + tone_part (deeper d) t + 2 ^ 18
  <= styled_part d p + tone_part d t.
Proof.
  intros Hd Hp Ht Hdown.
  destruct (pair_facts d Hd) as (Hrise & _ & Hdn & _).
  pose proof (sums_gap d (deeper d) p t) as Hg.
  assert (Hl : t <= most_down p).
  { unfold most_down. apply Z.div_le_lower_bound; lia. }
  assert (most_down p <= 255).
  { unfold most_down.
    assert ((7 * p - 1) / 20 < 256); [apply Z.div_lt_upper_bound; lia | lia]. }
  specialize (Hdn p Hp ltac:(lia)).
  pose proof (rises_between _ t (most_down p) Hrise ltac:(lia) ltac:(lia)).
  lia.
Qed.

(** Far from the line, by more than one unit. *)
Lemma step_far_up (d : Spec.depth) (p t : Z) :
  d <> Spec.deep -> 0 <= p <= 255 -> 0 <= t <= 255 -> 126 <= 20 * t - 7 * p ->
  styled_part d p + tone_part d t + (2 ^ 32 + 2 ^ 18)
  <= styled_part (deeper d) p + tone_part (deeper d) t.
Proof.
  intros Hd Hp Ht Hup.
  destruct (pair_facts d Hd) as (Hrise & _ & _ & Hu & _).
  pose proof (sums_gap d (deeper d) p t) as Hg.
  assert (Hl : least_far_up p <= t).
  { unfold least_far_up. assert ((7 * p + 145) / 20 < t + 1); [| lia].
    apply Z.div_lt_upper_bound; lia. }
  assert (0 <= least_far_up p) by (unfold least_far_up; apply Z.div_pos; lia).
  specialize (Hu p Hp ltac:(lia)).
  pose proof (rises_between _ (least_far_up p) t Hrise ltac:(lia) ltac:(lia)).
  lia.
Qed.

Lemma step_far_down (d : Spec.depth) (p t : Z) :
  d <> Spec.deep -> 0 <= p <= 255 -> 0 <= t <= 255 -> 126 <= 7 * p - 20 * t ->
  styled_part (deeper d) p + tone_part (deeper d) t + (2 ^ 32 + 2 ^ 18)
  <= styled_part d p + tone_part d t.
Proof.
  intros Hd Hp Ht Hdown.
  destruct (pair_facts d Hd) as (Hrise & _ & _ & _ & Hdn).
  pose proof (sums_gap d (deeper d) p t) as Hg.
  assert (Hl : t <= most_far_down p).
  { unfold most_far_down. apply Z.div_le_lower_bound; lia. }
  assert (most_far_down p <= 255).
  { unfold most_far_down.
    assert ((7 * p - 126) / 20 < 256); [apply Z.div_lt_upper_bound; lia | lia]. }
  specialize (Hdn p Hp ltac:(lia)).
  pose proof (rises_between _ t (most_far_down p) Hrise ltac:(lia) ltac:(lia)).
  lia.
Qed.

(** *** Any two depths *)

Lemma sums_up (d1 d2 : Spec.depth) (p t : Z) :
  Spec.rank d1 < Spec.rank d2 ->
  0 <= p <= 255 -> 0 <= t <= 255 -> 7 * p < 20 * t ->
  styled_part d1 p + tone_part d1 t + 2 ^ 18
  <= styled_part d2 p + tone_part d2 t.
Proof.
  intros Hr Hp Ht Hup.
  pose proof (step_up Spec.none p t ltac:(discriminate) Hp Ht Hup) as H1.
  pose proof (step_up Spec.light p t ltac:(discriminate) Hp Ht Hup) as H2.
  pose proof (step_up Spec.medium p t ltac:(discriminate) Hp Ht Hup) as H3.
  cbn [deeper] in H1, H2, H3.
  destruct d1, d2; cbn [Spec.rank] in Hr; lia.
Qed.

Lemma sums_down (d1 d2 : Spec.depth) (p t : Z) :
  Spec.rank d1 < Spec.rank d2 ->
  0 <= p <= 255 -> 0 <= t <= 255 -> 20 * t < 7 * p ->
  styled_part d2 p + tone_part d2 t + 2 ^ 18
  <= styled_part d1 p + tone_part d1 t.
Proof.
  intros Hr Hp Ht Hdn.
  pose proof (step_down Spec.none p t ltac:(discriminate) Hp Ht Hdn) as H1.
  pose proof (step_down Spec.light p t ltac:(discriminate) Hp Ht Hdn) as H2.
  pose proof (step_down Spec.medium p t ltac:(discriminate) Hp Ht Hdn) as H3.
  cbn [deeper] in H1, H2, H3.
  destruct d1, d2; cbn [Spec.rank] in Hr; lia.
Qed.

Lemma sums_far_up (d1 d2 : Spec.depth) (p t : Z) :
  Spec.rank d1 < Spec.rank d2 ->
  0 <= p <= 255 -> 0 <= t <= 255 -> 126 <= 20 * t - 7 * p ->
  styled_part d1 p + tone_part d1 t + (2 ^ 32 + 2 ^ 18)
  <= styled_part d2 p + tone_part d2 t.
Proof.
  intros Hr Hp Ht Hup.
  pose proof (step_far_up Spec.none p t ltac:(discriminate) Hp Ht Hup) as H1.
  pose proof (step_far_up Spec.light p t ltac:(discriminate) Hp Ht Hup) as H2.
  pose proof (step_far_up Spec.medium p t ltac:(discriminate) Hp Ht Hup) as H3.
  cbn [deeper] in H1, H2, H3.
  destruct d1, d2; cbn [Spec.rank] in Hr; lia.
Qed.

Lemma sums_far_down (d1 d2 : Spec.depth) (p t : Z) :
  Spec.rank d1 < Spec.rank d2 ->
  0 <= p <= 255 -> 0 <= t <= 255 -> 126 <= 7 * p - 20 * t ->
  styled_part d2 p + tone_part d2 t + (2 ^ 32 + 2 ^ 18)
  <= styled_part d1 p + tone_part d1 t.
Proof.
  intros Hr Hp Ht Hdn.
  pose proof (step_far_down Spec.none p t ltac:(discriminate) Hp Ht Hdn) as H1.
  pose proof (step_far_down Spec.light p t ltac:(discriminate) Hp Ht Hdn) as H2.
  pose proof (step_far_down Spec.medium p t ltac:(discriminate) Hp Ht Hdn) as H3.
  cbn [deeper] in H1, H2, H3.
  destruct d1, d2; cbn [Spec.rank] in Hr; lia.
Qed.

(** One sample: its distance from the unshaded sample never shrinks
    with the depth, and grows when the tone is far from 0.35 of it. *)
Lemma sample_deviation (d1 d2 : Spec.depth) (p t : Z) :
  Spec.rank d1 < Spec.rank d2 ->
  0 <= p <= 255 -> 0 <= t <= 255 -> 20 * t <> 7 * p ->
  Z.abs (stored d1 p t - p) <= Z.abs (stored d2 p t - p)
  /\ (126 <= Z.abs (20 * t - 7 * p) -> stored d1 p t < 255 ->
      Z.abs (stored d1 p t - p) < Z.abs (stored d2 p t - p)).
Proof.
  intros Hr Hp Ht Hne.
  assert (Hcase : 7 * p < 20 * t \/ 20 * t < 7 * p) by lia.
  destruct Hcase as [Hup | Hdn].
  - assert (Hnz : p <> 0 \/ t <> 0) by lia.
    assert (H1 : p <= stored d1 p t).
    { destruct (Z.eq_dec (Spec.rank d1) 0) as [E | E].
      - destruct d1; cbn [Spec.rank] in E; try lia. cbn [stored]. lia.
      - change p with (stored Spec.none p t) at 1.
        apply stored_le; try assumption.
        apply sums_up; try assumption. cbn [Spec.rank].
        destruct d1; cbn [Spec.rank] in *; lia. }
    assert (H2 : stored d1 p t <= stored d2 p t).
    { apply stored_le; try assumption. now apply sums_up. }
    split; [lia |]. intros Hfar Hroom.
    assert (stored d1 p t < stored d2 p t); [| lia].
    apply stored_lt; try assumption; [| now left].
    apply sums_far_up; try assumption. lia.
  - assert (Hnz : p <> 0 \/ t <> 0) by lia.
    assert (Hs1 : styled_part d1 p + tone_part d1 t <= 255 * 2 ^ 32).
    { destruct (Z.eq_dec (Spec.rank d1) 0) as [E | E].
      - destruct d1; cbn [Spec.rank] in E; try lia.
        cbn [styled_part tone_part]. change (2 ^ 32) with 4294967296. lia.
      - assert (Hr0 : Spec.rank Spec.none < Spec.rank d1)
          by (destruct d1; cbn [Spec.rank] in *; lia).
        pose proof (sums_down Spec.none d1 p t Hr0 Hp Ht Hdn) as H.
        cbn [styled_part tone_part] in H.
        change (2 ^ 32) with 4294967296 in *. change (2 ^ 18) with 262144 in *. lia. }
    assert (H1 : stored d1 p t <= p).
    { destruct (Z.eq_dec (Spec.rank d1) 0) as [E | E].
      - destruct d1; cbn [Spec.rank] in E; try lia. cbn [stored]. lia.
      - change p with (stored Spec.none p t) at 2.
        apply stored_le; try assumption.
        apply sums_down; try assumption. cbn [Spec.rank].
        destruct d1; cbn [Spec.rank] in *; lia. }
    assert (H2 : stored d2 p t <= stored d1 p t).
    { apply stored_le; try assumption. now apply sums_down. }
    split; [lia |]. intros Hfar _.
    assert (stored d2 p t < stored d1 p t); [| lia].
    apply stored_lt; try assumption; [| now right].
    apply sums_far_down; try assumption. lia.
Qed.

(** On the line [20·t = 7·p] the rounding decides: at (220, 77) depth
    "medium" stores 219 where "light" and "deep" store 220. *)
Example tie_breaks_monotonicity :
  stored Spec.none 220 77 = 220 /\ stored Spec.light 220 77 = 220
  /\ stored Spec.medium 220 77 = 219 /\ stored Spec.deep 220 77 = 220.
Proof. vm_compute. repeat split; reflexivity. Qed.

(** *** Images *)

Lemma mean_abs_diff_total (a b : Image rgb) :
  mean_abs_diff a b
  = (inject_Z (total_diff (data a) (data b))
     / inject_Z (3 * Z.of_nat (length (data a))))%Q.
Proof. reflexivity. Qed.

Lemma Qdiv_le_same (a b c : Z) :
  a <= b -> 0 <= c -> (inject_Z a / inject_Z c <= inject_Z b / inject_Z c)%Q.
Proof.
  intros Hab Hc. unfold Qdiv. apply Qmult_le_compat_r.
  - now rewrite <- Zle_Qle.
  - apply Qinv_le_0_compat. change 0%Q with (inject_Z 0). now rewrite <- Zle_Qle.
Qed.

Lemma Qdiv_lt_same (a b c : Z) :
  a < b -> 0 < c -> (inject_Z a / inject_Z c < inject_Z b / inject_Z c)%Q.
Proof.
  intros Hab Hc. unfold Qdiv. apply Qmult_lt_compat_r.
  - apply Qinv_lt_0_compat. change 0%Q with (inject_Z 0). now rewrite <- Zlt_Qlt.
  - now rewrite <- Zlt_Qlt.
Qed.

Lemma map_zip_with {A B C D} (g : C -> D) (f : A -> B -> C) (l : list A) :
  forall k, map g (zip_with f l k) = zip_with (fun x y => g (f x y)) l k.
Proof.
  induction l as [| x l IH]; intros [| y k]; cbn; [reflexivity .. |].
  now rewrite IH.
Qed.

Section DepthDeviation.

Context `{Lib : Imaging}.

Hypothesis luma_gray : forall v, luma (v, v, v) = v.

Lemma unshaded_data (pxs : list rgb) (tone : list Z) :
  Forall2 shadeable pxs tone ->
  map gray_px (shaded Spec.none (map luma pxs) tone) = pxs.
Proof.
  induction 1 as [| [[r g] b] t pxs tone Hs _ IH]; [reflexivity |].
  destruct Hs as (-> & -> & _). unfold shaded in *.
  cbn [map zip_with stored]. rewrite luma_gray. now rewrite IH.
Qed.

Lemma shaded_length (d : Spec.depth) (pxs : list rgb) (tone : list Z) :
  Forall2 shadeable pxs tone ->
  length (map gray_px (shaded d (map luma pxs) tone)) = length pxs.
Proof.
  intros H. unfold shaded.
  rewrite length_map, length_zip_with, length_map.
  apply Forall2_length in H. lia.
Qed.

Lemma total_diff_step (d : Spec.depth) (p t : Z) (pxs : list rgb) (tone : list Z) :
  total_diff (map gray_px (shaded d (map luma ((p, p, p) :: pxs)) (t :: tone)))
             ((p, p, p) :: pxs)
  = 3 * Z.abs (stored d p t - p)
    + total_diff (map gray_px (shaded d (map luma pxs) tone)) pxs.
Proof.
  unfold total_diff, shaded. cbn [map zip_with fold_right].
  rewrite luma_gray. unfold gray_px at 1. cbn [abs_diff]. lia.
Qed.

Lemma total_diff_grows (d1 d2 : Spec.depth) (pxs : list rgb) (tone : list Z) :
  Spec.rank d1 < Spec.rank d2 ->
  Forall2 shadeable pxs tone ->
  total_diff (map gray_px (shaded d1 (map luma pxs) tone)) pxs
  <= total_diff (map gray_px (shaded d2 (map luma pxs) tone)) pxs
  /\ (Exists (fun pt => moved d1 (fst pt) (snd pt)) (zip pxs tone) ->
      total_diff (map gray_px (shaded d1 (map luma pxs) tone)) pxs
      < total_diff (map gray_px (shaded d2 (map luma pxs) tone)) pxs).
Proof.
  intros Hr. induction 1 as [| [[r g] b] t pxs tone Hs _ IH].
  - split; [reflexivity |]. intros Hex. inversion Hex.
  - destruct Hs as (-> & -> & Hp & Ht & Hne).
    rewrite !total_diff_step.
    destruct (sample_deviation d1 d2 b t Hr Hp Ht Hne) as [Hle Hlt].
    destruct IH as [IHle IHlt].
    split; [lia |]. intros Hex.
    change (zip ((b, b, b) :: pxs) (t :: tone))
      with (((b, b, b), t) :: zip pxs tone) in Hex.
    apply Exists_cons in Hex as [[Hfar Hroom] | Hex].
    + cbn [fst snd] in Hfar, Hroom. specialize (Hlt Hfar Hroom). lia.
    + specialize (IHlt Hex). lia.
Qed.

(** The image the depth stage returns, where the final autocontrast
    leaves the stored samples as they are. *)
Lemma depth_shade_data (gray : Image Z) (sketch : Image rgb) (d : Spec.depth) :
  let tone := data (ImageOps_autocontrast (Image_filter gray (GaussianBlur 3.2)) 2) in
  Forall2 shadeable (data sketch) tone ->
  (d <> Spec.none ->
   stretch 1 (shaded d (map luma (data sketch)) tone)
   = shaded d (map luma (data sketch)) tone) ->
  data (depth_shade gray sketch (Spec.depth_name d))
  = map gray_px (shaded d (map luma (data sketch)) tone).
Proof.
  intros tone Hall Hfix.
  assert (Hdec : d = Spec.none \/ d <> Spec.none)
    by (destruct d; [left; reflexivity | right | right | right]; discriminate).
  destruct Hdec as [-> | Hd].
  - rewrite unshaded_data by exact Hall. reflexivity.
  - specialize (Hfix Hd). unfold depth_shade.
    rewrite shade_strength_named.
    assert (Hpos : F.ltb (F.of_Z64 0) (Spec.strength d) = true)
      by (destruct d; [congruence | | |]; vm_compute; reflexivity).
    rewrite Hpos, shade_with_spec. cbn [data].
    assert (Hst : map F.to_uint8
                    (zip_with (Spec.shade_formula (Spec.strength d))
                       (map luma (data sketch))
                       (stretch 2 (convolve (GaussianBlur 3.2) (size gray) (data gray))))
                  = shaded d (map luma (data sketch)) tone).
    { unfold shaded. rewrite map_zip_with.
      apply zip_with_ext; [| reflexivity | reflexivity].
      intros p t. destruct d; [congruence | | |]; reflexivity. }
    rewrite Hst, Hfix. reflexivity.
Qed.

End DepthDeviation.

Section Deeper.

Context `{Lib : Imaging}.

(** Away from "trace" and with no final resize, the renders of one
    file at every depth are the depth stage applied to one styled image. *)
Lemma sketch_by_depth (image_file : list Byte.byte)
    (sketch_style output_size : string) (rng : rng_state) (image : Image rgb) :
  Image_open_RGB image_file = inr image ->
  sketch_style <> "trace" -> ~ In output_size resizing_codes ->
  exists styled,
    forall sketch_depth,
      fst (_pencil_sketch image_file sketch_style sketch_depth output_size rng)
      = inr (depth_shade (tone_base (thumbnail image (1800, 1800))) styled
               sketch_depth).
Proof.
  intros Hopen Hstyle Hsize. unfold _pencil_sketch. rewrite Hopen.
  set (gray := tone_base (thumbnail image (1800, 1800))).
  destruct (grain_texture _ rng) as [texture rng'].
  set (luminance := convert_L _).
  exists (fst (style_dispatch gray luminance sketch_style "none")).
  intros sketch_depth.
  pose proof (style_dispatch_depth gray luminance sketch_style sketch_depth Hstyle) as Hd.
  pose proof (style_dispatch_image gray luminance sketch_style sketch_depth "none") as Hi.
  destruct (style_dispatch gray luminance sketch_style sketch_depth) as [sketch d].
  cbn [fst snd] in Hd, Hi. subst d. rewrite Hi. cbn [fst].
  now rewrite (output_scale_orig _ _ Hsize).
Qed.


End Deeper.

(** ** Concrete runs on one-pixel images *)

Module Runs.

Import OnePixel.

#[local] Existing Instance OnePixel.lib.

(** C1 fails as stated: the signature has no seed, and two calls in a
    row on the same bytes and parameters return different images,
    because the second call finds the generator where the first left
    it. *)
Lemma two_calls_two_sketches :
  fst (_pencil_sketch white "clean" "none" "orig" two_samples) = inr (px 230)
  /\ fst (_pencil_sketch white "clean" "none" "orig"
            (snd (_pencil_sketch white "clean" "none" "orig" two_samples)))
     = inr (px 245)
  /\ fst (_pencil_sketch white "clean" "none" "orig" two_samples)
     <> fst (_pencil_sketch white "clean" "none" "orig"
               (snd (_pencil_sketch white "clean" "none" "orig" two_samples))).
Proof. vm_compute. repeat split; discriminate. Qed.


(** C9 fails as stated: with style "trace" an unrecognised depth never
    reaches the lookup; line 67 has replaced it by "none", the strength
    is 0.0 and the image leaves the depth stage as it entered, although
    the stage given that same value would have blended it. *)
Lemma unknown_depth_unshaded_under_trace :
  snd (style_dispatch (pxL 255) (pxL 235) "trace" "bogus") = "none"
  /\ shade_strength_of "none" = S754_zero false
  /\ style_trace (pxL 255) = px 60
  /\ fst (_pencil_sketch white "trace" "bogus" "orig" one_sample) = inr (px 60)
  /\ depth_shade (pxL 255) (px 60) "bogus" = px 148.
Proof. vm_compute. repeat split; reflexivity. Qed.

(** *** The theorems with hypotheses, applied *)

Lemma unknown_style_renders_clean_witness :
  "cartoon" <> "trace" /\ "cartoon" <> "artistic"
  /\ _pencil_sketch white "cartoon" "light" "orig" one_sample
     = _pencil_sketch white "clean" "light" "orig" one_sample.
Proof.
  split; [discriminate |]. split; [discriminate |].
  apply (unknown_style_renders_clean (Lib := lib) white "cartoon" "light" "orig" one_sample);
    discriminate.
Defined.

Lemma unknown_depth_is_medium_witness :
  "bogus" <> "none" /\ "bogus" <> "light" /\ "bogus" <> "medium"
  /\ "bogus" <> "deep"
  /\ shade_strength_of "bogus" = F.lit 38 100
  /\ _pencil_sketch white "clean" "bogus" "orig" one_sample
     = _pencil_sketch white "clean" "medium" "orig" one_sample.
Proof.
  do 4 (split; [discriminate |]).
  pose proof (unknown_depth_is_medium (Lib := lib) white "clean" "bogus" "orig" one_sample
                ltac:(discriminate) ltac:(discriminate) ltac:(discriminate)
                ltac:(discriminate)) as H.
  split; [exact (proj1 H) |].
  exact (proj2 (proj2 (proj2 (proj2 (proj2 H))))).
Defined.

Lemma same_noise_same_sketch_witness :
  fst (normal (F.lit 128 1) (F.lit 18 1) (1, 1) one_sample)
  = fst (normal (F.lit 128 1) (F.lit 18 1) (1, 1) [F.of_Z64 128; F.of_Z64 200])
  /\ fst (_pencil_sketch white "clean" "light" "orig" one_sample)
     = fst (_pencil_sketch white "clean" "light" "orig"
              [F.of_Z64 128; F.of_Z64 200]).
Proof.
  split; [reflexivity |].
  exact (proj1 (same_noise_same_sketch (Lib := lib) white "clean" "light" "orig" one_sample
                  [F.of_Z64 128; F.of_Z64 200] eq_refl)).
Defined.


Lemma dodge_blend_total_witness :
  0 <= 200 <= 255 /\ 0 <= 255 <= 255
  /\ elems (dodge_blend (pxL 200)) = Spec.dodge (pxL 200)
  /\ F.ltb (F.of_Z32 0) (dodge_denominator (F.of_Z32 255)) = true
  /\ F.is_finite (Spec.dodge_formula 200 255) = true.
Proof.
  split; [lia |]. split; [lia |].
  pose proof (dodge_blend_total (Lib := lib) (pxL 200) 200 255 ltac:(lia) ltac:(lia)) as H.
  split; [exact (proj1 H) |].
  split; [exact (proj1 (proj2 (proj2 (proj2 (proj2 H))))) |].
  exact (proj1 (proj2 (proj2 (proj2 (proj2 (proj2 H)))))).
Defined.

Lemma trace_lines_erode_witness :
  getpixel (fromarray (astype_uint8
              (binarize (Array (1, 2) [F.of_Z32 255; F.of_Z32 0])))) (0 + 1) (0 + 0)
  = 255
  /\ getpixel (trace_lines (Array (1, 2) [F.of_Z32 255; F.of_Z32 0])) 0 0 = 255.
Proof.
  split; [reflexivity |].
  apply (trace_lines_erode (Lib := lib) (Array (1, 2) [F.of_Z32 255; F.of_Z32 0]) 0 0 1 0);
    cbn [shape fst snd]; try lia.
  reflexivity.
Defined.

(** *** The views, run on a plain site *)

Import Plain.

#[local] Existing Instance Plain.site.

Lemma archive_name_of_stored_sketch_witness :
  Str.contains "/" "20240101120000" = false
  /\ Str.contains "/" "sketch_ab.png" = false
  /\ List.last (Str.split "/" (sketch_path "1" "20240101120000" "sketch_ab.png")) ""
     = "20240101120000_sketch_ab.png".
Proof.
  split; [reflexivity |]. split; [reflexivity |].
  exact (archive_name_of_stored_sketch "1" "20240101120000" "sketch_ab.png"
           eq_refl eq_refl).
Defined.

Lemma sized_name_replaces_extension_witness :
  Str.contains "." "png" = false
  /\ sized_name "sm" ("a.b" ++ "." ++ "png") = "a.b" ++ "_" ++ "sm" ++ ".png".
Proof.
  split; [reflexivity |].
  exact (proj1 (sized_name_replaces_extension "sm" "a.b" "png" eq_refl)).
Defined.

Lemma dashboard_shows_newest_witness :
  In (row 1 "user_sketches/1/20240101120000_sketch_ab.png" 30)
    (dashboard_recent table 1 ∅)
  /\ In (row 1 "user_sketches/1/20240101120000_sketch_ab.png" 0)
       (download_rows table 1 ∅)
  /\ ~ In (row 1 "user_sketches/1/20240101120000_sketch_ab.png" 0)
         (dashboard_recent table 1 ∅)
  /\ created_at (row 1 "user_sketches/1/20240101120000_sketch_ab.png" 0)
     <= created_at (row 1 "user_sketches/1/20240101120000_sketch_ab.png" 30).
Proof.
  assert (H1 : In (row 1 "user_sketches/1/20240101120000_sketch_ab.png" 30)
                 (dashboard_recent table 1 ∅)).
  { vm_compute. left. reflexivity. }
  assert (H2 : In (row 1 "user_sketches/1/20240101120000_sketch_ab.png" 0)
                 (download_rows table 1 ∅)).
  { apply list_elem_of_In, (list_elem_of_lookup_2 _ 30%nat). vm_compute. reflexivity. }
  assert (H3 : ~ In (row 1 "user_sketches/1/20240101120000_sketch_ab.png" 0)
                   (dashboard_recent table 1 ∅)).
  { intros Hin.
    assert (Hall : forallb (fun work => (1 <=? created_at work)%Z)
                     (dashboard_recent table 1 ∅) = true)
      by (vm_compute; reflexivity).
    rewrite forallb_forall in Hall. specialize (Hall _ Hin). discriminate Hall. }
  split; [exact H1 |]. split; [exact H2 |]. split; [exact H3 |].
  exact (dashboard_shows_newest (Web := site) table 1 ∅ _ _ H1 H2 H3).
Defined.

Lemma invalid_date_is_ignored_witness :
  fromisoformat "soon" = None
  /\ download_rows table 1 (<["start_date" := "soon"]> ∅)
     = download_rows table 1 (delete "start_date" ∅).
Proof.
  split; [reflexivity |].
  exact (proj1 (proj2 (proj2
           (invalid_date_is_ignored (Web := site) table 1 ∅ "soon" eq_refl)))).
Defined.

Lemma blank_search_is_ignored_witness :
  strip "" = ""
  /\ dashboard_recent table 1 (<["q" := ""]> ∅)
     = dashboard_recent table 1 (delete "q" ∅).
Proof.
  split; [reflexivity |].
  exact (proj1 (blank_search_is_ignored (Web := site) table 1 ∅ "" eq_refl)).
Defined.

Lemma date_window_is_honoured_witness :
  (<["start_date" := "10"]> (<["end_date" := "12"]> ∅) : gmap string string)
    !! "start_date" = Some "10"
  /\ "10" <> "" /\ fromisoformat "10" = Some 10
  /\ (<["start_date" := "10"]> (<["end_date" := "12"]> ∅) : gmap string string)
       !! "end_date" = Some "12"
  /\ "12" <> "" /\ fromisoformat "12" = Some 12
  /\ Forall (fun work => date 10 <= created_at__date (created_at work) <= date 12)
       (download_rows table 1 (<["start_date" := "10"]> (<["end_date" := "12"]> ∅))).
Proof.
  split; [reflexivity |]. split; [discriminate |]. split; [reflexivity |].
  split; [reflexivity |]. split; [discriminate |]. split; [reflexivity |].
  exact (proj1 (date_window_is_honoured (Web := site) table 1
                  (<["start_date" := "10"]> (<["end_date" := "12"]> ∅))
                  "10" "12" 10 12 eq_refl ltac:(discriminate) eq_refl
                  eq_refl ltac:(discriminate) eq_refl)).
Defined.

Lemma export_without_filters_is_complete_witness :
  (∅ : gmap string string) !! "q" = None
  /\ (∅ : gmap string string) !! "start_date" = None
  /\ (∅ : gmap string string) !! "end_date" = None
  /\ Permutation (download_rows table 2 ∅)
       (List.filter (fun work => user work =? 2) table).
Proof.
  split; [reflexivity |]. split; [reflexivity |]. split; [reflexivity |].
  exact (export_without_filters_is_complete (Web := site) table 2 ∅
           eq_refl eq_refl eq_refl).
Defined.

Lemma export_of_originals_witness :
  ~ In (dict_get (∅ : gmap string string) "size" "orig") resizing_codes
  /\ download_all table storage 2 ∅
     = inr [("20240101120000_sketch_cd.png", white)].
Proof.
  assert (Hno : ~ In (dict_get (∅ : gmap string string) "size" "orig") resizing_codes).
  { cbn. intros [H | [H | [H | [H | []]]]]; discriminate H. }
  split; [exact Hno |].
  rewrite (export_of_originals (Lib := lib) (Web := site) table storage 2 ∅ Hno).
  reflexivity.
Defined.


Lemma export_is_flat_witness :
  download_all table storage 2 (<["size" := "sm"]> ∅)
  = inr [("20240101120000_sketch_cd_sm.png", [])]
  /\ Forall (fun entry => Str.contains "/" (fst entry) = false)
       [("20240101120000_sketch_cd_sm.png", [] : list Byte.byte)].
Proof.
  split; [reflexivity |].
  exact (export_is_flat (Lib := lib) (Web := site) table storage 2
           (<["size" := "sm"]> ∅) _ eq_refl).
Defined.

Lemma trace_lines_two_valued_witness :
  length (elems (Array (1, 2) [F.of_Z32 255; F.of_Z32 0]))
  = Z.to_nat (fst (shape (Array (1, 2) [F.of_Z32 255; F.of_Z32 0]))
              * snd (shape (Array (1, 2) [F.of_Z32 255; F.of_Z32 0])))
  /\ (getpixel (trace_lines (Array (1, 2) [F.of_Z32 255; F.of_Z32 0])) 0 0 = 60
      \/ getpixel (trace_lines (Array (1, 2) [F.of_Z32 255; F.of_Z32 0])) 0 0 = 255).
Proof.
  split; [reflexivity |].
  refine (proj1 (trace_lines_two_valued (Lib := lib)
                   (Array (1, 2) [F.of_Z32 255; F.of_Z32 0]) 0 0 eq_refl _ _));
    cbn [shape fst snd]; lia.
Defined.

Lemma sketch_is_gray_witness :
  ~ In "orig" resizing_codes
  /\ _pencil_sketch white "clean" "none" "orig" one_sample = (inr (px 235), [])
  /\ Forall is_gray (data (px 235)).
Proof.
  assert (Hno : ~ In "orig" resizing_codes).
  { cbn. intros [H | [H | [H | [H | []]]]]; discriminate H. }
  assert (Hrun : _pencil_sketch white "clean" "none" "orig" one_sample
                 = (inr (px 235), [])) by (vm_compute; reflexivity).
  split; [exact Hno |]. split; [exact Hrun |].
  exact (sketch_is_gray (Lib := lib) white "clean" "none" "orig" one_sample []
           (px 235) Hno Hrun).
Defined.

Lemma one_draw_per_render_witness :
  Image_open_RGB white = inr (px 255)
  /\ snd (_pencil_sketch white "trace" "deep" "orig" two_samples) = [F.of_Z64 200].
Proof.
  split; [reflexivity |].
  rewrite (one_draw_per_render (Lib := lib) white "trace" "deep" "orig" two_samples
             (px 255) eq_refl).
  reflexivity.
Defined.

Lemma dodge_whitens_flat_image_witness :
  Forall (fun g => 0 <= g <= 255) (data (pxL 200))
  /\ convolve (GaussianBlur 22) (size (pxL 200)) (map (fun v => 255 - v) (data (pxL 200)))
     = map (fun v => 255 - v) (data (pxL 200))
  /\ data (fromarray (astype_uint8 (dodge_blend (pxL 200)))) = [254].
Proof.
  assert (Hrange : Forall (fun g => 0 <= g <= 255) (data (pxL 200))).
  { constructor; [lia | constructor]. }
  split; [exact Hrange |]. split; [reflexivity |].
  exact (dodge_whitens_flat_image (Lib := lib) (pxL 200) Hrange eq_refl).
Defined.

End Runs.

(** ** Concrete runs on flat images *)

Module FlatRuns.

Import Flat.

#[local] Existing Instance Flat.lib.
#[local] Existing Instance Flat.site.

Lemma sketch_size_bounded_witness :
  Image_open_RGB wide = inr (flat 2000 1000 white)
  /\ 0 < fst (size (flat 2000 1000 white)) /\ 0 < snd (size (flat 2000 1000 white))
  /\ exists sketch rng',
       _pencil_sketch wide "clean" "medium" "sm" [] = (inr sketch, rng')
       /\ size sketch = (720, 360)
       /\ Z.max 720 360 <= size_cap "sm"
       /\ 1 <= 720 <= 2000 /\ 1 <= 360 <= 1000
       /\ Z.abs (720 * 1000 - 360 * 2000) <= Z.max 2000 1000.
Proof.
  split; [reflexivity |]. split; [reflexivity |]. split; [reflexivity |].
  destruct (sketch_size_bounded (Lib := lib) wide "clean" "medium" "sm" []
              (flat 2000 1000 white) eq_refl eq_refl eq_refl)
    as (sketch & rng' & Hrun & Hb).
  destruct (sketch_size (Lib := lib) wide "clean" "medium" "sm" []
              (flat 2000 1000 white) eq_refl)
    as (sketch0 & rng0 & Hrun0 & Hsize).
  rewrite Hrun in Hrun0. injection Hrun0 as <- <-.
  change (size (flat 2000 1000 white)) with (2000, 1000) in Hb, Hsize.
  assert (Hs : size sketch = (720, 360)) by (rewrite Hsize; vm_compute; reflexivity).
  rewrite Hs in Hb. cbv iota beta in Hb.
  exists sketch, rng'. split; [exact Hrun |]. split; [exact Hs |].
  split; [exact (proj1 Hb) |]. split; [exact (proj1 (proj2 Hb)) |].
  split; [exact (proj1 (proj2 (proj2 Hb))) |].
  exact (proj2 (proj2 (proj2 (proj2 Hb)))).
Defined.

Lemma resized_entry_fits_witness :
  dict_get download_size_map "xs" None = Some 480
  /\ Image_open_RGB wide = inr (flat 2000 1000 white)
  /\ 0 < fst (size (flat 2000 1000 white)) /\ 0 < snd (size (flat 2000 1000 white))
  /\ _resize_if_needed "xs" (Some 480) wide "a.png"
     = inr ("a_xs.png", encode (flat 480 240 white))
  /\ exists out,
       _resize_if_needed "xs" (Some 480) wide "a.png"
       = inr (sized_name "xs" "a.png", save_png out)
       /\ Z.max (fst (size out)) (snd (size out)) <= 480
       /\ 1 <= fst (size out) <= 2000 /\ 1 <= snd (size out) <= 1000
       /\ Z.abs (fst (size out) * 1000 - snd (size out) * 2000) <= Z.max 2000 1000.
Proof.
  split; [reflexivity |]. split; [reflexivity |].
  split; [reflexivity |]. split; [reflexivity |].
  split; [reflexivity |].
  destruct (resized_entry_fits (Lib := lib) (Web := site) "xs" 480 wide "a.png"
              (flat 2000 1000 white) eq_refl eq_refl eq_refl eq_refl)
    as (out & Hrun & Hb).
  exists out. split; [exact Hrun |].
  change (size (flat 2000 1000 white)) with (2000, 1000) in Hb.
  destruct (size out) as [w' h']. cbn [fst snd]. cbv iota beta in Hb.
  split; [exact (proj1 Hb) |]. split; [exact (proj1 (proj2 Hb)) |].
  split; [exact (proj1 (proj2 (proj2 Hb))) |].
  exact (proj1 (proj2 (proj2 (proj2 Hb)))).
Defined.

Lemma export_at_render_size_keeps_pixels_witness :
  Image_open_RGB ribbon = inr (flat 800 2 white)
  /\ 0 < fst (size (flat 800 2 white)) /\ 0 < snd (size (flat 800 2 white))
  /\ _pencil_sketch ribbon "clean" "none" "xs" [F.of_Z64 128]
     = (inr (flat 480 1 (235, 235, 235)), [])
  /\ dict_get size_map "xs" None = Some 480
  /\ 480 <= 720
  /\ dict_get download_size_map "sm" None = Some 720
  /\ Image_open_RGB stored_ribbon = inr (flat 480 1 (235, 235, 235))
  /\ _resize_if_needed "sm" (Some 720) stored_ribbon "a.png"
     = inr (sized_name "sm" "a.png", save_png (flat 480 1 (235, 235, 235))).
Proof.
  assert (Hrun : _pencil_sketch ribbon "clean" "none" "xs" [F.of_Z64 128]
                 = (inr (flat 480 1 (235, 235, 235)), []))
    by (vm_compute; reflexivity).
  split; [reflexivity |]. split; [reflexivity |]. split; [reflexivity |].
  split; [exact Hrun |]. split; [reflexivity |]. split; [lia |].
  split; [reflexivity |]. split; [reflexivity |].
  exact (export_at_render_size_keeps_pixels (Lib := lib) (Web := site)
           ribbon "clean" "none" "xs" [F.of_Z64 128] [] (flat 800 2 white)
           (flat 480 1 (235, 235, 235)) 480 "sm" 720 stored_ribbon "a.png"
           eq_refl eq_refl eq_refl Hrun eq_refl ltac:(lia) eq_refl eq_refl).
Defined.

End FlatRuns.
